(** * Delphi-Scrape: the static site exporter ([tools/export_site.py])

    A shallow embedding of the export pipeline and the properties its
    specification states about it.

    Conventions of the embedding.
    - A Python [str] is the list of its Unicode code points ([pystr]); [len],
      slicing and the regular expressions of the source count code points.
    - [bytes] are lists of integers in [0, 256).
    - Optional record fields read with [dict.get] are [option] values; the
      idiom [x or default] is [or_default].
    - The export tree is a finite map from export-relative paths to file
      contents; directories are not represented.
    - Exceptions are explicit: effectful code lives in a state-and-error monad
      over the export tree.
    - Library tables that are no part of the repository (the Unicode case
      table, the HTML entity decoder, [strptime], the stylesheet text) are
      Section variables.
    - The fields of a record that the source renders as text are strings, as
      the scraper writes them.
    - A path of the export tree is the text the source joins to the export
      directory, and writing a file fails only when its text has no UTF-8
      encoding. The map is the file system as long as the names joined to the
      directories are plain (no ['/'], no NUL) and short enough for a file
      name: folder slugs and hashed asset names are so by construction,
      thread identifiers are so under the hypotheses [plain_thread_ids] and
      [page_names_fit], which the statements that depend on it carry. *)

From Stdlib Require Import ZArith Lia Ascii String List Sorted Permutation.
From stdpp Require Import base option list gmap.

Local Open Scope Z_scope.

(** ** Python text *)

Abbreviation pystr := (list Z) (only parsing).
Abbreviation pybytes := (list Z) (only parsing).

(** An ASCII literal of the source, as code points. *)
Fixpoint lit (s : string) : pystr :=
  match s with
  | EmptyString => []
  | String a r => Z.of_N (N_of_ascii a) :: lit r
  end.

(** A template literal: as [lit], with every backquote standing for the
    double quote of the source text. *)
Definition tpl (s : string) : pystr :=
  map (fun c => if c =? 96 then 34 else c) (lit s).

Definition str_eqb (a b : pystr) : bool := bool_decide (a = b).

(** [not s] for a string. *)
Definition is_empty (s : pystr) : bool :=
  match s with [] => true | _ => false end.

(** [x or d] for an optional string: [None] and the empty string are falsy. *)
Definition or_default (x : option pystr) (d : pystr) : pystr :=
  match x with
  | Some s => if is_empty s then d else s
  | None => d
  end.

(** Truthiness of an optional string. *)
Definition truthy (x : option pystr) : bool :=
  match x with
  | Some s => negb (is_empty s)
  | None => false
  end.

(** [Py_UNICODE_ISSPACE]: the predicate behind [str.strip], [str.isspace] and
    the class [\s] of [re] on [str] patterns. *)
Definition is_space (c : Z) : bool :=
  ((9 <=? c) && (c <=? 13)) || ((28 <=? c) && (c <=? 32))
  || (c =? 0x85) || (c =? 0xA0) || (c =? 0x1680)
  || ((0x2000 <=? c) && (c <=? 0x200A))
  || (c =? 0x2028) || (c =? 0x2029) || (c =? 0x202F) || (c =? 0x205F)
  || (c =? 0x3000).

Fixpoint lstrip_by (p : Z -> bool) (s : pystr) : pystr :=
  match s with
  | c :: r => if p c then lstrip_by p r else s
  | [] => []
  end.

Definition rstrip_by (p : Z -> bool) (s : pystr) : pystr :=
  rev (lstrip_by p (rev s)).

Definition strip_by (p : Z -> bool) (s : pystr) : pystr :=
  rstrip_by p (lstrip_by p s).

(** [s.strip()], [s.rstrip()]. *)
Definition str_strip : pystr -> pystr := strip_by is_space.
Definition str_rstrip : pystr -> pystr := rstrip_by is_space.

Definition mem_char (chars : pystr) (c : Z) : bool :=
  existsb (Z.eqb c) chars.

(** [s.rstrip(chars)], [s.strip(chars)]. *)
Definition str_rstrip_chars (chars s : pystr) : pystr :=
  rstrip_by (mem_char chars) s.
Definition str_strip_chars (chars s : pystr) : pystr :=
  strip_by (mem_char chars) s.

Fixpoint str_startswith (p s : pystr) : bool :=
  match p, s with
  | [], _ => true
  | a :: p', b :: s' => (a =? b) && str_startswith p' s'
  | _ :: _, [] => false
  end.

(** [s.endswith(p)]. *)
Definition str_endswith (p s : pystr) : bool :=
  str_startswith (rev p) (rev s).

(** [s[:n]] and [s[n:]] for [n >= 0]; [s[:-n]] for [n > 0]. *)
Definition slice_to (n : nat) (s : pystr) : pystr := take n s.
Definition slice_from (n : nat) (s : pystr) : pystr := drop n s.
Definition slice_to_neg (n : nat) (s : pystr) : pystr :=
  take (length s - n)%nat s.

(** [s.find(c)] for a one-character needle: [None] stands for [-1]. *)
Fixpoint str_find (c : Z) (s : pystr) : option nat :=
  match s with
  | [] => None
  | x :: r => if x =? c then Some O else option_map S (str_find c r)
  end.

(** [c in s] and [s.count(c)] for a one-character needle. *)
Definition str_contains (c : Z) (s : pystr) : bool := existsb (Z.eqb c) s.
Definition str_count (c : Z) (s : pystr) : nat :=
  length (List.filter (Z.eqb c) s).

(** [s.replace(old, new)] for a one-character [old]. *)
Definition replace_char (old : Z) (new : pystr) (s : pystr) : pystr :=
  flat_map (fun c => if c =? old then new else [c]) s.

(** [s.replace(old, new)] in general: the non-overlapping occurrences of
    [old], leftmost first; an empty [old] matches between all characters. *)
Fixpoint replace_from (fuel : nat) (old new s : pystr) : pystr :=
  match fuel with
  | O => s
  | S fuel' =>
      match s with
      | [] => []
      | c :: r =>
          if str_startswith old s
          then new ++ replace_from fuel' old new (drop (length old) s)
          else c :: replace_from fuel' old new r
      end
  end.

Definition str_replace (old new s : pystr) : pystr :=
  match old with
  | [] => new ++ flat_map (fun c => c :: new) s
  | _ => replace_from (length s) old new s
  end.

(** [needle in s]. *)
Fixpoint str_in (needle s : pystr) : bool :=
  str_startswith needle s
  || match s with
     | [] => false
     | _ :: r => str_in needle r
     end.

(** [sep.join(parts)]. *)
Fixpoint str_join (sep : pystr) (parts : list pystr) : pystr :=
  match parts with
  | [] => []
  | [p] => p
  | p :: rest => p ++ sep ++ str_join sep rest
  end.

(** [s.rsplit(" ", 1)[0]]: the text before the last space, or all of [s]. *)
Fixpoint last_index (c : Z) (s : pystr) : option nat :=
  match s with
  | [] => None
  | x :: r =>
      match last_index c r with
      | Some i => Some (S i)
      | None => if x =? c then Some O else None
      end
  end.

Definition rsplit_space_head (s : pystr) : pystr :=
  match last_index 32 s with
  | Some i => take i s
  | None => s
  end.

(** Lexicographic order of [str] (by code point). *)
Fixpoint str_leb (a b : pystr) : bool :=
  match a, b with
  | [], _ => true
  | _ :: _, [] => false
  | x :: a', y :: b' => (x <? y) || ((x =? y) && str_leb a' b')
  end.

(** [str(n)] and the format specifications [{n:02d}], [{n:04d}]. *)
Fixpoint digits_of (fuel : nat) (n : Z) (acc : pystr) : pystr :=
  match fuel with
  | O => acc
  | S fuel' =>
      let acc' := (48 + n mod 10) :: acc in
      if n <? 10 then acc' else digits_of fuel' (n / 10) acc'
  end.

Definition str_of_int (n : Z) : pystr :=
  if n <? 0 then 45 :: digits_of (Z.to_nat (- n)) (- n) []
  else digits_of (S (Z.to_nat n)) n [].

Definition zero_pad (width : nat) (s : pystr) : pystr :=
  repeat 48 (width - length s)%nat ++ s.

(** [f"{n:0Wd}"]: the sign comes first, the zeros fill up to the width. *)
Definition fmt_0d (width : nat) (n : Z) : pystr :=
  if n <? 0 then 45 :: zero_pad (width - 1) (digits_of (Z.to_nat (- n)) (- n) [])
  else zero_pad width (str_of_int n).

(** ** [str.encode("utf-8")] *)

(** The encoding of one code point; surrogates and values outside the code
    space have none ([UnicodeEncodeError]). *)
Definition utf8_char (c : Z) : option pybytes :=
  if c <? 0 then None
  else if c <? 0x80 then Some [c]
  else if c <? 0x800 then
    Some [Z.lor 0xC0 (Z.shiftr c 6); Z.lor 0x80 (Z.land c 0x3F)]
  else if c <? 0x10000 then
    if (0xD800 <=? c) && (c <=? 0xDFFF) then None
    else Some [Z.lor 0xE0 (Z.shiftr c 12);
               Z.lor 0x80 (Z.land (Z.shiftr c 6) 0x3F);
               Z.lor 0x80 (Z.land c 0x3F)]
  else if c <? 0x110000 then
    Some [Z.lor 0xF0 (Z.shiftr c 18);
          Z.lor 0x80 (Z.land (Z.shiftr c 12) 0x3F);
          Z.lor 0x80 (Z.land (Z.shiftr c 6) 0x3F);
          Z.lor 0x80 (Z.land c 0x3F)]
  else None.

Fixpoint utf8_encode (s : pystr) : option pybytes :=
  match s with
  | [] => Some []
  | c :: r =>
      match utf8_char c, utf8_encode r with
      | Some b, Some bs => Some (b ++ bs)
      | _, _ => None
      end
  end.

(** ** [hashlib.sha1] (FIPS 180-4) on 32-bit words held in [Z] *)

Definition w32 (x : Z) : Z := x mod 0x100000000.
Definition add32 (a b : Z) : Z := w32 (a + b).
Definition rotl32 (n x : Z) : Z :=
  Z.lor (w32 (Z.shiftl x n)) (Z.shiftr x (32 - n)).
Definition not32 (x : Z) : Z := Z.lxor x 0xFFFFFFFF.

(** Big-endian bytes of [x], [n] of them. *)
Fixpoint be_bytes (n : nat) (x : Z) : pybytes :=
  match n with
  | O => []
  | S n' => be_bytes n' (Z.shiftr x 8) ++ [Z.land x 0xFF]
  end.

Definition sha1_pad (msg : pybytes) : pybytes :=
  let l := Z.of_nat (length msg) in
  let k := Z.to_nat ((55 - l) mod 64) in
  msg ++ [0x80] ++ repeat 0 k ++ be_bytes 8 (8 * l).

Fixpoint be_words (fuel : nat) (bs : pybytes) : list Z :=
  match fuel, bs with
  | S fuel', a :: b :: c :: d :: r =>
      Z.lor (Z.shiftl a 24) (Z.lor (Z.shiftl b 16) (Z.lor (Z.shiftl c 8) d))
      :: be_words fuel' r
  | _, _ => []
  end.

(** The message schedule, newest word first. *)
Fixpoint sha1_schedule (n : nat) (ws : list Z) : list Z :=
  match n with
  | O => ws
  | S n' =>
      let w := rotl32 1 (Z.lxor (Z.lxor (nth 2 ws 0) (nth 7 ws 0))
                                (Z.lxor (nth 13 ws 0) (nth 15 ws 0))) in
      sha1_schedule n' (w :: ws)
  end.

Definition sha1_f (t : nat) (b c d : Z) : Z :=
  if (t <? 20)%nat then Z.lor (Z.land b c) (Z.land (not32 b) d)
  else if (t <? 40)%nat then Z.lxor (Z.lxor b c) d
  else if (t <? 60)%nat then
    Z.lor (Z.lor (Z.land b c) (Z.land b d)) (Z.land c d)
  else Z.lxor (Z.lxor b c) d.

Definition sha1_k (t : nat) : Z :=
  if (t <? 20)%nat then 0x5A827999
  else if (t <? 40)%nat then 0x6ED9EBA1
  else if (t <? 60)%nat then 0x8F1BBCDC
  else 0xCA62C1D6.

Definition sha1_state : Type := Z * Z * Z * Z * Z.

Fixpoint sha1_rounds (t : nat) (ws : list Z) (st : sha1_state) : sha1_state :=
  match ws with
  | [] => st
  | w :: ws' =>
      let '(a, b, c, d, e) := st in
      let tmp :=
        add32 (add32 (add32 (add32 (rotl32 5 a) (sha1_f t b c d)) e) (sha1_k t)) w in
      sha1_rounds (S t) ws' (tmp, a, rotl32 30 b, c, d)
  end.

Definition sha1_block (st : sha1_state) (block : pybytes) : sha1_state :=
  let ws := rev (sha1_schedule 64 (rev (be_words 16 block))) in
  let '(a, b, c, d, e) := st in
  let '(a', b', c', d', e') := sha1_rounds 0 ws st in
  (add32 a a', add32 b b', add32 c c', add32 d d', add32 e e').

Fixpoint sha1_blocks (fuel : nat) (st : sha1_state) (bs : pybytes) : sha1_state :=
  match fuel with
  | O => st
  | S fuel' =>
      match bs with
      | [] => st
      | _ => sha1_blocks fuel' (sha1_block st (take 64 bs)) (drop 64 bs)
      end
  end.

Definition sha1_init : sha1_state :=
  (0x67452301, 0xEFCDAB89, 0x98BADCFE, 0x10325476, 0xC3D2E1F0).

(** [hashlib.sha1(msg).digest()]. *)
Definition sha1 (msg : pybytes) : pybytes :=
  let padded := sha1_pad msg in
  let '(a, b, c, d, e) := sha1_blocks (length padded) sha1_init padded in
  be_bytes 4 a ++ be_bytes 4 b ++ be_bytes 4 c ++ be_bytes 4 d ++ be_bytes 4 e.

Definition hex_digit (n : Z) : Z := if n <? 10 then 48 + n else 87 + n.

(** [bytes.hex()]: two lower-case digits per byte. *)
Definition hex_of_bytes (bs : pybytes) : pystr :=
  flat_map (fun b => [hex_digit (Z.shiftr b 4); hex_digit (Z.land b 15)]) bs.

(** [hashlib.sha1(msg).hexdigest()]. *)
Definition sha1_hexdigest (msg : pybytes) : pystr := hex_of_bytes (sha1 msg).

(** ** The content addressor *)

(** The class [[^./?&=\-]] of [HASH_EXT_RE]. *)
Definition ext_char (c : Z) : bool :=
  negb (mem_char (lit "./?&=-") c).

(** [$] (without [re.MULTILINE]) at the position where [rest] remains: the
    end of the string, or just before a newline that ends the string. *)
Definition at_dollar (rest : pystr) : bool :=
  match rest with
  | [] => true
  | [c] => c =? 10
  | _ => false
  end.

(** The greedy quantifier [{1,k}] of the class followed by [$]: the longest
    run is tried first and given back one character at a time. The result is
    the number of characters matched. *)
Fixpoint ext_run (k : nat) (s : pystr) : option nat :=
  match k, s with
  | S k', c :: r =>
      if ext_char c then
        match ext_run k' r with
        | Some n => Some (S n)
        | None => if at_dollar r then Some 1%nat else None
        end
      else None
  | _, _ => None
  end.

(** [HASH_EXT_RE.match] anchored at the head of [s]: the length of group 1. *)
Definition hash_ext_at (s : pystr) : option nat :=
  match s with
  | c :: r => if c =? 46 then option_map S (ext_run 5 r) else None
  | [] => None
  end.

(** [HASH_EXT_RE.search(s)]: the leftmost position with a match, as
    [(match.start(1), len(match.group(1)))]. *)
Fixpoint hash_ext_search (s : pystr) : option (nat * nat) :=
  match hash_ext_at s with
  | Some n => Some (O, n)
  | None =>
      match s with
      | [] => None
      | _ :: r =>
          match hash_ext_search r with
          | Some (i, n) => Some (S i, n)
          | None => None
          end
      end
  end.

(** [hash_for_url]; [None] is the [UnicodeEncodeError] of [encode]. *)
Definition hash_for_url (url : pystr) : option pystr :=
  let '(file_part, ext) :=
    match hash_ext_search url with
    | Some (start, n) => (slice_to start url, take n (slice_from start url))
    | None => (url, [])
    end in
  match utf8_encode file_part with
  | Some data => Some (sha1_hexdigest data ++ ext)
  | None => None
  end.

(** ** [datetime.datetime] *)

Record datetime : Type := mk_datetime {
  year : Z; month : Z; day : Z;
  hour : Z; minute : Z; second : Z; microsecond : Z
}.

Definition datetime_min : datetime := mk_datetime 1 1 1 0 0 0 0.
Definition datetime_max : datetime := mk_datetime 9999 12 31 23 59 59 999999.

Definition dt_fields (d : datetime) : list Z :=
  [year d; month d; day d; hour d; minute d; second d; microsecond d].

(** [a <= b] on datetimes: field by field, most significant first. *)
Definition dt_leb (a b : datetime) : bool := str_leb (dt_fields a) (dt_fields b).

Definition is_leap (y : Z) : bool :=
  (y mod 4 =? 0) && (negb (y mod 100 =? 0) || (y mod 400 =? 0)).

Definition days_in_month (y m : Z) : Z :=
  if m =? 2 then (if is_leap y then 29 else 28)
  else if (m =? 4) || (m =? 6) || (m =? 9) || (m =? 11) then 30 else 31.

(** The range invariant of every [datetime] object. *)
Definition valid_datetime (d : datetime) : bool :=
  (1 <=? year d) && (year d <=? 9999) && (1 <=? month d) && (month d <=? 12)
  && (1 <=? day d) && (day d <=? days_in_month (year d) (month d))
  && (0 <=? hour d) && (hour d <=? 23) && (0 <=? minute d) && (minute d <=? 59)
  && (0 <=? second d) && (second d <=? 59)
  && (0 <=? microsecond d) && (microsecond d <=? 999999).

Definition month_abbr (m : Z) : pystr :=
  nth (Z.to_nat (m - 1))
    (map lit ["Jan"; "Feb"; "Mar"; "Apr"; "May"; "Jun";
              "Jul"; "Aug"; "Sep"; "Oct"; "Nov"; "Dec"]%string) [].

Definition hour12 (h : Z) : Z := if h mod 12 =? 0 then 12 else h mod 12.
Definition am_pm (h : Z) : pystr := if h <? 12 then lit "AM" else lit "PM".

(** [timestamp.strftime("%b %d, %Y %I:%M %p")] in the C locale; [%Y] prints
    the year without padding, as glibc does. *)
Definition strftime_thread (d : datetime) : pystr :=
  month_abbr (month d) ++ lit " " ++ fmt_0d 2 (day d) ++ lit ", "
  ++ str_of_int (year d) ++ lit " " ++ fmt_0d 2 (hour12 (hour d)) ++ lit ":"
  ++ fmt_0d 2 (minute d) ++ lit " " ++ am_pm (hour d).

(** [timestamp.strftime('%Y-%m-%d %H:%M:%S')]. *)
Definition strftime_footer (d : datetime) : pystr :=
  str_of_int (year d) ++ lit "-" ++ fmt_0d 2 (month d) ++ lit "-"
  ++ fmt_0d 2 (day d) ++ lit " " ++ fmt_0d 2 (hour d) ++ lit ":"
  ++ fmt_0d 2 (minute d) ++ lit ":" ++ fmt_0d 2 (second d).

Definition format_time_component (timestamp : datetime) : pystr :=
  let h := hour12 (hour timestamp) in
  let suffix := am_pm (hour timestamp) in
  str_of_int h ++ lit ":" ++ fmt_0d 2 (minute timestamp) ++ suffix.

Definition format_date_short (timestamp : option datetime) : option pystr :=
  match timestamp with
  | None => None
  | Some t =>
      Some (str_of_int (month t) ++ lit "/" ++ fmt_0d 2 (day t) ++ lit "/"
            ++ fmt_0d 2 (year t mod 100))
  end.

Definition format_card_timestamp (timestamp : option datetime) : option pystr :=
  match timestamp with
  | None => None
  | Some t =>
      Some (month_abbr (month t) ++ lit " " ++ fmt_0d 2 (day t) ++ lit ", "
            ++ str_of_int (year t) ++ lit " " ++ format_time_component t)
  end.

Definition format_folder_date (timestamp : option datetime) : pystr :=
  match timestamp with
  | None => lit "Unknown"
  | Some t =>
      fmt_0d 2 (month t) ++ lit "/" ++ fmt_0d 2 (day t) ++ lit "/"
      ++ fmt_0d 4 (year t)
  end.

(** ** [html.escape] *)

Definition html_escape (s : pystr) : pystr :=
  flat_map (fun c =>
    if c =? 38 then lit "&amp;"
    else if c =? 60 then lit "&lt;"
    else if c =? 62 then lit "&gt;"
    else if c =? 34 then lit "&quot;"
    else if c =? 39 then lit "&#x27;"
    else [c]) s.

(** ** The regular expressions of the model builder *)

(** [re.sub(CLASS+, rep, s)] for a character class: every maximal run of
    characters of the class becomes one [rep]. [inrun] tells that the previous
    character belonged to a run. *)
Fixpoint sub_runs (p : Z -> bool) (rep : pystr) (inrun : bool) (s : pystr) : pystr :=
  match s with
  | [] => []
  | c :: r =>
      if p c then (if inrun then [] else rep) ++ sub_runs p rep true r
      else c :: sub_runs p rep false r
  end.

(** [STRIP_TAG_RE] anchored after a ['<']: the greedy [[^>]+] runs up to the
    first ['>'], which must not come at once. The result is the number of
    characters of [r] the match takes. *)
Definition tag_end (r : pystr) : option nat :=
  match str_find 62 r with
  | Some (S j) => Some (S (S j))
  | _ => None
  end.

(** [STRIP_TAG_RE.sub(" ", s)]. *)
Fixpoint sub_tags_from (fuel : nat) (s : pystr) : pystr :=
  match fuel with
  | O => s
  | S fuel' =>
      match s with
      | [] => []
      | c :: r =>
          if c =? 60 then
            match tag_end r with
            | Some n => 32 :: sub_tags_from fuel' (drop n r)
            | None => c :: sub_tags_from fuel' r
            end
          else c :: sub_tags_from fuel' r
      end
  end.

Definition sub_tags (s : pystr) : pystr := sub_tags_from (length s) s.

Definition is_slug_char (c : Z) : bool :=
  ((97 <=? c) && (c <=? 122)) || ((48 <=? c) && (c <=? 57)).

(** ** Sample library tables

    The definitions of this part stand in for the library when a statement
    is evaluated on concrete data. *)

(** A case table without non-ASCII case pairs. *)
Definition plain_case_table (s : pystr) (i : nat) : pystr :=
  match s !! i with Some c => [c] | None => [] end.

(** An entity decoder for the references [&amp;], [&lt;], [&gt;], [&quot;],
    [&#39;] and [&nbsp;], each with its semicolon. [html.unescape] returns
    the same text whenever every ['&'] of the input starts one of these. *)
Definition basic_entities : list (pystr * pystr) :=
  [(lit "&amp;", lit "&"); (lit "&lt;", lit "<"); (lit "&gt;", lit ">");
   (lit "&quot;", [34]); (lit "&#39;", lit "'"); (lit "&nbsp;", [0xA0])].

Fixpoint decode_entity (table : list (pystr * pystr)) (s : pystr)
  : option (pystr * nat) :=
  match table with
  | [] => None
  | (name, value) :: rest =>
      if str_startswith name s then Some (value, length name)
      else decode_entity rest s
  end.

Fixpoint unescape_from (fuel : nat) (s : pystr) : pystr :=
  match fuel with
  | O => s
  | S fuel' =>
      match s with
      | [] => []
      | c :: r =>
          match decode_entity basic_entities s with
          | Some (v, n) => v ++ unescape_from fuel' (drop n s)
          | None => c :: unescape_from fuel' r
          end
      end
  end.

Definition unescape_basic (s : pystr) : pystr := unescape_from (length s) s.

(** A parser for the format ["%a %b %d %H:%M:%S %Y"] after the regular
    expression [_strptime] compiles for it, restricted to ASCII digits and
    letters; candidates are listed in the order the backtracking matcher
    tries them. *)
Definition is_digit (c : Z) : bool := (48 <=? c) && (c <=? 57).
Definition in_digits (lo hi : Z) (c : Z) : bool := (48 + lo <=? c) && (c <=? 48 + hi).
Definition ascii_lower (c : Z) : Z := if (65 <=? c) && (c <=? 90) then c + 32 else c.

Definition two_digits (p1 p2 : Z -> bool) (s : pystr) : list (Z * pystr) :=
  match s with
  | a :: b :: r => if p1 a && p2 b then [(10 * (a - 48) + (b - 48), r)] else []
  | _ => []
  end.

Definition one_digit (p : Z -> bool) (s : pystr) : list (Z * pystr) :=
  match s with
  | a :: r => if p a then [(a - 48, r)] else []
  | _ => []
  end.

Definition re_d (s : pystr) : list (Z * pystr) :=
  two_digits (in_digits 3 3) (in_digits 0 1) s
  ++ two_digits (in_digits 1 2) is_digit s
  ++ two_digits (in_digits 0 0) (in_digits 1 9) s
  ++ one_digit (in_digits 1 9) s
  ++ match s with
     | c :: r => if c =? 32 then one_digit (in_digits 1 9) r else []
     | [] => []
     end.

Definition re_H (s : pystr) : list (Z * pystr) :=
  two_digits (in_digits 2 2) (in_digits 0 3) s
  ++ two_digits (in_digits 0 1) is_digit s ++ one_digit is_digit s.

Definition re_M (s : pystr) : list (Z * pystr) :=
  two_digits (in_digits 0 5) is_digit s ++ one_digit is_digit s.

Definition re_S (s : pystr) : list (Z * pystr) :=
  two_digits (in_digits 6 6) (in_digits 0 1) s
  ++ two_digits (in_digits 0 5) is_digit s ++ one_digit is_digit s.

Definition re_Y (s : pystr) : list (Z * pystr) :=
  match s with
  | a :: b :: c :: d :: r =>
      if forallb is_digit [a; b; c; d]
      then [(1000 * (a - 48) + 100 * (b - 48) + 10 * (c - 48) + (d - 48), r)]
      else []
  | _ => []
  end.

Fixpoint re_name (i : Z) (names : list pystr) (s : pystr) : list (Z * pystr) :=
  match names with
  | [] => []
  | n :: rest =>
      if str_startswith n (map ascii_lower (take (length n) s))
      then [(i, drop (length n) s)]
      else re_name (i + 1) rest s
  end.

(** [\s+]: the longest run first. *)
Fixpoint re_ws (s : pystr) : list pystr :=
  match s with
  | c :: r => if is_space c then re_ws r ++ [r] else []
  | [] => []
  end.

Definition re_colon (s : pystr) : list pystr :=
  match s with
  | c :: r => if c =? 58 then [r] else []
  | [] => []
  end.

Definition weekday_names : list pystr :=
  map lit ["mon"; "tue"; "wed"; "thu"; "fri"; "sat"; "sun"]%string.
Definition month_names : list pystr :=
  map lit ["jan"; "feb"; "mar"; "apr"; "may"; "jun";
           "jul"; "aug"; "sep"; "oct"; "nov"; "dec"]%string.

Definition strptime_paths (s : pystr) : list (datetime * pystr) :=
  '(_, s) ← re_name 0 weekday_names s;
  s ← re_ws s;
  '(b, s) ← re_name 1 month_names s;
  s ← re_ws s;
  '(d, s) ← re_d s;
  s ← re_ws s;
  '(hh, s) ← re_H s;
  s ← re_colon s;
  '(mm, s) ← re_M s;
  s ← re_colon s;
  '(ss, s) ← re_S s;
  s ← re_ws s;
  '(yy, s) ← re_Y s;
  [(mk_datetime yy b d hh mm ss 0, s)].

(** [datetime.strptime(data, fmt)] for the two formats [parse_date] passes;
    [None] is [ValueError]. The second format names the directive [%e],
    which [_strptime] rejects whatever the data. *)
Definition strptime_c (fmt data : pystr) : option datetime :=
  if str_eqb fmt (lit "%a %b %d %H:%M:%S %Y") then
    match strptime_paths data with
    | (d, []) :: _ => if valid_datetime d then Some d else None
    | _ => None
    end
  else None.

(** ** Records of the store and of the model *)

(** A scalar of a YAML record that the exporter prints without looking at
    its type (the view count). *)
Inductive yaml_scalar : Type :=
| YStr (s : pystr)
| YInt (n : Z).

(** [str(v)], also [f"{v}"]. *)
Definition str_of_scalar (v : yaml_scalar) : pystr :=
  match v with
  | YStr s => s
  | YInt n => str_of_int n
  end.

(** Truthiness of [thread.get("views")]. *)
Definition scalar_truthy (v : option yaml_scalar) : bool :=
  match v with
  | Some (YStr s) => negb (is_empty s)
  | Some (YInt n) => negb (n =? 0)
  | None => false
  end.

(** An entry of [attachments]: the keys [href], [name], [size]. *)
Record attachment : Type := mk_attachment {
  att_href : option pystr;
  att_name : option pystr;
  att_size : option pystr
}.

(** A message entry of a thread record; every key may be missing. The key
    [from] is [msg_from], and so on. [images] and [attachments] are read
    with [or []], so a missing list is the empty one. *)
Record message : Type := mk_message {
  msg_id : option pystr;
  msg_from : option pystr;
  msg_to : option pystr;
  msg_from_status : option pystr;
  msg_to_status : option pystr;
  msg_date : option pystr;
  msg_content : option pystr;
  msg_images : list pystr;
  msg_attachments : list attachment;
  msg_in_reply_to : option pystr
}.

(** The [metadata] block of a thread record. *)
Record metadata : Type := mk_metadata {
  md_topic : option pystr;
  md_folder : option pystr;
  md_views : option yaml_scalar
}.

(** A thread record as [load_yaml] returns it: the keys [thead_id],
    [metadata] and [messages]. *)
Record thread_record : Type := mk_thread_record {
  thead_id : option pystr;
  rec_metadata : option metadata;
  rec_messages : option (list message)
}.

(** The dictionary [main] builds for a thread and hands to the renderers. *)
Record thread : Type := mk_thread {
  t_id : pystr;
  t_title : pystr;
  t_folder : pystr;
  t_folder_slug : pystr;
  t_views : option yaml_scalar;
  t_message_count : Z;
  t_first_date : option datetime;
  t_last_date : option datetime;
  t_first_author : option pystr;
  t_snippet : pystr
}.

(** A bucket of the [folders] dictionary: the keys [name], [slug],
    [threads]. *)
Record folder : Type := mk_folder {
  f_name : pystr;
  f_slug : pystr;
  f_threads : list thread
}.

(** The store directory: [threads/*.yaml] as (stem, record) pairs in the
    order [glob] yields them, or [None] when the directory is missing; the
    profiles by file stem; the binaries of [files/] by name. *)
Record store : Type := mk_store {
  store_threads : option (list (pystr * thread_record));
  store_profiles : gmap pystr (gmap pystr pystr);
  store_files : gmap pystr pybytes
}.

#[global] Instance datetime_eq_dec : EqDecision datetime.
Proof. solve_decision. Defined.

#[global] Instance yaml_scalar_eq_dec : EqDecision yaml_scalar.
Proof. solve_decision. Defined.

(** ** Effects: the export tree and exceptions *)

Inductive exn : Type :=
| UnicodeEncodeError
| AttributeError
| SystemExit.

Inductive outcome (A : Type) : Type :=
| Done (a : A)
| Raised (e : exn).
Arguments Done {A} a.
Arguments Raised {A} e.

(** The export directory: export-relative path to file content. *)
Abbreviation tree := (gmap (list Z) (list Z)) (only parsing).

Definition io (A : Type) : Type := tree -> outcome A * tree.

#[global] Instance io_ret : MRet io := fun A a st => (Done a, st).
#[global] Instance io_bind : MBind io := fun A B f m st =>
  match m st with
  | (Done a, st') => f a st'
  | (Raised e, st') => (Raised e, st')
  end.

Definition raise {A : Type} (e : exn) : io A := fun st => (Raised e, st).
Definition get_tree : io tree := fun st => (Done st, st).
Definition put_file (path : pystr) (content : pybytes) : io unit :=
  fun st => (Done tt, <[path := content]> st).

(** [path.exists()] inside the export tree. *)
Definition exists_in_tree (path : pystr) : io bool :=
  st ← get_tree; mret (bool_decide (is_Some (st !! path))).

(** [path.write_text(text, encoding="utf-8")]: the file is opened, and so
    emptied, before the text is encoded. The path is taken as it is written:
    it is the file the file system opens when the name that was joined to
    the export directory is a plain one (no ['/'], no NUL). *)
Definition write_text (path text : pystr) : io unit :=
  match utf8_encode text with
  | Some data => put_file path data
  | None => put_file path [];; raise UnicodeEncodeError
  end.

(** [html.escape(x)] on a value that may be [None]. *)
Definition escape_opt (x : option pystr) : io pystr :=
  match x with
  | Some s => mret (html_escape s)
  | None => raise AttributeError
  end.

(** ** Stable sorting *)

(** [sorted(l, key=...)] is a stable sort; [leb a b] compares the keys of
    [a] and [b]. *)
Fixpoint insert_by {A : Type} (leb : A -> A -> bool) (x : A) (l : list A) : list A :=
  match l with
  | [] => [x]
  | y :: r => if leb x y then x :: l else y :: insert_by leb x r
  end.

Definition sort_by {A : Type} (leb : A -> A -> bool) (l : list A) : list A :=
  foldr (insert_by leb) [] l.

(** [l.sort(key=..., reverse=True)]: the reversed list is sorted and turned
    round again, which keeps equal keys in their first order. *)
Definition sort_by_reverse {A : Type} (leb : A -> A -> bool) (l : list A) : list A :=
  rev (sort_by leb (rev l)).

(** [a <= b] on tuples [(datetime, str)]. *)
Definition key_leb (a b : datetime * pystr) : bool :=
  if bool_decide (a.1 = b.1) then str_leb a.2 b.2 else dt_leb a.1 b.1.


(** ** Sample data

    Concrete inputs on which the statements below are evaluated. *)

Definition sample_clock (k : nat) : datetime := mk_datetime 2026 1 2 3 4 5 0.

Definition sample_url : pystr := lit "http://x/a.jpg".
Definition sample_hashed_name : pystr :=
  lit "c6bf243ba825d0c83b9928c35d25ca612275f271.jpg".
Definition sample_files : gmap pystr pybytes :=
  {[ sample_hashed_name := [255; 216; 255] ]}.

(** A text whose extension has five characters and a newline after it. *)
Definition newline_url : pystr := lit "x.abcde" ++ [10].

(** A text that is one lone surrogate. *)
Definition surrogate_url : pystr := [0xD800].

Definition sample_date : datetime := mk_datetime 2024 1 5 9 7 0 0.

Definition message_with (mid sender date content : string) : message :=
  mk_message (Some (lit mid)) (Some (lit sender)) None None None
             (Some (lit date)) (Some (lit content)) [] [] None.

Definition bare_message : message :=
  mk_message None None None None None None None [] [] None.

Definition record_in (folder_name : string) (messages : list message) : thread_record :=
  mk_thread_record None (Some (mk_metadata None (Some (lit folder_name)) None))
                   (Some messages).

Definition dated_message : message :=
  message_with "1.1" "Ann" "Fri Jan 05 09:07:00 2024" "first".
Definition undated_message : message :=
  message_with "2.1" "Bob" "yesterday" "second".

(** Two threads whose folder names differ and have one slug. *)
Definition colliding_entries : list (pystr * thread_record) :=
  [(lit "1", record_in "A B" [dated_message]);
   (lit "2", record_in "a-b" [undated_message])].

Definition colliding_store : store := mk_store (Some colliding_entries) ∅ ∅.

(** A store with one thread of two messages and one record without. *)
Definition sample_record : thread_record :=
  record_in "General"
    [message_with "3.1" "Alice (guest) unread" "Mon Jan 01 10:30:00 2024" "<p>Hello</p>";
     message_with "3.2" "Bob" "yesterday" "hi"].

Definition sample_store : store :=
  mk_store
    (Some [(lit "7", mk_thread_record None None (Some [])); (lit "3", sample_record)])
    ∅ sample_files.

(** Threads for the two orders: one without dates, one dated at both ends
    of the range, one in between. *)
Definition undated_thread : thread :=
  mk_thread (lit "a") (lit "A") (lit "F") (lit "f") None 1 None None None [].
Definition extreme_thread : thread :=
  mk_thread (lit "b") (lit "B") (lit "F") (lit "f") None 1
            (Some datetime_max) (Some datetime_min) None [].
Definition dated_thread : thread :=
  mk_thread (lit "c") (lit "C") (lit "F") (lit "f") None 3
            (Some sample_date) (Some sample_date) None [].
Definition sample_threads : list thread :=
  [undated_thread; dated_thread; extreme_thread].

(** A body of 200 characters: forty times ["word "]. *)
Definition long_body : pystr := concat (repeat (lit "word ") 40).

(** A date one century before [sample_date], late in the evening. *)
Definition century_date : datetime := mk_datetime 1924 1 5 21 7 30 0.

(** A reply to [dated_message]. *)
Definition reply_message : message :=
  mk_message (Some (lit "1.2")) (Some (lit "Bob")) None None None None
             (Some (lit "re")) [] [] (Some (lit "1.1")).

(** A message with an attachment that has a name and no [href]. *)
Definition href_less_message : message :=
  mk_message (Some (lit "4.1")) None None None None None None []
             [mk_attachment None (Some (lit "a.zip")) None] None.

(** A profile with a location, and one without any of the printed labels. *)
Definition located_profile : gmap pystr pystr :=
  {[ lit "Location" := lit "Oslo"; lit "Shoe size" := lit "43" ]}.
Definition unlabelled_profile : gmap pystr pystr :=
  {[ lit "Shoe size" := lit "43" ]}.

(** A message that shows the picture at [sample_url], and a store that
    captured the picture. *)
Definition pictured_message : message :=
  mk_message (Some (lit "5.1")) (Some (lit "Ann")) None None None None
             (Some (tpl "<img src=`http://x/a.jpg`>")) [sample_url] [] None.
Definition pictured_record : thread_record :=
  record_in "General" [pictured_message].
Definition pictured_store : store :=
  mk_store (Some [(lit "5", pictured_record)]) ∅ sample_files.
Section Pipeline.

(** The lower-case form of the non-ASCII character at position [i] of [s],
    from the Unicode tables behind [str.lower] (one character may become
    several, and the context may matter). *)
Variable lower_nonascii : pystr -> nat -> pystr.

(** [html.unescape]. *)
Variable html_unescape : pystr -> pystr.

(** [datetime.datetime.strptime(data, fmt)] as [strptime fmt data]; [None]
    is [ValueError]. *)
Variable strptime : pystr -> pystr -> option datetime.

(** The stylesheet text. *)
Variable STYLE_CSS : pystr.

Set Default Proof Using "Type".

(** *** Constants *)

Definition INDEX_THREADS_PER_FOLDER : nat := 6.

(** *** Text helpers *)

Fixpoint lower_at (f : nat -> pystr) (i : nat) (s : pystr) : pystr :=
  match s with
  | [] => []
  | c :: r =>
      (if c <? 128 then [ascii_lower c] else f i) ++ lower_at f (S i) r
  end.

(** [s.lower()]. *)
Definition str_lower (s : pystr) : pystr := lower_at (lower_nonascii s) 0 s.

Definition slugify (value : pystr) : pystr :=
  if is_empty value then lit "forum"
  else
    let slug := sub_runs (fun c => negb (is_slug_char c)) (lit "-") false
                  (str_lower value) in
    let slug := str_strip_chars (lit "-") slug in
    if is_empty slug then lit "forum" else slug.

Definition strip_html (text : option pystr) : pystr :=
  match text with
  | None => []
  | Some text =>
      let plain := sub_tags text in
      let plain := html_unescape plain in
      let plain := sub_runs is_space (lit " ") false plain in
      str_strip plain
  end.

Definition build_snippet (text : option pystr) (max_length : nat) : pystr :=
  let plain := strip_html text in
  if (length plain <=? max_length)%nat then plain
  else
    let truncated := str_strip (rsplit_space_head (slice_to max_length plain)) in
    let truncated :=
      if is_empty truncated then str_strip (slice_to max_length plain)
      else truncated in
    let truncated :=
      if str_endswith (lit ".") truncated || str_endswith (lit ",") truncated
         || str_endswith (lit ";") truncated
      then str_rstrip_chars (lit ".,;") truncated
      else truncated in
    truncated ++ lit "...".

Definition pluralize (word : pystr) (count : Z) : pystr :=
  if count =? 1 then word else word ++ lit "s".

(** The last step on [local_status]: any spelling of ["unread"] becomes
    the lower-case one. *)
Definition normalize_status (local_status : option pystr) : option pystr :=
  if truthy local_status
     && str_eqb (str_lower (default [] local_status)) (lit "unread")
  then Some (lit "unread") else local_status.

(** The three pieces [format_name_html] works out before it renders them:
    [primary], [extra] and [local_status]. *)
Definition name_parts (name status : option pystr)
  : pystr * pystr * option pystr :=
  let raw := str_strip (or_default name []) in
  let local_status := status in
  let '(primary, extra, local_status) :=
    if is_empty raw then (lit "Unknown", [], local_status)
    else
      let '(raw, local_status) :=
        if negb (truthy local_status)
           && str_endswith (lit " unread") (str_lower raw)
        then (str_rstrip (slice_to_neg (length (lit "unread")) raw),
              Some (lit "unread"))
        else (raw, local_status) in
      if str_endswith (lit ")") raw && str_contains 40 raw then
        let idx := default O (str_find 40 raw) in
        let segment := str_strip (slice_from idx raw) in
        if bool_decide (str_count 40 segment = str_count 41 segment) then
          let head := str_strip (slice_to idx raw) in
          (if is_empty head then raw else head, segment, local_status)
        else (raw, [], local_status)
      else (raw, [], local_status) in
  (primary, extra, normalize_status local_status).

Definition format_name_html (name : option pystr) (primary_class : pystr)
    (status : option pystr) : pystr :=
  let '(primary, extra, local_status) := name_parts name status in
  let primary_html :=
    tpl "<span class=`" ++ primary_class ++ tpl "`>" ++ html_escape primary
    ++ lit "</span>" in
  let extra_html :=
    if negb (is_empty extra)
    then tpl " <span class=`msg-recipient-extra`>" ++ html_escape extra
         ++ lit "</span>"
    else [] in
  let status_html :=
    if truthy local_status
    then tpl " <span class=`msg-status`>"
         ++ html_escape (default [] local_status) ++ lit "</span>"
    else [] in
  primary_html ++ extra_html ++ status_html.

Definition parse_date (raw : option pystr) : option datetime :=
  if negb (truthy raw) then None
  else
    let raw := default [] raw in
    match strptime (lit "%a %b %d %H:%M:%S %Y") raw with
    | Some d => Some d
    | None => strptime (lit "%a %b %e %H:%M:%S %Y") raw
    end.

(** *** The content addressor on the export tree *)

Definition ensure_local_asset (url : option pystr)
    (store_files : gmap pystr pybytes) (export_files : pystr)
  : io (option pystr) :=
  if negb (truthy url) then mret None
  else
    match hash_for_url (default [] url) with
    | None => raise UnicodeEncodeError
    | Some hashed_name =>
        match store_files !! hashed_name with
        | None => mret None
        | Some data =>
            let destination := export_files ++ lit "/" ++ hashed_name in
            (present ← exists_in_tree destination;
             (if present : bool then mret tt else put_file destination data);;
             mret (Some (lit "files/" ++ hashed_name))) : io (option pystr)
        end
    end.

(** *** Thread cards and pages *)

Definition thread_title (t : thread) : pystr :=
  if is_empty (t_title t) then lit "Thread " ++ t_id t else t_title t.

(** [stats_parts] of a thread card. *)
Definition card_stats_parts (t : thread) : list pystr :=
  let count := t_message_count t in
  let stats_parts := [str_of_int count ++ lit " " ++ pluralize (lit "message") count] in
  let stats_parts :=
    match format_card_timestamp (t_last_date t) with
    | Some last_timestamp => stats_parts ++ [lit "Last activity " ++ last_timestamp]
    | None => stats_parts
    end in
  match t_views t with
  | None | Some (YStr []) | Some (YInt 0) => stats_parts
  | Some v =>
      if bool_decide (v = YStr (lit "0")) then stats_parts
      else stats_parts ++ [str_of_scalar v ++ lit " views"]
  end.

Definition render_thread_card (t : thread) (href_prefix : pystr) : pystr :=
  let title := html_escape (thread_title t) in
  let link := href_prefix ++ lit "threads/" ++ t_id t ++ lit ".html" in
  let meta_html :=
    if truthy (t_first_author t)
    then tpl "<div class=`thread-card-meta`>By "
         ++ html_escape (default [] (t_first_author t)) ++ lit "</div>"
    else [] in
  let snippet_html :=
    if negb (is_empty (t_snippet t))
    then tpl "<p class=`thread-card-snippet`>" ++ html_escape (t_snippet t)
         ++ lit "</p>"
    else [] in
  let stats_parts := card_stats_parts t in
  let stats_text := str_join (lit " | ") stats_parts in
  let stats_html :=
    if negb (is_empty stats_text)
    then tpl "<div class=`thread-card-stats`>" ++ html_escape stats_text
         ++ lit "</div>"
    else [] in
  lit "<li>" ++ tpl "<a class=`thread-card` href=`" ++ link ++ tpl "`>"
  ++ lit "<h3>" ++ title ++ lit "</h3>" ++ meta_html ++ snippet_html
  ++ stats_html ++ lit "</a>" ++ lit "</li>".

Definition sum_message_counts (threads : list thread) : Z :=
  foldr (fun t acc => t_message_count t + acc) 0 threads.

(** The footer line both page kinds end with; [now] is the reading of
    [dt.datetime.now()]. *)
Definition generated_on (now : datetime) : pystr :=
  lit "    Export generated on " ++ strftime_footer now ++ lit ".".

(** One pass of the loop of [render_index_html]: the section of a folder,
    or nothing for a folder without threads. *)
Definition index_section (f : folder) : option pystr :=
  let threads := f_threads f in
  if bool_decide (threads = []) then None
  else
    let preview_threads := take INDEX_THREADS_PER_FOLDER threads in
    let cards := concat (map (fun t => render_thread_card t []) preview_threads) in
    let thread_total := Z.of_nat (length threads) in
    let message_total := sum_message_counts threads in
    let subtitle_parts :=
      [str_of_int thread_total ++ lit " " ++ pluralize (lit "thread") thread_total] in
    let subtitle_parts :=
      if negb (message_total =? 0)
      then subtitle_parts
           ++ [str_of_int message_total ++ lit " "
               ++ pluralize (lit "message") message_total]
      else subtitle_parts in
    let subtitle := str_join (lit " | ") subtitle_parts in
    Some (tpl "<section class=`folder-preview`>"
          ++ tpl "<div class=`folder-header`>"
          ++ lit "<div>"
          ++ lit "<h2>" ++ html_escape (f_name f) ++ lit "</h2>"
          ++ tpl "<p class=`folder-subtitle`>" ++ html_escape subtitle ++ lit "</p>"
          ++ lit "</div>"
          ++ tpl "<a class=`folder-show-all` href=`folders/" ++ f_slug f
          ++ tpl ".html`>Show All</a>"
          ++ lit "</div>"
          ++ tpl "<ul class=`thread-list`>" ++ cards ++ lit "</ul>"
          ++ lit "</section>").

Definition render_index_html (forum_title description : pystr)
    (folders : list folder) (now : datetime) : pystr :=
  let sections := omap index_section folders in
  let sections_html :=
    if bool_decide (sections = [])
    then tpl "<p class=`notice`>No forums were captured in this archive.</p>"
    else concat sections in
  tpl "<!DOCTYPE html>
<html lang=`en`>
<head>
  <meta charset=`utf-8`/>
  <meta name=`viewport` content=`width=device-width, initial-scale=1`/>
  <title>" ++ html_escape forum_title ++ tpl "</title>
  <link rel=`stylesheet` href=`assets/style.css`/>
</head>
<body>
  <header>
    <h1>" ++ html_escape forum_title ++ lit "</h1>
    <p>" ++ html_escape description ++ lit "</p>
  </header>
  <main>
    " ++ sections_html ++ lit "
  </main>
  <footer>
" ++ generated_on now ++ lit "
  </footer>
</body>
</html>
".

(** The sort key of the folder page: [(first_date or datetime.max, id)]. *)
Definition listing_key (t : thread) : datetime * pystr :=
  (default datetime_max (t_first_date t), t_id t).

(** [threads_sorted] of [render_folder_html]. *)
Definition listing_order (threads : list thread) : list thread :=
  sort_by (fun a b => key_leb (listing_key a) (listing_key b)) threads.

(** [replies] of a table row. *)
Definition reply_count (t : thread) : Z := Z.max (t_message_count t - 1) 0.

(** One row of the folder table. *)
Definition folder_row (t : thread) : pystr :=
  let thread_id := html_escape (t_id t) in
  let title :=
    html_escape (if is_empty (t_title t) then lit "Thread " ++ thread_id
                 else t_title t) in
  let first_date := format_folder_date (t_first_date t) in
  let author := html_escape (or_default (t_first_author t) (lit "Unknown")) in
  let replies := reply_count t in
  let link := lit "../threads/" ++ t_id t ++ lit ".html" in
  lit "<tr>"
  ++ tpl "<td class=`thread-id`>" ++ thread_id ++ lit "</td>"
  ++ tpl "<td><a href=`" ++ link ++ tpl "`>" ++ title ++ lit "</a></td>"
  ++ lit "<td>" ++ first_date ++ lit "</td>"
  ++ lit "<td>" ++ author ++ lit "</td>"
  ++ lit "<td>" ++ str_of_int replies ++ lit "</td>"
  ++ lit "</tr>".

Definition render_folder_html (forum_title : pystr) (f : folder)
    (now : datetime) : pystr :=
  let threads := f_threads f in
  let thread_total := Z.of_nat (length threads) in
  let message_total := sum_message_counts threads in
  let subtitle_parts :=
    if negb (thread_total =? 0)
    then [str_of_int thread_total ++ lit " " ++ pluralize (lit "thread") thread_total]
    else [] in
  let subtitle_parts :=
    if negb (message_total =? 0)
    then subtitle_parts
         ++ [str_of_int message_total ++ lit " "
             ++ pluralize (lit "message") message_total]
    else subtitle_parts in
  let subtitle :=
    let joined := str_join (lit " | ") subtitle_parts in
    if is_empty joined then lit "No captured content." else joined in
  let content_html :=
    if bool_decide (threads = [])
    then tpl "<p class=`notice`>No threads were captured for this forum.</p>"
    else
      let threads_sorted := listing_order threads in
      let rows := map folder_row threads_sorted in
      tpl "<table class=`folder-table`>"
      ++ lit "<thead>"
      ++ lit "<tr>"
      ++ lit "<th>Thread ID</th>"
      ++ lit "<th>Message Title</th>"
      ++ lit "<th>Date Posted</th>"
      ++ lit "<th>Author</th>"
      ++ lit "<th>Replies</th>"
      ++ lit "</tr>"
      ++ lit "</thead>"
      ++ lit "<tbody>" ++ concat rows ++ lit "</tbody>"
      ++ lit "</table>" in
  let name_or (d : pystr) := if is_empty (f_name f) then d else f_name f in
  tpl "<!DOCTYPE html>
<html lang=`en`>
<head>
  <meta charset=`utf-8`/>
  <meta name=`viewport` content=`width=device-width, initial-scale=1`/>
  <title>" ++ html_escape (name_or (lit "Forum")) ++ lit " - "
  ++ html_escape forum_title ++ tpl "</title>
  <link rel=`stylesheet` href=`../assets/style.css`/>
</head>
<body class=`folder-page`>
  <header>
    <h1>" ++ html_escape forum_title ++ lit "</h1>
    <p>Forum: " ++ html_escape (name_or (lit "Unknown")) ++ tpl "</p>
  </header>
  <main>
    <section class=`folder-preview`>
      <div class=`folder-header`>
        <div>
          <h2>" ++ html_escape (name_or (lit "Forum")) ++ tpl "</h2>
          <p class=`folder-subtitle`>" ++ html_escape subtitle ++ tpl "</p>
        </div>
        <a class=`folder-show-all` href=`../index.html`>Back to Index</a>
      </div>
      " ++ content_html ++ lit "
    </section>
  </main>
  <footer>
" ++ generated_on now ++ lit "
  </footer>
</body>
</html>
".

(** [first_display] and [last_display] of the thread header. *)
Definition header_date_display (d : option datetime) : pystr :=
  match d with
  | Some d => strftime_thread d
  | None => lit "N/A"
  end.

Definition render_thread_html (forum_title : pystr) (t : thread)
    (messages_html : pystr) : pystr :=
  let folder_text :=
    html_escape (if is_empty (t_folder t) then lit "Uncategorised" else t_folder t) in
  let topic := html_escape (thread_title t) in
  let views :=
    if scalar_truthy (t_views t)
    then html_escape (from_option str_of_scalar [] (t_views t))
    else lit "N/A" in
  let message_count := t_message_count t in
  let first_display := header_date_display (t_first_date t) in
  let last_display := header_date_display (t_last_date t) in
  tpl "<!DOCTYPE html>
<html lang=`en`>
<head>
  <meta charset=`utf-8`/>
  <meta name=`viewport` content=`width=device-width, initial-scale=1`/>
  <title>" ++ topic ++ lit " - " ++ html_escape forum_title ++ tpl "</title>
  <link rel=`stylesheet` href=`../assets/style.css`/>
</head>
<body>
  <div class=`thread-wrapper`>
    <nav class=`breadcrumb`><a href=`../index.html`>&larr; Back to forum index</a></nav>
    <section class=`thread-header`>
      <h2>" ++ topic ++ lit "</h2>
      <dl>
        <dt>Folder</dt><dd>" ++ folder_text ++ lit "</dd>
        <dt>Thread ID</dt><dd>" ++ html_escape (t_id t) ++ lit "</dd>
        <dt>Messages</dt><dd>" ++ str_of_int message_count ++ lit "</dd>
        <dt>Views</dt><dd>" ++ views ++ lit "</dd>
        <dt>First Posted</dt><dd>" ++ html_escape first_display ++ lit "</dd>
        <dt>Last Updated</dt><dd>" ++ html_escape last_display ++ lit "</dd>
      </dl>
    </section>
    " ++ messages_html ++ lit "
  </div>
</body>
</html>
".

(** *** Profiles *)

(** [build_profile_lookup]: the records of [profiles/*.yaml] by file stem
    (no entry when the directory is missing). *)
Definition build_profile_lookup (profiles : gmap pystr (gmap pystr pystr))
  : gmap pystr (gmap pystr pystr) := profiles.

Definition profile_key_from_name (name : option pystr) : option pystr :=
  if negb (truthy name) then None
  else Some (replace_char 47 (lit "_") (default [] name)).

Definition describe_profile (profile : option (gmap pystr pystr)) : pystr :=
  match profile with
  | None => []
  | Some profile =>
      let details :=
        omap (fun label =>
                match profile !! label with
                | Some value =>
                    if is_empty value then None
                    else Some (html_escape label ++ lit ": " ++ html_escape value)
                | None => None
                end)
             (map lit ["Member Since"; "Last visit"; "Location"; "Interests"]%string) in
      if bool_decide (details = []) then []
      else tpl "<div class=`profile-meta`>" ++ str_join (lit " | ") details
           ++ lit "</div>"
  end.

(** *** Messages *)

(** [mid] and [anchor] of a message. *)
Definition message_mid (msg : message) : pystr :=
  or_default (msg_id msg) (lit "unknown").

Definition message_anchor (msg : message) : pystr :=
  lit "msg-" ++ replace_char 46 (lit "-") (message_mid msg).

(** [timestamp_text] of a message header. *)
Definition message_timestamp_text (msg : message) : pystr :=
  let posted_raw := or_default (msg_date msg) [] in
  let posted_dt := parse_date (Some posted_raw) in
  let date_display :=
    match posted_dt with
    | Some _ => default [] (format_date_short posted_dt)
    | None => posted_raw
    end in
  let time_display :=
    match posted_dt with
    | Some d => format_time_component d
    | None => []
    end in
  let timestamp_text := str_strip date_display in
  if negb (is_empty time_display)
  then timestamp_text ++ lit " " ++ time_display
  else timestamp_text.

(** [author_html] and [recipient_html] of a message header. *)
Definition message_author_html (msg : message) : pystr :=
  let raw_author := or_default (msg_from msg) (lit "Unknown") in
  format_name_html (Some raw_author) (lit "msg-author-name") (msg_from_status msg).

Definition message_recipient_html (msg : message) : pystr :=
  let raw_recipient := or_default (msg_to msg) (lit "All") in
  format_name_html (Some raw_recipient) (lit "msg-recipient-name") (msg_to_status msg).

(** One pass of the attachment loop: the list item of an attachment. *)
Definition render_attachment (store_files : gmap pystr pybytes)
    (export_files : pystr) (a : attachment) : io pystr :=
  let href := att_href a in
  local ← ensure_local_asset href store_files export_files;
  let link_target := if truthy local then local else href in
  let label := if truthy (att_name a) then att_name a else href in
  label_text ← escape_opt label;
  let size_text :=
    if truthy (att_size a)
    then lit " (" ++ html_escape (default [] (att_size a)) ++ lit ")"
    else [] in
  if truthy local then
    mret (tpl "<li><a href=`../" ++ default [] link_target ++ tpl "` download>"
          ++ label_text ++ lit "</a>" ++ size_text ++ lit "</li>")
  else
    target ← escape_opt link_target;
    mret (tpl "<li><a href=`" ++ target ++ tpl "`>" ++ label_text
          ++ lit "</a>" ++ size_text ++ lit " (remote)</li>").

(** The image loop: every image that resolves is rewritten in the body. *)
Fixpoint rewrite_images (store_files : gmap pystr pybytes)
    (export_files : pystr) (images : list pystr) (content_html : pystr)
  : io pystr :=
  match images with
  | [] => mret content_html
  | image_url :: rest =>
      local_image ← ensure_local_asset (Some image_url) store_files export_files;
      rewrite_images store_files export_files rest
        (if truthy local_image
         then str_replace image_url (lit "../" ++ default [] local_image) content_html
         else content_html)
  end.

(** The body of the loop of [render_messages]: the article of message
    [index] of [total]. *)
Definition render_message (profile_lookup : gmap pystr (gmap pystr pystr))
    (store_files : gmap pystr pybytes) (export_files : pystr)
    (total : nat) (index : nat) (msg : message) : io pystr :=
  let mid := message_mid msg in
  let anchor := message_anchor msg in
  let author_html := message_author_html msg in
  let recipient_html := message_recipient_html msg in
  let timestamp_html := html_escape (message_timestamp_text msg) in
  let content_html := or_default (msg_content msg) [] in
  attachment_items ← mapM (render_attachment store_files export_files)
                          (msg_attachments msg);
  let attachments_html :=
    if bool_decide (attachment_items = []) then []
    else tpl "<div class=`message-attachments`>"
         ++ lit "<h4>Attachments</h4>"
         ++ lit "<ul>" ++ concat attachment_items ++ lit "</ul>"
         ++ lit "</div>" in
  content_html ← rewrite_images store_files export_files (msg_images msg) content_html;
  let profile_html :=
    match profile_key_from_name (msg_from msg) with
    | Some pk => describe_profile (profile_lookup !! pk)
    | None => []
    end in
  let seq_link :=
    tpl "<a href=`#" ++ anchor ++ tpl "`>" ++ str_of_int (Z.of_nat index)
    ++ lit " of " ++ str_of_int (Z.of_nat total) ++ lit "</a>" in
  let top_row_parts :=
    [tpl "<span class=`msg-label msg-from`>From: " ++ author_html ++ lit "</span>"]
    ++ (if negb (is_empty timestamp_html)
        then [tpl "<span class=`msg-date-time`>" ++ timestamp_html ++ lit "</span>"]
        else []) in
  let bottom_row_parts :=
    [tpl "<span class=`msg-label msg-to`>To: " ++ recipient_html ++ lit "</span>";
     tpl "<span class=`msg-seq`>(" ++ seq_link ++ lit ")</span>"] in
  let header_html :=
    tpl "<header class=`message-header`>"
    ++ tpl "<div class=`msg-row msg-row-top`>"
    ++ concat top_row_parts
    ++ lit "</div>"
    ++ tpl "<div class=`msg-row msg-row-bottom`>"
    ++ concat bottom_row_parts
    ++ lit "</div>"
    ++ lit "</header>" in
  let thread_ref_parts :=
    (if negb (is_empty mid)
     then [lit "<strong>" ++ html_escape mid ++ lit "</strong>"] else [])
    ++ (if truthy (msg_in_reply_to msg) then
          let reply_to := default [] (msg_in_reply_to msg) in
          let reply_anchor := lit "msg-" ++ replace_char 46 (lit "-") reply_to in
          [tpl "in reply to <a href=`#" ++ reply_anchor ++ tpl "`>"
           ++ html_escape reply_to ++ lit "</a>"]
        else []) in
  let thread_ref_html :=
    if bool_decide (thread_ref_parts = []) then []
    else tpl "<div class=`msg-thread-ref`>" ++ str_join (lit " ") thread_ref_parts
         ++ lit "</div>" in
  let body_sections :=
    (if negb (is_empty thread_ref_html) then [thread_ref_html] else [])
    ++ [if negb (is_empty content_html)
        then tpl "<div class=`message-content`>" ++ content_html ++ lit "</div>"
        else tpl "<div class=`message-content`></div>"]
    ++ (if negb (is_empty profile_html) then [profile_html] else [])
    ++ (if negb (is_empty attachments_html) then [attachments_html] else []) in
  mret (tpl "<article class=`message` id=`" ++ anchor ++ tpl "`>"
        ++ header_html
        ++ tpl "<div class=`message-body`>" ++ concat body_sections ++ lit "</div>"
        ++ lit "</article>").

(** [render_messages]: the loop runs over [enumerate(messages, start=1)]. *)
Fixpoint render_message_loop (profile_lookup : gmap pystr (gmap pystr pystr))
    (store_files : gmap pystr pybytes) (export_files : pystr)
    (total : nat) (index : nat) (messages : list message) : io (list pystr) :=
  match messages with
  | [] => mret []
  | msg :: rest =>
      article ← render_message profile_lookup store_files export_files total index msg;
      articles ← render_message_loop profile_lookup store_files export_files
                   total (S index) rest;
      mret (article :: articles)
  end.

Definition render_messages (messages : list message)
    (profile_lookup : gmap pystr (gmap pystr pystr))
    (store_files : gmap pystr pybytes) (export_files : pystr) : io pystr :=
  let total := length messages in
  if bool_decide (total = O)
  then mret (tpl "<p class=`notice`>No messages were captured for this thread.</p>")
  else
    rendered ← render_message_loop profile_lookup store_files export_files
                 total 1%nat messages;
    mret (str_join [10] rendered).

(** *** The export driver *)

(** [processed_messages] of a record: [list(data.get("messages") or [])]. *)
Definition processed_messages (data : thread_record) : list message :=
  default [] (rec_messages data).

(** The values the first loop of [main] derives from the record [data] of
    the file [stem ++ ".yaml"], as the dictionary appended to [threads];
    [None] for a record without messages, which the loop skips. *)
Definition thread_of_record (stem : pystr) (data : thread_record) : option thread :=
  let messages := processed_messages data in
  match messages with
  | [] => None
  | first_message :: _ =>
      let first_date := parse_date (msg_date first_message) in
      let last_date := parse_date (msg_date (List.last messages first_message)) in
      let md := default (mk_metadata None None None) (rec_metadata data) in
      let thread_id := or_default (thead_id data) stem in
      let title := or_default (md_topic md) (lit "Thread " ++ thread_id) in
      let folder_name := or_default (md_folder md) (lit "Uncategorised") in
      let views := md_views md in
      let folder_slug := slugify folder_name in
      let snippet := build_snippet (msg_content first_message) 180 in
      let first_author := msg_from first_message in
      let message_count := Z.of_nat (length messages) in
      Some (mk_thread thread_id title folder_name folder_slug views message_count
              first_date last_date first_author snippet)
  end.

(** The body of the first loop of [main]: [None] is the [continue] of a
    record without messages; otherwise the messages are rendered, the thread
    page is written and the dictionary of the thread is returned. *)
Definition export_thread (forum_title : pystr)
    (profile_lookup : gmap pystr (gmap pystr pystr))
    (files_dir : gmap pystr pybytes) (stem : pystr) (data : thread_record)
  : io (option thread) :=
  match thread_of_record stem data with
  | None => mret None
  | Some t =>
      rendered_messages ← render_messages (processed_messages data) profile_lookup
                            files_dir (lit "files");
      let thread_html := render_thread_html forum_title t rendered_messages in
      write_text (lit "threads/" ++ t_id t ++ lit ".html") thread_html;;
      mret (Some t)
  end.

(** The first loop of [main]: the list [threads]. *)
Fixpoint export_threads (forum_title : pystr)
    (profile_lookup : gmap pystr (gmap pystr pystr))
    (files_dir : gmap pystr pybytes) (entries : list (pystr * thread_record))
  : io (list thread) :=
  match entries with
  | [] => mret []
  | (stem, data) :: rest =>
      r ← export_thread forum_title profile_lookup files_dir stem data;
      threads ← export_threads forum_title profile_lookup files_dir rest;
      mret (match r with Some t => t :: threads | None => threads end)
  end.

(** [sorted(threads_dir.glob("*.yaml"))]: by file name. *)
Definition sorted_thread_files (entries : list (pystr * thread_record))
  : list (pystr * thread_record) :=
  sort_by (fun a b => str_leb (a.1 ++ lit ".yaml") (b.1 ++ lit ".yaml")) entries.

(** One pass of the second loop of [main]: [folders] is the dictionary, in
    insertion order; [setdefault] finds the bucket of the name or appends a
    new one, and the thread is appended to the bucket. *)
Fixpoint add_to_bucket (folder_name folder_slug : pystr) (t : thread)
    (folders : list folder) : list folder :=
  match folders with
  | [] => [mk_folder folder_name folder_slug [t]]
  | f :: rest =>
      if str_eqb (f_name f) folder_name
      then mk_folder (f_name f) (f_slug f) (f_threads f ++ [t]) :: rest
      else f :: add_to_bucket folder_name folder_slug t rest
  end.

(** [folder_name] and [folder_slug] of the second loop. *)
Definition folder_name_of (t : thread) : pystr :=
  if is_empty (t_folder t) then lit "Uncategorised" else t_folder t.

Definition folder_slug_of (t : thread) : pystr :=
  if is_empty (t_folder_slug t) then slugify (folder_name_of t) else t_folder_slug t.

Definition add_thread (folders : list folder) (t : thread) : list folder :=
  add_to_bucket (folder_name_of t) (folder_slug_of t) t folders.

Definition assemble_folders (threads : list thread) : list folder :=
  foldl add_thread [] threads.

(** The sort key of the index preview: [(last_date or datetime.min, id)]. *)
Definition preview_key (t : thread) : datetime * pystr :=
  (default datetime_min (t_last_date t), t_id t).

(** [folder["threads"].sort(key=..., reverse=True)]. *)
Definition preview_order (threads : list thread) : list thread :=
  sort_by_reverse (fun a b => key_leb (preview_key a) (preview_key b)) threads.

Definition sort_folder_threads (f : folder) : folder :=
  mk_folder (f_name f) (f_slug f) (preview_order (f_threads f)).

(** [sorted(folders.values(), key=lambda item: item["name"].lower())]. *)
Definition folder_sections_of (folders : list folder) : list folder :=
  sort_by (fun a b => str_leb (str_lower (f_name a)) (str_lower (f_name b))) folders.

(** The last loop of [main]: one page per folder section, written to
    [folders/<slug>.html]; [clock k] is the [k]-th reading of the clock. *)
Definition folder_page_path (f : folder) : pystr :=
  lit "folders/" ++ f_slug f ++ lit ".html".

Fixpoint write_folder_pages (forum_title : pystr) (clock : nat -> datetime)
    (k : nat) (sections : list folder) : io unit :=
  match sections with
  | [] => mret tt
  | f :: rest =>
      let folder_page_html := render_folder_html forum_title f (clock k) in
      write_text (folder_page_path f) folder_page_html;;
      write_folder_pages forum_title clock (S k) rest
  end.

(** [main], for the arguments [--forum-title] and the store [st]; the
    export directory is the state. *)
Definition main (forum_title : pystr) (st : store) (clock : nat -> datetime)
  : io unit :=
  match store_threads st with
  | None => raise SystemExit
  | Some entries =>
      write_text (lit "assets/style.css") STYLE_CSS;;
      let profile_lookup := build_profile_lookup (store_profiles st) in
      threads ← export_threads forum_title profile_lookup (store_files st)
                  (sorted_thread_files entries);
      let folders := map sort_folder_threads (assemble_folders threads) in
      let folder_sections := folder_sections_of folders in
      let index_html :=
        render_index_html forum_title
          (lit "Offline snapshot generated from Delphi Forums scrape.")
          folder_sections (clock O) in
      write_folder_pages forum_title clock 1%nat folder_sections;;
      write_text (lit "index.html") index_html
  end.

(** *** The hashed name as the specification words it *)

(** One dot followed by one to five characters of the class. *)
Definition is_extension (e : pystr) : Prop :=
  exists cs, e = 46 :: cs /\ (1 <= length cs <= 5)%nat
             /\ Forall (fun c => ext_char c = true) cs.

(** The split of the specification: the extension is a suffix of the
    text. This definition follows the specification, [hash_for_url] the
    source. *)
Definition spec_extension (u : pystr) : pystr * pystr :=
  match last_index 46 u with
  | Some i =>
      let e := drop i u in
      if (2 <=? length e)%nat && (length e <=? 6)%nat
         && forallb ext_char (drop 1 e)
      then (take i u, e) else (u, [])
  | None => (u, [])
  end.

Definition spec_hash_for_url (u : pystr) : option pystr :=
  let '(file_part, ext) := spec_extension u in
  match utf8_encode file_part with
  | Some data => Some (sha1_hexdigest data ++ ext)
  | None => None
  end.

(** The split of the specification as a relation: the extension ends the
    text; or no extension ends it, and then [p] is [u] and [e] is empty. *)
Definition suffix_split (u p e : pystr) : Prop :=
  (u = p ++ e /\ is_extension e)
  \/ (p = u /\ e = [] /\ forall p' e', u = p' ++ e' -> ~ is_extension e').

(** What [HASH_EXT_RE] leaves after the extension: nothing, or the newline
    that ends the text when the extension has its full five characters. *)
Definition ext_tail (e t : pystr) : Prop :=
  t = [] \/ (t = [10] /\ length e = 6%nat).

(** The split [hash_for_url] makes: [u] is [p ++ e ++ t] for an extension
    [e] and a tail [t]; or there is no such way to cut [u], and then [p] is
    [u] and [e] is empty. *)
Definition ext_split (u p e : pystr) : Prop :=
  (exists t, u = p ++ e ++ t /\ is_extension e /\ ext_tail e t)
  \/ (p = u /\ e = []
      /\ forall p' e' t, u = p' ++ e' ++ t -> is_extension e' -> ~ ext_tail e' t).

(** The pair [(file_part, ext)] that [hash_for_url] works out. *)
Definition code_split (u : pystr) : pystr * pystr :=
  match hash_ext_search u with
  | Some (start, n) => (slice_to start u, take n (slice_from start u))
  | None => (u, [])
  end.

(** *** The two orders of a folder's threads, as relations *)

(** [a < b] on datetimes. *)
Definition dt_lt (a b : datetime) : Prop := dt_leb a b = true /\ a <> b.

(** The order of the folder page: ascending by first date, a thread
    without first date counting as dated [datetime.max]; equal dates by
    ascending identifier. *)
Definition listing_le (a b : thread) : Prop :=
  let da := default datetime_max (t_first_date a) in
  let db := default datetime_max (t_first_date b) in
  dt_lt da db \/ (da = db /\ str_leb (t_id a) (t_id b) = true).

(** The order of the index preview: descending by last date, a thread
    without last date counting as dated [datetime.min]; equal dates by
    descending identifier. *)
Definition preview_ge (a b : thread) : Prop :=
  let la := default datetime_min (t_last_date a) in
  let lb := default datetime_min (t_last_date b) in
  dt_lt lb la \/ (la = lb /\ str_leb (t_id b) (t_id a) = true).

(** [m] occurs in [l] as a run of consecutive characters. *)
Definition occurs_in (m l : pystr) : Prop := exists a b, l = a ++ m ++ b.

(** *** The shape of a snippet *)

Definition head_nonspace (s : pystr) : Prop :=
  match s with
  | [] => True
  | c :: _ => is_space c = false
  end.

(** Every whitespace character is a space, and no whitespace follows it. *)
Fixpoint spaced_ok (s : pystr) : Prop :=
  match s with
  | [] => True
  | c :: r => (is_space c = true -> c = 32 /\ head_nonspace r) /\ spaced_ok r
  end.

(** The same, by position. *)
Definition single_spaced (s : pystr) : Prop :=
  forall i c, s !! i = Some c -> is_space c = true ->
    c = 32 /\ forall d, s !! S i = Some d -> is_space d = false.

(** [s] neither starts nor ends with whitespace. *)
Definition trimmed (s : pystr) : Prop :=
  (forall c, head s = Some c -> is_space c = false)
  /\ (forall c, last s = Some c -> is_space c = false).

(** *** The plain text of a body, step by step *)

(** A markup tag at the head of [s]: a ['<'], one or more characters other
    than ['>'], and the ['>'] that follows them. *)
Definition starts_with_tag (s : pystr) : Prop :=
  exists body rest, body <> [] /\ (62 ∉ body) /\ s = 60 :: body ++ 62 :: rest.

(** [out] is [s] with its markup tags removed: reading from the left, every
    tag gives way to one space and every other character is kept. *)
Inductive tags_removed : pystr -> pystr -> Prop :=
| tags_removed_nil : tags_removed [] []
| tags_removed_tag (body rest out : pystr) :
    body <> [] -> 62 ∉ body -> tags_removed rest out ->
    tags_removed (60 :: body ++ 62 :: rest) (32 :: out)
| tags_removed_char (c : Z) (rest out : pystr) :
    ~ starts_with_tag (c :: rest) -> tags_removed rest out ->
    tags_removed (c :: rest) (c :: out).

(** [out] is [s] with its whitespace collapsed: every maximal run of
    whitespace gives way to one space and every other character is kept. *)
Inductive spaces_collapsed : pystr -> pystr -> Prop :=
| spaces_collapsed_nil : spaces_collapsed [] []
| spaces_collapsed_run (run rest out : pystr) :
    run <> [] -> Forall (fun c => is_space c = true) run -> head_nonspace rest ->
    spaces_collapsed rest out ->
    spaces_collapsed (run ++ rest) (32 :: out)
| spaces_collapsed_char (c : Z) (rest out : pystr) :
    is_space c = false -> spaces_collapsed rest out ->
    spaces_collapsed (c :: rest) (c :: out).

(** [plain] is [s] without the whitespace at its two ends. *)
Definition trimmed_of (s plain : pystr) : Prop :=
  exists before after,
    s = before ++ plain ++ after
    /\ Forall (fun c => is_space c = true) before
    /\ Forall (fun c => is_space c = true) after
    /\ trimmed plain.

(** The place where a text longer than [n] is cut: at the last whitespace
    among its first [n] characters, or after [n] characters when these hold
    no whitespace. *)
Definition cut_at (plain : pystr) (n cut : nat) : Prop :=
  ((cut < n)%nat /\ plain !! cut = Some 32
   /\ forall j c, (cut < j < n)%nat -> plain !! j = Some c -> is_space c = false)
  \/ (cut = n
      /\ forall j c, (j < n)%nat -> plain !! j = Some c -> is_space c = false).

(** *** Records without messages *)

(** A record of the store has messages. *)
Definition has_messages (entry : pystr * thread_record) : bool :=
  negb (bool_decide (processed_messages entry.2 = [])).

(** The store without the thread records that have no message. *)
Definition drop_empty_records (st : store) : store :=
  mk_store (List.filter has_messages <$> store_threads st)
           (store_profiles st) (store_files st).

(** The dictionaries of the records that have messages, in their order. *)
Definition threads_of_records (entries : list (pystr * thread_record)) : list thread :=
  omap (fun entry => thread_of_record entry.1 entry.2) entries.

(** [folder_sections] of [main] for the thread records [entries]. *)
Definition sections_of_records (entries : list (pystr * thread_record)) : list folder :=
  folder_sections_of
    (map sort_folder_threads
       (assemble_folders (threads_of_records (sorted_thread_files entries)))).

(** The threads [main] builds name their folder and carry its slug. *)
Definition built_thread (t : thread) : Prop :=
  folder_name_of t = t_folder t /\ folder_slug_of t = slugify (t_folder t).

(** The buckets of the folder dictionary: one per name, each with the slug
    of its name and the threads of that name only. *)
Definition buckets_ok (folders : list folder) : Prop :=
  NoDup (map f_name folders)
  /\ forall f, f ∈ folders ->
       f_slug f = slugify (f_name f)
       /\ forall t, t ∈ f_threads f -> t_folder t = f_name f.

(** *** Proof tools *)

(** Drops the library tables a goal does not mention, so that a decision
    procedure does not pick them up. *)
Ltac forget_tables :=
  try clear STYLE_CSS; try clear strptime; try clear html_unescape;
  try clear lower_nonascii.

(** *** The shape of a slug *)

(** Characters of the class [p] come one at a time. *)
Fixpoint runs_single (p : Z -> bool) (s : pystr) : Prop :=
  match s with
  | [] => True
  | c :: r =>
      (p c = true -> match r with d :: _ => p d = false | [] => True end)
      /\ runs_single p r
  end.

(** A text that can stand in a file name and in a URL: lower-case ASCII
    letters, digits and single hyphens, with no hyphen at either end. *)
Definition url_safe_slug (s : pystr) : Prop :=
  s <> []
  /\ Forall (fun c => is_slug_char c = true \/ c = 45) s
  /\ head s <> Some 45 /\ last s <> Some 45
  /\ ~ occurs_in [45; 45] s.

(** *** Hashed names *)

(** A lower-case hexadecimal digit. *)
Definition is_hex_digit (c : Z) : bool :=
  ((48 <=? c) && (c <=? 57)) || ((97 <=? c) && (c <=? 102)).

(** *** The effect of a run on the export tree, as a log *)

(** The two ways the exporter changes the tree: [write_text] replaces the
    file, the asset copier writes the file only when there is none. *)
Inductive tree_op : Type :=
| Write (path : pystr) (data : pybytes)
| Copy (path : pystr) (data : pybytes).

Definition op_path (o : tree_op) : pystr :=
  match o with
  | Write path _ | Copy path _ => path
  end.

Definition run_op (tr : tree) (o : tree_op) : tree :=
  match o with
  | Write path data => <[path := data]> tr
  | Copy path data =>
      match tr !! path with
      | Some _ => tr
      | None => <[path := data]> tr
      end
  end.

Definition run_ops (ops : list tree_op) (tr : tree) : tree := foldl run_op tr ops.

(** What one operation does to the file at [k]. *)
Definition key_step (k : pystr) (x : option pybytes) (o : tree_op)
  : option pybytes :=
  match o with
  | Write path data => if bool_decide (path = k) then Some data else x
  | Copy path data =>
      if bool_decide (path = k)
      then match x with Some _ => x | None => Some data end
      else x
  end.

(** [m] returns [r] and does the operations [ops], whatever the tree. *)
Definition logged {A : Type} (m : io A) (r : outcome A) (ops : list tree_op)
  : Prop :=
  forall tr, m tr = (r, run_ops ops tr).

(** [m] has a log, every operation of the log satisfies [P], a value [m]
    returns satisfies [Q], and an exception [m] raises satisfies [E]. *)
Definition logs {A : Type} (P : tree_op -> Prop) (E : exn -> Prop)
    (Q : A -> Prop) (m : io A) : Prop :=
  exists r ops,
    logged m r ops /\ Forall P ops
    /\ match r with Done a => Q a | Raised e => E e end.

(** A copy of a file of the store into the directory [export_files]. *)
Definition asset_copy (store_files : gmap pystr pybytes) (export_files : pystr)
    (o : tree_op) : Prop :=
  exists h data,
    o = Copy (export_files ++ lit "/" ++ h) data /\ store_files !! h = Some data.

(** The paths of the pages and of the stylesheet. *)
Definition page_path (path : pystr) : Prop :=
  path = lit "assets/style.css" \/ path = lit "index.html"
  \/ (exists id, path = lit "threads/" ++ id ++ lit ".html")
  \/ (exists slug, url_safe_slug slug /\ path = lit "folders/" ++ slug ++ lit ".html").

(** An operation of a run of [main]. *)
Definition export_op (store_files : gmap pystr pybytes) (o : tree_op) : Prop :=
  asset_copy store_files (lit "files") o
  \/ exists path data, o = Write path data /\ page_path path.

(** Some attachment of the messages has no [href]. *)
Definition lacks_href (messages : list message) : Prop :=
  exists msg a, msg ∈ messages /\ a ∈ msg_attachments msg /\ att_href a = None.

(** The exceptions of [render_messages] and what brings them about. *)
Definition messages_failure (messages : list message) (e : exn) : Prop :=
  e = UnicodeEncodeError \/ (e = AttributeError /\ lacks_href messages).

(** The exceptions of a run of [main] and what brings them about. *)
Definition main_failure (st : store) (e : exn) : Prop :=
  match e with
  | SystemExit => store_threads st = None
  | AttributeError =>
      exists entries stem data,
        store_threads st = Some entries /\ (stem, data) ∈ entries
        /\ lacks_href (processed_messages data)
  | UnicodeEncodeError => True
  end.

(** *** Profiles *)

(** The labels of a profile that [describe_profile] prints. *)
Definition profile_labels : list pystr :=
  map lit ["Member Since"; "Last visit"; "Location"; "Interests"]%string.

(** *** Stores every text of which has a UTF-8 encoding *)

Definition encodable (s : pystr) : Prop :=
  Forall (fun c => is_Some (utf8_char c)) s.

Definition encodable_opt (x : option pystr) : Prop :=
  match x with
  | Some s => encodable s
  | None => True
  end.

Definition clean_scalar (v : option yaml_scalar) : Prop :=
  match v with
  | Some (YStr s) => encodable s
  | _ => True
  end.

(** An attachment that has an [href]. *)
Definition clean_attachment (a : attachment) : Prop :=
  (exists href, att_href a = Some href /\ encodable href)
  /\ encodable_opt (att_name a) /\ encodable_opt (att_size a).

Definition clean_message (m : message) : Prop :=
  encodable_opt (msg_id m) /\ encodable_opt (msg_from m)
  /\ encodable_opt (msg_to m) /\ encodable_opt (msg_from_status m)
  /\ encodable_opt (msg_to_status m) /\ encodable_opt (msg_date m)
  /\ encodable_opt (msg_content m) /\ Forall encodable (msg_images m)
  /\ Forall clean_attachment (msg_attachments m)
  /\ encodable_opt (msg_in_reply_to m).

Definition clean_record (entry : pystr * thread_record) : Prop :=
  encodable entry.1 /\ encodable_opt (thead_id entry.2)
  /\ match rec_metadata entry.2 with
     | Some md =>
         encodable_opt (md_topic md) /\ encodable_opt (md_folder md)
         /\ clean_scalar (md_views md)
     | None => True
     end
  /\ Forall clean_message (processed_messages entry.2).

Definition clean_profiles (profiles : gmap pystr (gmap pystr pystr)) : Prop :=
  forall key profile label value,
    profiles !! key = Some profile -> profile !! label = Some value ->
    encodable value.

(** A store with a threads directory, texts that can be encoded, and an
    [href] in every attachment. *)
Definition clean_store (st : store) : Prop :=
  exists entries,
    store_threads st = Some entries /\ Forall clean_record entries
    /\ clean_profiles (store_profiles st).

Definition clean_thread (t : thread) : Prop :=
  encodable (t_id t) /\ encodable (t_title t) /\ encodable (t_folder t)
  /\ encodable (t_folder_slug t) /\ clean_scalar (t_views t)
  /\ encodable_opt (t_first_author t) /\ encodable (t_snippet t).

Definition clean_folder (f : folder) : Prop :=
  encodable (f_name f) /\ encodable (f_slug f) /\ Forall clean_thread (f_threads f).

(** *** The binaries of a message *)

(** The URLs a message refers to: the [href] of its attachments and its
    images. *)
Definition message_urls (msg : message) : list pystr :=
  omap att_href (msg_attachments msg) ++ msg_images msg.

(** The binary of [url] was captured under the name [h]. *)
Definition captured (store_files : gmap pystr pybytes) (url h : pystr) : Prop :=
  url <> [] /\ hash_for_url url = Some h /\ is_Some (store_files !! h).

(** *** Names of files *)

(** A text that names a file of a directory: it holds no ['/'] and no NUL
    character, so that joining it to the directory gives the path of a file
    of that directory. *)
Definition plain_name (s : pystr) : Prop := (47 ∉ s) /\ (0 ∉ s).

(** The identifier of every thread the run lists is a plain name. *)
Definition plain_thread_ids (st : store) : Prop :=
  forall entries stem data t,
    store_threads st = Some entries -> (stem, data) ∈ entries ->
    thread_of_record stem data = Some t -> plain_name (t_id t).

(** A file name of at most 255 bytes. *)
Definition fits_file_name (s : pystr) : Prop :=
  exists bytes, utf8_encode s = Some bytes /\ (length bytes <= 255)%nat.

(** The names of the thread page and of the folder page of every thread the
    run lists are short enough for a file name. *)
Definition page_names_fit (st : store) : Prop :=
  forall entries stem data t,
    store_threads st = Some entries -> (stem, data) ∈ entries ->
    thread_of_record stem data = Some t ->
    fits_file_name (t_id t ++ lit ".html")
    /\ fits_file_name (t_folder_slug t ++ lit ".html").

(** The paths of the pages and of the stylesheet of a run whose thread
    identifiers are plain names. *)
Definition flat_page_path (path : pystr) : Prop :=
  path = lit "assets/style.css" \/ path = lit "index.html"
  \/ (exists id, plain_name id /\ path = lit "threads/" ++ id ++ lit ".html")
  \/ (exists slug, url_safe_slug slug /\ path = lit "folders/" ++ slug ++ lit ".html").

(** An operation of such a run. *)
Definition flat_export_op (store_files : gmap pystr pybytes) (o : tree_op) : Prop :=
  asset_copy store_files (lit "files") o
  \/ exists path data, o = Write path data /\ flat_page_path path.

(** ** Properties of the text helpers *)

Lemma str_startswith_app (p s : pystr) : str_startswith p (p ++ s) = true.
Proof.
  induction p as [|a p IH]; simpl; [reflexivity|].
  rewrite Z.eqb_refl. exact IH.
Qed.

Lemma str_startswith_spec (p s : pystr) :
  str_startswith p s = true <-> exists r, s = p ++ r.
Proof.
  split.
  - revert s. induction p as [|a p IH]; intros s H.
    + exists s. reflexivity.
    + destruct s as [|b s]; [discriminate|]. simpl in H.
      apply andb_prop in H as [Hab Hps]. apply Z.eqb_eq in Hab. subst b.
      destruct (IH _ Hps) as [r ->]. exists r. reflexivity.
  - intros [r ->]. apply str_startswith_app.
Qed.

Lemma str_endswith_spec (p s : pystr) :
  str_endswith p s = true <-> exists r, s = r ++ p.
Proof.
  unfold str_endswith. rewrite str_startswith_spec. split.
  - intros [r Hr]. exists (rev r).
    rewrite <- (rev_involutive s), Hr, rev_app_distr, rev_involutive.
    reflexivity.
  - intros [r ->]. exists (rev r). apply rev_app_distr.
Qed.

Lemma lstrip_by_head (p : Z -> bool) (c : Z) (s : pystr) :
  p c = false -> lstrip_by p (c :: s) = c :: s.
Proof. intros H. simpl. rewrite H. reflexivity. Qed.

Lemma rstrip_by_last (p : Z -> bool) (s : pystr) (c : Z) :
  p c = false -> rstrip_by p (s ++ [c]) = s ++ [c].
Proof.
  intros H. unfold rstrip_by. rewrite rev_app_distr. simpl. rewrite H.
  simpl. rewrite rev_involutive. reflexivity.
Qed.

Lemma rstrip_by_nil (p : Z -> bool) : rstrip_by p [] = [].
Proof. reflexivity. Qed.

Lemma lstrip_by_suffix (p : Z -> bool) (s : pystr) :
  exists pre, s = pre ++ lstrip_by p s /\ forallb p pre = true.
Proof.
  induction s as [|c s [pre [IH1 IH2]]].
  - exists []. split; reflexivity.
  - simpl. destruct (p c) eqn:Hc.
    + exists (c :: pre). split; [simpl; congruence|].
      simpl. rewrite Hc. exact IH2.
    + exists []. split; reflexivity.
Qed.

Lemma lstrip_by_not_head (p : Z -> bool) (s : pystr) :
  match lstrip_by p s with
  | [] => True
  | c :: _ => p c = false
  end.
Proof.
  induction s as [|c s IH]; simpl; [exact I|].
  destruct (p c) eqn:Hc; [exact IH|exact Hc].
Qed.

Lemma rstrip_by_prefix (p : Z -> bool) (s : pystr) :
  exists suf, s = rstrip_by p s ++ suf /\ forallb p suf = true.
Proof.
  unfold rstrip_by.
  destruct (lstrip_by_suffix p (rev s)) as [pre [H1 H2]].
  exists (rev pre). split.
  - rewrite <- rev_app_distr, <- H1, rev_involutive. reflexivity.
  - rewrite forallb_forall in *. intros x Hx. apply H2.
    apply in_rev. exact Hx.
Qed.

Lemma rstrip_by_not_last (p : Z -> bool) (s r : pystr) (c : Z) :
  rstrip_by p s = r ++ [c] -> p c = false.
Proof.
  unfold rstrip_by. intros H.
  pose proof (lstrip_by_not_head p (rev s)) as Hh.
  apply (f_equal (@rev Z)) in H.
  rewrite rev_involutive, rev_app_distr in H. simpl in H.
  rewrite H in Hh. exact Hh.
Qed.

Lemma rstrip_by_length (p : Z -> bool) (s : pystr) :
  (length (rstrip_by p s) <= length s)%nat.
Proof.
  destruct (rstrip_by_prefix p s) as [suf [H _]].
  rewrite H at 2. rewrite length_app. lia.
Qed.

(** A text that does not end with a character of the set is left alone. *)
Lemma rstrip_by_id (p : Z -> bool) (s : pystr) :
  match rev s with [] => True | c :: _ => p c = false end ->
  rstrip_by p s = s.
Proof.
  unfold rstrip_by. intros H. destruct (rev s) as [|c r] eqn:E.
  - simpl. apply (f_equal (@rev Z)) in E. rewrite rev_involutive in E.
    simpl in E. congruence.
  - simpl. rewrite H. rewrite <- E. apply rev_involutive.
Qed.

Lemma strip_by_ends (p : Z -> bool) (s : pystr) :
  match s with [] => True | c :: _ => p c = false end ->
  match rev s with [] => True | c :: _ => p c = false end ->
  strip_by p s = s.
Proof.
  intros Hh Hl. unfold strip_by.
  assert (lstrip_by p s = s) as ->.
  { destruct s as [|c s]; [reflexivity|]. apply lstrip_by_head. exact Hh. }
  apply rstrip_by_id. exact Hl.
Qed.

Lemma last_index_Some (c : Z) (s : pystr) (i : nat) :
  last_index c s = Some i ->
  s !! i = Some c /\ forall j, (i < j)%nat -> s !! j <> Some c.
Proof.
  revert i. induction s as [|x s IH]; intros i H; [discriminate|].
  cbn [last_index] in H. destruct (last_index c s) as [k|] eqn:Hk.
  - injection H as <-. destruct (IH _ eq_refl) as [H1 H2]. split; [exact H1|].
    intros [|j] Hj; [lia|]. apply H2. lia.
  - destruct (Z.eqb_spec x c) as [->|Hne]; [|discriminate]. injection H as <-.
    split; [reflexivity|]. intros [|j] Hj; [lia|]. cbn.
    clear -Hk. revert j. induction s as [|y s IHs]; intros j; [destruct j; discriminate|].
    cbn [last_index] in Hk. destruct (last_index c s) eqn:E; [discriminate|].
    destruct (Z.eqb_spec y c); [discriminate|].
    destruct j as [|j]; cbn; [congruence|]. apply IHs. reflexivity.
Qed.

Lemma last_index_None (c : Z) (s : pystr) :
  last_index c s = None -> forall j, s !! j <> Some c.
Proof.
  induction s as [|y s IHs]; intros Hk j; [destruct j; discriminate|].
  cbn [last_index] in Hk. destruct (last_index c s) eqn:E; [discriminate|].
  destruct (Z.eqb_spec y c); [discriminate|].
  destruct j as [|j]; cbn; [congruence|]. apply IHs. reflexivity.
Qed.

(** ** The content addressor: the extension pattern *)

Lemma at_dollar_spec (t : pystr) :
  at_dollar t = true <-> t = [] \/ t = [10].
Proof.
  destruct t as [|c [|d t]]; simpl.
  - split; [left; reflexivity|reflexivity].
  - rewrite Z.eqb_eq. split.
    + intros ->. right. reflexivity.
    + intros [H|H]; [discriminate|congruence].
  - split; [discriminate|]. intros [H|H]; discriminate.
Qed.

(** A successful greedy run: its characters are of the class, [$] holds
    after it, and a run that stops before a final newline is a full one. *)
Lemma ext_run_Some (k : nat) (s : pystr) (n : nat) :
  ext_run k s = Some n ->
  (1 <= n <= k)%nat /\ length (take n s) = n
  /\ Forall (fun c => ext_char c = true) (take n s)
  /\ at_dollar (drop n s) = true
  /\ (drop n s = [10] -> n = k).
Proof.
  revert s n. induction k as [|k IH]; intros s n H; [discriminate|].
  destruct s as [|c r]; [discriminate|]. simpl in H.
  destruct (ext_char c) eqn:Hc; [|discriminate].
  destruct (ext_run k r) as [m|] eqn:Hr.
  - injection H as <-. destruct (IH _ _ Hr) as (Hm & Hl & Hf & Hd & Hfull).
    refine (conj _ (conj _ (conj _ (conj _ _)))); simpl.
    + lia.
    + congruence.
    + constructor; assumption.
    + exact Hd.
    + intros E. f_equal. apply Hfull. exact E.
  - destruct (at_dollar r) eqn:Hd; [|discriminate]. injection H as <-.
    refine (conj _ (conj _ (conj _ (conj _ _)))); simpl.
    + lia.
    + reflexivity.
    + constructor; [exact Hc|constructor].
    + exact Hd.
    + intros E. change (r = [10]) in E. subst r.
      destruct k as [|k]; [reflexivity|].
      assert (ext_run (S k) [10] = Some 1%nat) as H10
        by (destruct k; reflexivity).
      congruence.
Qed.

(** A failed run: no length from one to [k] fits. *)
Lemma ext_run_None (k : nat) (s : pystr) :
  ext_run k s = None ->
  forall n, (1 <= n <= k)%nat -> length (take n s) = n ->
            Forall (fun c => ext_char c = true) (take n s) ->
            at_dollar (drop n s) = false.
Proof.
  revert s. induction k as [|k IH]; intros s H n Hn Hl Hf; [lia|].
  destruct s as [|c r]; [destruct n; simpl in Hl; lia|].
  destruct n as [|n]; [lia|]. simpl in *.
  inversion Hf as [|? ? Hc Hf']; subst.
  rewrite Hc in H.
  destruct (ext_run k r) as [m|] eqn:Hr; [discriminate|].
  destruct (at_dollar r) eqn:Hd; [discriminate|].
  destruct n as [|n].
  - rewrite drop_0. exact Hd.
  - apply (IH r Hr); [lia|congruence|exact Hf'].
Qed.

Lemma hash_ext_at_Some (s : pystr) (n : nat) :
  hash_ext_at s = Some n ->
  is_extension (take n s) /\ ext_tail (take n s) (drop n s).
Proof.
  destruct s as [|c r]; [discriminate|]. unfold hash_ext_at.
  destruct (c =? 46) eqn:Hc; [|discriminate]. apply Z.eqb_eq in Hc. subst c.
  destruct (ext_run 5 r) as [m|] eqn:Hr; [|discriminate].
  intros H. injection H as <-.
  destruct (ext_run_Some _ _ _ Hr) as (Hm & Hl & Hf & Hd & Hfull).
  change (take (S m) (46 :: r)) with (46 :: take m r).
  change (drop (S m) (46 :: r)) with (drop m r).
  split.
  - exists (take m r). split; [reflexivity|]. split; [lia|exact Hf].
  - unfold ext_tail. apply at_dollar_spec in Hd as [Hd|Hd].
    + left. exact Hd.
    + right. split; [exact Hd|]. cbn [length]. rewrite Hl, (Hfull Hd). reflexivity.
Qed.

Lemma hash_ext_at_None (s e t : pystr) :
  hash_ext_at s = None -> s = e ++ t -> is_extension e -> ~ ext_tail e t.
Proof.
  intros H -> (cs & -> & Hlen & Hf) Ht.
  change ((46 :: cs) ++ t) with (46 :: (cs ++ t)) in H. unfold hash_ext_at in H.
  rewrite Z.eqb_refl in H.
  destruct (ext_run 5 (cs ++ t)) as [m|] eqn:Hr; [discriminate|].
  assert (Htake : take (length cs) (cs ++ t) = cs) by apply take_app_length.
  pose proof (ext_run_None _ _ Hr (length cs) Hlen) as Hnone.
  rewrite Htake, drop_app_length in Hnone.
  specialize (Hnone eq_refl Hf).
  assert (at_dollar t = true) as Hd.
  { apply at_dollar_spec. destruct Ht as [Ht|[Ht _]]; [left|right]; exact Ht. }
  congruence.
Qed.

(** [search] finds the leftmost position where the pattern matches. *)
Lemma hash_ext_search_Some (u : pystr) (i n : nat) :
  hash_ext_search u = Some (i, n) ->
  (i <= length u)%nat /\ hash_ext_at (drop i u) = Some n.
Proof.
  revert i n. induction u as [|c u IH]; intros i n H.
  - simpl in H. discriminate.
  - cbn [hash_ext_search] in H.
    destruct (hash_ext_at (c :: u)) as [m|] eqn:Hat.
    + injection H as <- <-. split; [simpl; lia|exact Hat].
    + destruct (hash_ext_search u) as [[j m]|] eqn:Hs; [|discriminate].
      injection H as <- <-. destruct (IH _ _ eq_refl) as [Hj Hm].
      split; [simpl; lia|exact Hm].
Qed.

Lemma hash_ext_search_None (u : pystr) :
  hash_ext_search u = None -> forall i, hash_ext_at (drop i u) = None.
Proof.
  induction u as [|c u IH]; intros H i.
  - rewrite drop_nil. reflexivity.
  - cbn [hash_ext_search] in H.
    destruct (hash_ext_at (c :: u)) as [m|] eqn:Hat; [discriminate|].
    destruct (hash_ext_search u) as [[j m]|] eqn:Hs; [discriminate|].
    destruct i as [|i]; [exact Hat|]. simpl. apply IH. reflexivity.
Qed.

(** The position of a dot that is followed by no other dot is determined. *)
Lemma last_dot_unique (p p' x x' : pystr) :
  p ++ 46 :: x = p' ++ 46 :: x' -> 46 ∉ x -> 46 ∉ x' -> p = p' /\ x = x'.
Proof.
  revert p'. induction p as [|a p IH]; intros [|b p'] H Hx Hx'; simpl in H.
  - injection H as ->. split; reflexivity.
  - injection H as <- ->. exfalso. apply Hx.
    apply elem_of_app. right. left.
  - injection H as -> <-. exfalso. apply Hx'.
    apply elem_of_app. right. left.
  - injection H as <- H. destruct (IH _ H Hx Hx') as [-> ->].
    split; reflexivity.
Qed.

Lemma extension_tail_no_dot (e t : pystr) :
  is_extension e -> ext_tail e t ->
  exists x, e ++ t = 46 :: x /\ 46 ∉ x.
Proof.
  intros (cs & -> & _ & Hf) Ht. exists (cs ++ t). split; [reflexivity|].
  intros Hin. apply elem_of_app in Hin as [Hin|Hin].
  - rewrite Forall_forall in Hf. specialize (Hf _ Hin). discriminate.
  - destruct Ht as [->|[-> _]].
    + inversion Hin.
    + apply list_elem_of_singleton in Hin. discriminate.
Qed.

(** The split of a text is determined by the text. *)
Lemma ext_split_unique (u p e p' e' : pystr) :
  ext_split u p e -> ext_split u p' e' -> p = p' /\ e = e'.
Proof.
  intros [(t & Hu & He & Ht)|(-> & -> & Hno)] [(t' & Hu' & He' & Ht')|(-> & -> & Hno')].
  - destruct (extension_tail_no_dot _ _ He Ht) as (x & Hx & Hnx).
    destruct (extension_tail_no_dot _ _ He' Ht') as (x' & Hx' & Hnx').
    rewrite Hx in Hu. rewrite Hx' in Hu'. rewrite Hu in Hu'.
    destruct (last_dot_unique _ _ _ _ Hu' Hnx Hnx') as [-> Hxx].
    split; [reflexivity|].
    assert (Het : e ++ t = e' ++ t') by congruence.
    destruct Ht as [->|[-> Hl]], Ht' as [->|[-> Hl']].
    + rewrite !app_nil_r in Het. exact Het.
    + rewrite app_nil_r in Het. destruct He as (cs & -> & Hlen & _).
      apply (f_equal length) in Het. rewrite length_app in Het.
      simpl in Het, Hl'. lia.
    + rewrite app_nil_r in Het. destruct He' as (cs & -> & Hlen & _).
      apply (f_equal length) in Het. rewrite length_app in Het.
      simpl in Het, Hl. lia.
    + apply app_inv_tail in Het. exact Het.
  - exfalso. exact (Hno' _ _ _ Hu He Ht).
  - exfalso. exact (Hno _ _ _ Hu' He' Ht').
  - split; reflexivity.
Qed.

Lemma code_split_ext_split (u : pystr) :
  ext_split u (code_split u).1 (code_split u).2.
Proof.
  unfold code_split. destruct (hash_ext_search u) as [[i n]|] eqn:Hs; simpl.
  - left. destruct (hash_ext_search_Some _ _ _ Hs) as [Hi Hat].
    destruct (hash_ext_at_Some _ _ Hat) as [He Ht].
    exists (drop n (drop i u)). unfold slice_to, slice_from.
    split; [|split; assumption].
    rewrite (take_drop n (drop i u)), take_drop. reflexivity.
  - right. split; [reflexivity|]. split; [reflexivity|].
    intros p' e' t Hu He.
    apply (hash_ext_at_None (drop (length p') u)); [|rewrite Hu, drop_app_length; reflexivity|exact He].
    apply hash_ext_search_None. exact Hs.
Qed.

Lemma hash_for_url_code_split (u : pystr) :
  hash_for_url u =
  (fun data => sha1_hexdigest data ++ (code_split u).2)
    <$> utf8_encode (code_split u).1.
Proof.
  unfold hash_for_url, code_split.
  destruct (hash_ext_search u) as [[i n]|]; simpl;
    match goal with |- context [utf8_encode ?x] => destruct (utf8_encode x) end;
    reflexivity.
Qed.

(** [spec_extension] computes the split of the specification. *)
Lemma spec_extension_suffix_split (u : pystr) :
  suffix_split u (spec_extension u).1 (spec_extension u).2.
Proof.
  unfold spec_extension, suffix_split.
  destruct (last_index 46 u) as [i|] eqn:Hi.
  - destruct (last_index_Some _ _ _ Hi) as [Hat Hlast].
    pose proof (drop_S _ _ _ Hat) as He. cbv zeta.
    destruct ((2 <=? length (drop i u))%nat && (length (drop i u) <=? 6)%nat
              && forallb ext_char (drop 1 (drop i u))) eqn:Hb; cbn [fst snd].
    + left. split; [symmetry; apply take_drop|].
      rewrite !andb_true_iff, !Nat.leb_le in Hb. destruct Hb as [[H2 H6] Hf].
      rewrite He in H2, H6, Hf |- *. cbn [length drop] in H2, H6, Hf.
      exists (drop (S i) u). split; [reflexivity|]. split; [lia|].
      apply Forall_forall. intros c Hc. apply list_elem_of_In in Hc.
      rewrite forallb_forall in Hf. exact (Hf c Hc).
    + right. split; [reflexivity|]. split; [reflexivity|].
      intros p' e' Hu (cs & -> & Hlen & Hf).
      assert (u !! length p' = Some 46) as Hdot
        by (rewrite Hu; apply list_lookup_middle; reflexivity).
      assert (i = length p') as ->.
      { destruct (Nat.lt_trichotomy i (length p')) as [Hlt|[Heq|Hgt]];
          [exfalso; exact (Hlast _ Hlt Hdot)|exact Heq|exfalso].
        rewrite Hu in Hat. rewrite lookup_app_r in Hat by lia.
        destruct (i - length p')%nat as [|k] eqn:Hk; [lia|]. cbn in Hat.
        rewrite Forall_forall in Hf.
        specialize (Hf 46 (list_elem_of_lookup_2 _ _ _ Hat)). discriminate. }
      rewrite Hu, drop_app_length in Hb. cbn [length drop] in Hb.
      assert (forallb ext_char cs = true) as Hall.
      { apply forallb_forall. intros c Hc. rewrite Forall_forall in Hf.
        apply Hf. apply list_elem_of_In. exact Hc. }
      rewrite drop_0, Hall, andb_true_r in Hb.
      apply andb_false_iff in Hb as [Hb|Hb]; apply Nat.leb_gt in Hb; lia.
  - right. split; [reflexivity|]. split; [reflexivity|].
    intros p' e' Hu (cs & -> & _).
    apply (last_index_None _ _ Hi (length p')).
    rewrite Hu. apply list_lookup_middle. reflexivity.
Qed.

(** The split of the source is the split of the specification on every
    text that does not end with a newline after an extension of five
    characters. *)
Lemma code_split_spec_extension (u : pystr) :
  (forall p e, u = p ++ e ++ [10] -> is_extension e -> length e <> 6%nat) ->
  code_split u = spec_extension u.
Proof.
  intros Hnl.
  assert (ext_split u (spec_extension u).1 (spec_extension u).2) as Hs.
  { destruct (spec_extension_suffix_split u) as [[Hu He]|(Hp & He & Hno)].
    - left. exists []. split; [rewrite app_nil_r; exact Hu|].
      split; [exact He|left; reflexivity].
    - right. split; [exact Hp|]. split; [exact He|].
      intros p' e' t Hu He' [->|[-> Hl]].
      + rewrite app_nil_r in Hu. exact (Hno _ _ Hu He').
      + exact (Hnl _ _ Hu He' Hl). }
  destruct (ext_split_unique _ _ _ _ _ (code_split_ext_split u) Hs) as [H1 H2].
  destruct (code_split u), (spec_extension u). cbn [fst snd] in H1, H2.
  congruence.
Qed.

Lemma hash_for_url_spec (u : pystr) :
  (forall p e, u = p ++ e ++ [10] -> is_extension e -> length e <> 6%nat) ->
  hash_for_url u = spec_hash_for_url u.
Proof.
  intros Hnl. rewrite hash_for_url_code_split. unfold spec_hash_for_url.
  rewrite (code_split_spec_extension u Hnl).
  destruct (spec_extension u) as [p e]. cbn [fst snd].
  destruct (utf8_encode p); reflexivity.
Qed.

(** C1 (as amended). For every URL [u] the hashed asset name is settled by
    one split of [u], which [u] determines: [u] is [p ++ e ++ t], where the
    extension [e] is one dot followed by one to five characters that are not
    dot, slash, [?], [&], [=] or [-], and the tail [t] is empty or, for an
    extension of the full five characters, the newline that ends [u]; when [u]
    cannot be cut so, [p] is [u] and [e] is empty. The name is the SHA-1 hex
    digest of the UTF-8 bytes of [p] followed by [e] (the tail is dropped),
    and the call raises when [p] has no UTF-8 encoding. The name is a function
    of [u] alone. On every [u] that does not end with a newline after an
    extension of five characters, the name is the one of the rule that takes
    the extension as a suffix of [u]. *)
Theorem hash_for_url_extension_rule (u : pystr) :
  (exists p e,
     ext_split u p e
     /\ (forall p' e', ext_split u p' e' -> p' = p /\ e' = e)
     /\ hash_for_url u = (fun data => sha1_hexdigest data ++ e) <$> utf8_encode p)
  /\ ((forall p e, u = p ++ e ++ [10] -> is_extension e -> length e <> 6%nat) ->
      hash_for_url u = spec_hash_for_url u).
Proof.
  split; [|apply hash_for_url_spec].
  exists (code_split u).1, (code_split u).2.
  split; [apply code_split_ext_split|]. split.
  - intros p' e' H.
    exact (ext_split_unique _ _ _ _ _ H (code_split_ext_split u)).
  - apply hash_for_url_code_split.
Qed.

(** ** The content addressor: resolution *)

Lemma ensure_local_asset_falsy (url : option pystr)
    (store_files : gmap pystr pybytes) (export_files : pystr) (tr : tree) :
  truthy url = false ->
  ensure_local_asset url store_files export_files tr = (Done None, tr).
Proof. intros H. unfold ensure_local_asset. rewrite H. reflexivity. Qed.

Lemma ensure_local_asset_missing (u h : pystr)
    (store_files : gmap pystr pybytes) (export_files : pystr) (tr : tree) :
  u <> [] -> hash_for_url u = Some h -> store_files !! h = None ->
  ensure_local_asset (Some u) store_files export_files tr = (Done None, tr).
Proof.
  intros Hu Hh Hs. unfold ensure_local_asset.
  destruct u as [|c u]; [congruence|].
  change (truthy (Some (c :: u))) with true.
  change (default [] (Some (c :: u))) with (c :: u).
  cbn [negb]. rewrite Hh, Hs. reflexivity.
Qed.

Lemma ensure_local_asset_found (u h data : pystr)
    (store_files : gmap pystr pybytes) (export_files : pystr) (tr : tree) :
  u <> [] -> hash_for_url u = Some h -> store_files !! h = Some data ->
  ensure_local_asset (Some u) store_files export_files tr =
  (Done (Some (lit "files/" ++ h)),
   match tr !! (export_files ++ lit "/" ++ h) with
   | Some _ => tr
   | None => <[export_files ++ lit "/" ++ h := data]> tr
   end).
Proof.
  intros Hu Hh Hs. unfold ensure_local_asset.
  destruct u as [|c u]; [congruence|].
  change (truthy (Some (c :: u))) with true.
  change (default [] (Some (c :: u))) with (c :: u).
  cbn [negb]. rewrite Hh, Hs.
  unfold exists_in_tree, get_tree, put_file, mbind, io_bind, mret, io_ret.
  destruct (tr !! (export_files ++ lit "/" ++ h)) as [old|] eqn:E.
  - rewrite bool_decide_eq_true_2 by eauto. reflexivity.
  - rewrite bool_decide_eq_false_2 by (intros [? ?]; discriminate).
    reflexivity.
Qed.

(** C2 (as amended). For every non-empty URL whose hashed file name [h] can
    be computed (the text to hash has a UTF-8 encoding): when the store holds
    no file [h], the operation returns [None], raises nothing and leaves the
    export tree as it is; when the store holds [h], the operation returns
    [files/h], the export tree keeps a file it already has under that name
    and receives a copy of the store's file otherwise, no other path changes,
    and a second request changes nothing. An absent or empty URL returns
    [None] and leaves the tree as it is. *)
Theorem ensure_local_asset_resolves (u h : pystr)
    (store_files : gmap pystr pybytes) (export_files : pystr) (tr : tree) :
  u <> [] -> hash_for_url u = Some h ->
  let dest := export_files ++ lit "/" ++ h in
  let run := ensure_local_asset (Some u) store_files export_files in
  (store_files !! h = None -> run tr = (Done None, tr))
  /\ (forall data, store_files !! h = Some data ->
        exists tr',
          run tr = (Done (Some (lit "files/" ++ h)), tr')
          /\ tr' !! dest = Some (default data (tr !! dest))
          /\ (forall path, path <> dest -> tr' !! path = tr !! path)
          /\ run tr' = (Done (Some (lit "files/" ++ h)), tr'))
  /\ ensure_local_asset None store_files export_files tr = (Done None, tr)
  /\ ensure_local_asset (Some []) store_files export_files tr = (Done None, tr).
Proof.
  intros Hu Hh dest run. split; [|split; [|split]].
  - intros Hs. subst run. eapply ensure_local_asset_missing; eassumption.
  - intros data Hs. subst run.
    rewrite (ensure_local_asset_found _ _ _ _ _ _ Hu Hh Hs). fold dest.
    destruct (tr !! dest) as [old|] eqn:E.
    + exists tr. split; [reflexivity|]. split; [exact E|]. split; [reflexivity|].
      rewrite (ensure_local_asset_found _ _ _ _ _ _ Hu Hh Hs). fold dest.
      rewrite E. reflexivity.
    + exists (<[dest := data]> tr). split; [reflexivity|].
      split; [apply lookup_insert_eq|]. split.
      * intros path Hp. apply lookup_insert_ne. congruence.
      * rewrite (ensure_local_asset_found _ _ _ _ _ _ Hu Hh Hs). fold dest.
        rewrite lookup_insert_eq. reflexivity.
  - apply ensure_local_asset_falsy. reflexivity.
  - apply ensure_local_asset_falsy. reflexivity.
Qed.

(** ** Decimal numerals *)

Lemma digits_of_last (f : nat) (n : Z) (acc : pystr) :
  0 <= n < 10 -> digits_of (S f) n acc = (48 + n) :: acc.
Proof.
  intros H. cbn [digits_of]. rewrite Z.mod_small by lia.
  assert ((n <? 10) = true) as -> by (apply Z.ltb_lt; lia). reflexivity.
Qed.

Lemma digits_of_more (f : nat) (n : Z) (acc : pystr) :
  10 <= n -> digits_of (S f) n acc = digits_of f (n / 10) ((48 + n mod 10) :: acc).
Proof.
  intros H. cbn [digits_of].
  assert ((n <? 10) = false) as -> by (apply Z.ltb_ge; lia). reflexivity.
Qed.

Lemma str_of_int_1 (n : Z) : 0 <= n < 10 -> str_of_int n = [48 + n].
Proof.
  intros H. unfold str_of_int.
  assert ((n <? 0) = false) as -> by (apply Z.ltb_ge; lia).
  apply digits_of_last. exact H.
Qed.

Lemma str_of_int_2 (n : Z) :
  10 <= n < 100 -> str_of_int n = [48 + n / 10; 48 + n mod 10].
Proof.
  intros H. unfold str_of_int.
  assert ((n <? 0) = false) as -> by (apply Z.ltb_ge; lia).
  destruct (Z.to_nat n) as [|k] eqn:E; [lia|].
  rewrite digits_of_more by lia. apply digits_of_last.
  split; [apply Z.div_pos; lia|apply Z.div_lt_upper_bound; lia].
Qed.

Lemma str_of_int_3 (n : Z) :
  100 <= n < 1000 ->
  str_of_int n = [48 + n / 100; 48 + n / 10 mod 10; 48 + n mod 10].
Proof.
  intros H. unfold str_of_int.
  assert ((n <? 0) = false) as -> by (apply Z.ltb_ge; lia).
  destruct (Z.to_nat n) as [|[|k]] eqn:E; [lia|lia|].
  rewrite digits_of_more by lia.
  rewrite digits_of_more by (apply Z.div_le_lower_bound; lia).
  rewrite Z.div_div by lia. apply digits_of_last.
  split; [apply Z.div_pos; lia|apply Z.div_lt_upper_bound; lia].
Qed.

Lemma str_of_int_4 (n : Z) :
  1000 <= n < 10000 ->
  str_of_int n
  = [48 + n / 1000; 48 + n / 100 mod 10; 48 + n / 10 mod 10; 48 + n mod 10].
Proof.
  intros H. unfold str_of_int.
  assert ((n <? 0) = false) as -> by (apply Z.ltb_ge; lia).
  destruct (Z.to_nat n) as [|[|[|k]]] eqn:E; [lia|lia|lia|].
  rewrite digits_of_more by lia.
  rewrite digits_of_more by (apply Z.div_le_lower_bound; lia).
  rewrite Z.div_div by lia.
  rewrite digits_of_more by (apply Z.div_le_lower_bound; lia).
  rewrite Z.div_div by lia. apply digits_of_last.
  split; [apply Z.div_pos; lia|apply Z.div_lt_upper_bound; lia].
Qed.

(** [{n:02d}] prints two digits for a number below 100. *)
Lemma fmt_0d_two (n : Z) :
  0 <= n < 100 -> fmt_0d 2 n = [48 + n / 10; 48 + n mod 10].
Proof.
  intros H. unfold fmt_0d.
  assert ((n <? 0) = false) as -> by (apply Z.ltb_ge; lia).
  destruct (Z.lt_ge_cases n 10) as [Hs|Hb].
  - rewrite str_of_int_1 by lia. rewrite Z.div_small, Z.mod_small by lia.
    reflexivity.
  - rewrite str_of_int_2 by lia. reflexivity.
Qed.

(** [{n:04d}] prints four digits for a number below 10000. *)
Lemma fmt_0d_four (n : Z) :
  0 <= n < 10000 ->
  fmt_0d 4 n
  = [48 + n / 1000; 48 + n / 100 mod 10; 48 + n / 10 mod 10; 48 + n mod 10].
Proof.
  intros H. unfold fmt_0d.
  assert ((n <? 0) = false) as -> by (apply Z.ltb_ge; lia).
  destruct (Z.lt_ge_cases n 10) as [H1|H1];
    [|destruct (Z.lt_ge_cases n 100) as [H2|H2];
      [|destruct (Z.lt_ge_cases n 1000) as [H3|H3]]].
  - rewrite str_of_int_1 by lia.
    rewrite !Z.div_small, !Z.mod_small by lia. reflexivity.
  - rewrite str_of_int_2 by lia.
    rewrite (Z.div_small n 1000), (Z.div_small n 100) by lia.
    rewrite (Z.mod_small (n / 10)) by
      (split; [apply Z.div_pos; lia|apply Z.div_lt_upper_bound; lia]).
    reflexivity.
  - rewrite str_of_int_3 by lia.
    rewrite (Z.div_small n 1000) by lia.
    rewrite (Z.mod_small (n / 100)) by
      (split; [apply Z.div_pos; lia|apply Z.div_lt_upper_bound; lia]).
    reflexivity.
  - rewrite str_of_int_4 by lia. reflexivity.
Qed.


(** ** Anchors, reply counts and timestamps *)

Lemma replace_char_map (old new : Z) (s : pystr) :
  replace_char old [new] s = map (fun c => if c =? old then new else c) s.
Proof.
  unfold replace_char. induction s as [|c s IH]; [reflexivity|].
  cbn [flat_map map]. rewrite IH. destruct (c =? old); reflexivity.
Qed.

(** The article of a message opens with its anchor. *)
Lemma render_message_anchor (profile_lookup : gmap pystr (gmap pystr pystr))
    (store_files : gmap pystr pybytes) (export_files : pystr)
    (total index : nat) (msg : message) (tr tr' : tree) (article : pystr) :
  render_message profile_lookup store_files export_files total index msg tr
  = (Done article, tr') ->
  exists rest,
    article = tpl "<article class=`message` id=`" ++ message_anchor msg
              ++ tpl "`>" ++ rest.
Proof.
  unfold render_message, mbind, io_bind, mret, io_ret. cbv zeta.
  destruct (@mapM io _ _ _ _ _ _ tr) as [[items|e] tr1]; [|discriminate].
  destruct (rewrite_images _ _ _ _ tr1) as [[content|e] tr2]; [|discriminate].
  intros H. injection H as <- _. eexists. reflexivity.
Qed.

(** C10. The anchor of a rendered message is ["msg-"] followed by its
    identifier with every ['.'] replaced by ['-']; a message without
    identifier has the anchor ["msg-unknown"], so two such messages have the
    same anchor; and the article of the message carries the anchor as its
    [id]. *)
Theorem message_anchor_rule (msg : message) :
  message_anchor msg
  = lit "msg-" ++ map (fun c => if c =? 46 then 45 else c)
                      (or_default (msg_id msg) (lit "unknown"))
  /\ (msg_id msg = None -> message_anchor msg = lit "msg-unknown")
  /\ (forall msg', msg_id msg = None -> msg_id msg' = None ->
                   message_anchor msg = message_anchor msg')
  /\ (forall profile_lookup store_files export_files total index tr tr' article,
        render_message profile_lookup store_files export_files total index msg tr
        = (Done article, tr') ->
        exists rest,
          article = tpl "<article class=`message` id=`" ++ message_anchor msg
                    ++ tpl "`>" ++ rest).
Proof.
  split; [|split; [|split]].
  - unfold message_anchor, message_mid.
    change (lit "-") with [45]. rewrite replace_char_map. reflexivity.
  - intros H. unfold message_anchor, message_mid. rewrite H. reflexivity.
  - intros msg' H H'. unfold message_anchor, message_mid. rewrite H, H'.
    reflexivity.
  - intros. eapply render_message_anchor. eassumption.
Qed.

Lemma thread_of_record_count (stem : pystr) (data : thread_record) (t : thread) :
  thread_of_record stem data = Some t ->
  t_message_count t = Z.of_nat (length (processed_messages data))
  /\ (1 <= length (processed_messages data))%nat.
Proof.
  unfold thread_of_record.
  destruct (processed_messages data) as [|m ms]; [discriminate|].
  intros H. injection H as <-. cbn [t_message_count length]. split; [reflexivity|lia].
Qed.

(** C8. A thread that [main] lists has [message_count] equal to the length
    of its message list; the reply count of its table row is
    [max(message_count - 1, 0)], it is never negative, and the row prints it
    in its last cell. *)
Theorem reply_count_rule (stem : pystr) (data : thread_record) (t : thread) :
  thread_of_record stem data = Some t ->
  t_message_count t = Z.of_nat (length (processed_messages data))
  /\ reply_count t = Z.max (t_message_count t - 1) 0
  /\ 0 <= reply_count t
  /\ reply_count t = Z.of_nat (length (processed_messages data)) - 1
  /\ exists cells,
       folder_row t = cells ++ lit "<td>" ++ str_of_int (reply_count t)
                      ++ lit "</td>" ++ lit "</tr>".
Proof.
  intros H. destruct (thread_of_record_count _ _ _ H) as [Hc Hl].
  split; [exact Hc|]. split; [reflexivity|]. split; [unfold reply_count; lia|].
  split; [unfold reply_count; lia|].
  unfold folder_row. cbv zeta. eexists. rewrite !app_assoc. reflexivity.
Qed.




(** The fields of a [datetime] object stay within the ranges its
    constructor checks. *)
Lemma valid_datetime_ranges (d : datetime) :
  valid_datetime d = true ->
  1 <= year d <= 9999 /\ 1 <= month d <= 12 /\ 1 <= day d <= 31
  /\ 0 <= hour d <= 23 /\ 0 <= minute d <= 59.
Proof.
  unfold valid_datetime. rewrite !andb_true_iff, !Z.leb_le. intros H.
  assert (days_in_month (year d) (month d) <= 31) as Hdim.
  { unfold days_in_month.
    repeat match goal with
           | |- context [if ?b then _ else _] => destruct b
           end; lia. }
  lia.
Qed.



(** ** Sorting *)

Section Sorting.
Unset Default Proof Using.
Context {A : Type} (leb : A -> A -> bool).
Hypothesis leb_total : forall a b, leb a b = false -> leb b a = true.
Hypothesis leb_trans : forall a b c, leb a b = true -> leb b c = true -> leb a c = true.

Local Abbreviation le := (fun a b => leb a b = true).

Lemma insert_by_perm (x : A) (l : list A) :
  Permutation (insert_by leb x l) (x :: l).
Proof.
  induction l as [|y l IH]; simpl; [reflexivity|].
  destruct (leb x y); [reflexivity|].
  rewrite IH. apply perm_swap.
Qed.

Lemma sort_by_perm (l : list A) : Permutation (sort_by leb l) l.
Proof.
  induction l as [|x l IH]; simpl; [reflexivity|].
  unfold sort_by in *. simpl. rewrite insert_by_perm. constructor. exact IH.
Qed.

Lemma insert_by_sorted (x : A) (l : list A) :
  StronglySorted le l -> StronglySorted le (insert_by leb x l).
Proof.
  induction l as [|y l IH]; intros Hs; simpl.
  - constructor; constructor.
  - inversion Hs as [|? ? Hl Hy]; subst.
    destruct (leb x y) eqn:Hxy.
    + constructor; [exact Hs|]. constructor; [exact Hxy|].
      rewrite List.Forall_forall in *. intros z Hz. eauto.
    + constructor; [apply IH; exact Hl|].
      rewrite List.Forall_forall in *. intros z Hz.
      apply (Permutation_in _ (insert_by_perm x l)) in Hz.
      destruct Hz as [<-|Hz]; [apply leb_total; exact Hxy|auto].
Qed.

Lemma sort_by_sorted (l : list A) : StronglySorted le (sort_by leb l).
Proof.
  induction l as [|x l IH]; [constructor|].
  unfold sort_by in *. simpl. apply insert_by_sorted. exact IH.
Qed.

Lemma sort_by_reverse_perm (l : list A) :
  Permutation (sort_by_reverse leb l) l.
Proof.
  unfold sort_by_reverse.
  rewrite <- Permutation_rev, sort_by_perm, <- Permutation_rev. reflexivity.
Qed.
End Sorting.

Set Default Proof Using "Type".

Lemma StronglySorted_app_inv {A : Type} (R : A -> A -> Prop) (l1 l2 : list A) :
  StronglySorted R (l1 ++ l2) ->
  StronglySorted R l1 /\ StronglySorted R l2
  /\ forall a b, In a l1 -> In b l2 -> R a b.
Proof.
  induction l1 as [|x l1 IH]; simpl; intros H.
  - split; [constructor|]. split; [exact H|]. intros a b [].
  - inversion H as [|? ? Hs Hf]; subst. destruct (IH Hs) as (H1 & H2 & H3).
    rewrite List.Forall_forall in Hf. split; [|split; [exact H2|]].
    + constructor; [exact H1|]. rewrite List.Forall_forall. intros z Hz.
      apply Hf. apply in_or_app. left. exact Hz.
    + intros a b [<-|Ha] Hb; [|auto]. apply Hf. apply in_or_app. right. exact Hb.
Qed.

Lemma StronglySorted_snoc {A : Type} (R : A -> A -> Prop) (l : list A) (x : A) :
  StronglySorted R l -> (forall a, In a l -> R a x) -> StronglySorted R (l ++ [x]).
Proof.
  induction l as [|y l IH]; simpl; intros Hs Hx.
  - constructor; constructor.
  - inversion Hs as [|? ? Hl Hy]; subst. constructor.
    + apply IH; [exact Hl|]. intros a Ha. apply Hx. right. exact Ha.
    + rewrite List.Forall_forall in *. intros z Hz.
      apply in_app_or in Hz as [Hz|[<-|[]]]; [auto|]. apply Hx. left. reflexivity.
Qed.

(** Turning a sorted list round sorts it for the converse relation. *)
Lemma StronglySorted_rev {A : Type} (R : A -> A -> Prop) (l : list A) :
  StronglySorted R l -> StronglySorted (fun a b => R b a) (rev l).
Proof.
  induction 1 as [|x l Hs IH Hf]; simpl; [constructor|].
  apply StronglySorted_snoc; [exact IH|].
  rewrite List.Forall_forall in Hf. intros a Ha. apply Hf.
  apply in_rev. exact Ha.
Qed.

(** *** The order of texts and of datetimes *)

Lemma str_leb_refl (a : pystr) : str_leb a a = true.
Proof.
  induction a as [|x a IH]; [reflexivity|]. simpl.
  rewrite Z.eqb_refl, IH. apply orb_true_r.
Qed.

Lemma str_leb_total (a b : pystr) : str_leb a b = false -> str_leb b a = true.
Proof.
  revert b. induction a as [|x a IH]; intros [|y b]; simpl; try discriminate;
    try reflexivity.
  intros H. apply orb_false_elim in H as [H1 H2].
  apply Z.ltb_ge in H1.
  destruct (Z.eqb_spec x y) as [->|Hne].
  - simpl in H2. rewrite Z.eqb_refl, (IH _ H2). apply orb_true_r.
  - assert ((y <? x) = true) as -> by (apply Z.ltb_lt; lia). reflexivity.
Qed.

Lemma str_leb_trans (a b c : pystr) :
  str_leb a b = true -> str_leb b c = true -> str_leb a c = true.
Proof.
  revert b c. induction a as [|x a IH]; intros [|y b] [|z c]; simpl;
    try discriminate; try reflexivity.
  intros H1 H2.
  apply orb_prop in H1 as [H1|H1]; apply orb_prop in H2 as [H2|H2].
  - apply Z.ltb_lt in H1. apply Z.ltb_lt in H2.
    assert ((x <? z) = true) as -> by (apply Z.ltb_lt; lia). reflexivity.
  - apply andb_prop in H2 as [H2 _]. apply Z.eqb_eq in H2. subst z.
    rewrite H1. reflexivity.
  - apply andb_prop in H1 as [H1 _]. apply Z.eqb_eq in H1. subst y.
    rewrite H2. reflexivity.
  - apply andb_prop in H1 as [H1 H1']. apply andb_prop in H2 as [H2 H2'].
    apply Z.eqb_eq in H1, H2. subst y z.
    rewrite Z.eqb_refl, (IH _ _ H1' H2'). apply orb_true_r.
Qed.

Lemma str_leb_antisym (a b : pystr) :
  str_leb a b = true -> str_leb b a = true -> a = b.
Proof.
  revert b. induction a as [|x a IH]; intros [|y b]; simpl; try discriminate;
    try reflexivity.
  intros H1 H2.
  apply orb_prop in H1 as [H1|H1]; apply orb_prop in H2 as [H2|H2].
  - apply Z.ltb_lt in H1. apply Z.ltb_lt in H2. lia.
  - apply andb_prop in H2 as [H2 _]. apply Z.eqb_eq in H2. apply Z.ltb_lt in H1. lia.
  - apply andb_prop in H1 as [H1 _]. apply Z.eqb_eq in H1. apply Z.ltb_lt in H2. lia.
  - apply andb_prop in H1 as [H1 H1']. apply andb_prop in H2 as [_ H2'].
    apply Z.eqb_eq in H1. subst y. f_equal. apply IH; assumption.
Qed.

Lemma dt_fields_inj (a b : datetime) : dt_fields a = dt_fields b -> a = b.
Proof.
  destruct a, b. unfold dt_fields. simpl. intros H.
  injection H as -> -> -> -> -> -> ->. reflexivity.
Qed.

Lemma dt_leb_antisym (a b : datetime) :
  dt_leb a b = true -> dt_leb b a = true -> a = b.
Proof.
  unfold dt_leb. intros H1 H2. apply dt_fields_inj.
  apply str_leb_antisym; assumption.
Qed.

Lemma key_leb_total (a b : datetime * pystr) :
  key_leb a b = false -> key_leb b a = true.
Proof.
  unfold key_leb. destruct a as [d1 i1], b as [d2 i2]. cbn [fst snd].
  repeat case_bool_decide; subst; try congruence; apply str_leb_total.
Qed.

Lemma key_leb_trans (a b c : datetime * pystr) :
  key_leb a b = true -> key_leb b c = true -> key_leb a c = true.
Proof.
  unfold key_leb. destruct a as [d1 i1], b as [d2 i2], c as [d3 i3]. cbn [fst snd].
  repeat case_bool_decide; subst; try congruence; intros Hab Hbc.
  - eapply str_leb_trans; eassumption.
  - exfalso. match goal with H : _ <> _ |- _ => apply H end.
    apply dt_leb_antisym; assumption.
  - unfold dt_leb in *. eapply str_leb_trans; eassumption.
Qed.

Lemma key_leb_spec (d1 d2 : datetime) (i1 i2 : pystr) :
  key_leb (d1, i1) (d2, i2) = true <->
  dt_lt d1 d2 \/ (d1 = d2 /\ str_leb i1 i2 = true).
Proof.
  unfold key_leb, dt_lt. cbn [fst snd]. case_bool_decide; subst; split.
  - intros Hk. right. split; [reflexivity|exact Hk].
  - intros [[_ Hk]|[_ Hk]]; [congruence|exact Hk].
  - intros Hk. left. split; assumption.
  - intros [[Hk _]|[Hk _]]; [exact Hk|congruence].
Qed.

(** [datetime.max] and [datetime.min] bound every datetime object. *)
Lemma datetime_bounds (d : datetime) :
  valid_datetime d = true ->
  dt_leb d datetime_max = true /\ dt_leb datetime_min d = true.
Proof.
  unfold valid_datetime. rewrite !andb_true_iff, !Z.leb_le.
  intros H. decompose [and] H; clear H.
  assert (day d <= 31).
  { unfold days_in_month in *.
    repeat match goal with
           | H : context [if ?b then _ else _] |- _ => destruct b
           end; lia. }
  destruct d as [y mo da h mi s us];
    cbn [year month day hour minute second microsecond] in *.
  unfold dt_leb, dt_fields, datetime_max, datetime_min.
  cbn [str_leb year month day hour minute second microsecond].
  split;
    repeat match goal with
           | |- context [?a <? ?b] =>
               destruct (Z.ltb_spec a b); cbn [orb andb]; [reflexivity|];
               destruct (Z.eqb_spec a b); cbn [orb andb]; [|lia]
           end; reflexivity.
Qed.

(** ** Occurrences *)

Lemma occurs_here (m b : pystr) : occurs_in m (m ++ b).
Proof. exists [], b. reflexivity. Qed.

Lemma occurs_app_r (m a l : pystr) : occurs_in m l -> occurs_in m (a ++ l).
Proof.
  intros (x & y & ->). exists (a ++ x), y. rewrite <- app_assoc. reflexivity.
Qed.

Lemma occurs_app_l (m l b : pystr) : occurs_in m l -> occurs_in m (l ++ b).
Proof.
  intros (x & y & ->). exists x, (y ++ b). rewrite <- !app_assoc. reflexivity.
Qed.

Lemma str_in_head (m l : pystr) : str_startswith m l = true -> str_in m l = true.
Proof. destruct l; cbn [str_in]; intros ->; reflexivity. Qed.

Lemma occurs_in_str_in (m l : pystr) : occurs_in m l -> str_in m l = true.
Proof.
  intros (a & b & ->). induction a as [|c a IH].
  - rewrite app_nil_l. apply str_in_head. apply str_startswith_app.
  - change ((c :: a) ++ m ++ b) with (c :: (a ++ m ++ b)).
    cbn [str_in]. rewrite IH. apply orb_true_r.
Qed.

(** Finds [m] in a chain of concatenations. *)
Ltac find_occurrence :=
  repeat first [ apply occurs_here | apply occurs_app_r ].

(** ** The two orders of a folder *)

Lemma StronglySorted_impl {A : Type} (R S : A -> A -> Prop) (l : list A) :
  (forall a b, R a b -> S a b) -> StronglySorted R l -> StronglySorted S l.
Proof.
  intros HRS. induction 1 as [|x l Hs IH Hf]; constructor; [exact IH|].
  eapply List.Forall_impl; [|exact Hf]. intros a. apply HRS.
Qed.

Lemma StronglySorted_before {A : Type} (R : A -> A -> Prop)
    (l1 l2 l3 : list A) (a b : A) :
  StronglySorted R (l1 ++ a :: l2 ++ b :: l3) -> R a b.
Proof.
  intros H. apply StronglySorted_app_inv in H as (_ & H & _).
  inversion H as [|? ? _ Hf]; subst. rewrite List.Forall_forall in Hf.
  apply Hf. apply in_or_app. right. left. reflexivity.
Qed.

Lemma listing_order_sorted (threads : list thread) :
  StronglySorted listing_le (listing_order threads).
Proof.
  unfold listing_order.
  eapply StronglySorted_impl; [|apply sort_by_sorted].
  - intros a b H. unfold listing_key in H. apply key_leb_spec in H. exact H.
  - intros a b. apply key_leb_total.
  - intros a b c. apply key_leb_trans.
Qed.

Lemma preview_order_sorted (threads : list thread) :
  StronglySorted preview_ge (preview_order threads).
Proof.
  unfold preview_order, sort_by_reverse.
  eapply StronglySorted_impl;
    [|apply StronglySorted_rev; apply sort_by_sorted].
  - intros a b H. cbv beta in H. unfold preview_key in H.
    apply key_leb_spec in H. destruct H as [H|[H1 H2]].
    + left. exact H.
    + right. split; [symmetry; exact H1|exact H2].
  - intros a b. apply key_leb_total.
  - intros a b c. apply key_leb_trans.
Qed.

(** ** Snippets *)

Lemma sub_runs_spaced (s : pystr) :
  (spaced_ok (sub_runs is_space (lit " ") true s)
   /\ head_nonspace (sub_runs is_space (lit " ") true s))
  /\ spaced_ok (sub_runs is_space (lit " ") false s).
Proof.
  induction s as [|c s [[IH1 IH2] IH3]]; [repeat split|].
  cbn [sub_runs]. destruct (is_space c) eqn:Hc.
  - rewrite app_nil_l. split; [split; assumption|].
    change (lit " " ++ ?x) with (32 :: x). cbn [spaced_ok].
    split; [|exact IH1]. intros _. split; [reflexivity|exact IH2].
  - cbn [spaced_ok head_nonspace]. repeat split; try assumption; congruence.
Qed.

Lemma spaced_ok_suffix (a b : pystr) : spaced_ok (a ++ b) -> spaced_ok b.
Proof.
  forget_tables.
  induction a as [|c a IH]; [tauto|]. cbn [app spaced_ok]. tauto.
Qed.

Lemma spaced_ok_prefix (a b : pystr) : spaced_ok (a ++ b) -> spaced_ok a.
Proof.
  forget_tables.
  induction a as [|c a IH]; [intros; exact I|]. cbn [app spaced_ok].
  intros [H1 H2]. split; [|tauto].
  intros Hc. destruct (H1 Hc) as [-> Hh]. split; [reflexivity|].
  destruct a; [exact I|exact Hh].
Qed.

Lemma spaced_ok_single_spaced (s : pystr) : spaced_ok s -> single_spaced s.
Proof.
  unfold single_spaced. induction s as [|x s IH]; intros Hs i c Hi Hc.
  - discriminate.
  - cbn [spaced_ok] in Hs. destruct Hs as [Hx Hs]. destruct i as [|i].
    + injection Hi as ->. destruct (Hx Hc) as [-> Hh]. split; [reflexivity|].
      intros d Hd. destruct s as [|y s]; [discriminate|].
      injection Hd as ->. exact Hh.
    + exact (IH Hs i c Hi Hc).
Qed.

(** The text [strip_html] returns has single spaces only and is trimmed. *)
Lemma strip_html_clean (text : option pystr) :
  spaced_ok (strip_html text) /\ head_nonspace (strip_html text)
  /\ trimmed (strip_html text).
Proof.
  destruct text as [t|]; [|repeat split; try exact I; discriminate].
  unfold strip_html, str_strip, strip_by. cbv zeta.
  set (x := sub_runs is_space (lit " ") false (html_unescape (sub_tags t))).
  assert (spaced_ok x) as Hx by apply sub_runs_spaced.
  destruct (lstrip_by_suffix is_space x) as (pre & Hpre & _).
  pose proof (lstrip_by_not_head is_space x) as Hhead.
  set (l := lstrip_by is_space x) in *.
  assert (spaced_ok l) as Hl by (rewrite Hpre in Hx; eapply spaced_ok_suffix; exact Hx).
  destruct (rstrip_by_prefix is_space l) as (suf & Hsuf & _).
  pose proof (rstrip_by_not_last is_space l) as Hlast.
  set (r := rstrip_by is_space l) in *.
  assert (head_nonspace r) as Hr.
  { destruct r as [|c r']; [exact I|]. rewrite Hsuf in Hhead. exact Hhead. }
  split; [rewrite Hsuf in Hl; eapply spaced_ok_prefix; exact Hl|].
  split; [exact Hr|]. split.
  - intros c Hc. destruct r; [discriminate|]. injection Hc as ->. exact Hr.
  - intros c Hc. apply last_Some in Hc as [r' Hr']. eapply Hlast. exact Hr'.
Qed.

Lemma is_space_32 : is_space 32 = true.
Proof. reflexivity. Qed.

(** Cutting a clean text before its last space of the first [n] characters
    leaves nothing to trim. *)
Lemma truncate_clean (plain : pystr) (n : nat) :
  spaced_ok plain -> head_nonspace plain -> (n < length plain)%nat -> (0 < n)%nat ->
  exists cut,
    cut_at plain n cut /\ (0 < cut <= n)%nat
    /\ rsplit_space_head (slice_to n plain) = take cut plain
    /\ str_strip (take cut plain) = take cut plain.
Proof.
  intros Hs Hh Hlen Hn. pose proof (spaced_ok_single_spaced _ Hs) as Hss.
  unfold rsplit_space_head, slice_to.
  destruct plain as [|c0 rest] eqn:Eplain; [simpl in Hlen; lia|].
  cbn [head_nonspace] in Hh. rewrite <- Eplain in *.
  assert (plain !! 0%nat = Some c0) as H0 by (rewrite Eplain; reflexivity).
  destruct (last_index 32 (take n plain)) as [i|] eqn:Hi.
  - destruct (last_index_Some _ _ _ Hi) as [Hat Hafter].
    apply lookup_take_Some in Hat as [Hat Hin].
    destruct i as [|j].
    { rewrite H0 in Hat. injection Hat as ->. rewrite is_space_32 in Hh. discriminate. }
    exists (S j). split; [|split; [lia|split]].
    + left. split; [exact Hin|]. split; [exact Hat|].
      intros k c Hk Hc. destruct (is_space c) eqn:Hsp; [|reflexivity].
      destruct (Hss _ _ Hc Hsp) as [-> _]. exfalso.
      apply (Hafter k); [lia|]. rewrite lookup_take_lt by lia. exact Hc.
    + rewrite take_take. f_equal. lia.
    + assert (is_Some (plain !! j)) as [x Hx]
        by (apply lookup_lt_is_Some; apply lookup_lt_Some in Hat; lia).
      rewrite (take_S_r _ _ _ Hx). apply strip_by_ends.
      * destruct j as [|j']; [rewrite H0 in Hx; injection Hx as <-; exact Hh|].
        rewrite Eplain. exact Hh.
      * rewrite rev_app_distr. cbn [rev app].
        destruct (is_space x) eqn:Hsp; [|reflexivity].
        destruct (Hss _ _ Hx Hsp) as [_ Hnext].
        pose proof (Hnext _ Hat) as H32. rewrite is_space_32 in H32. discriminate.
  - pose proof (last_index_None _ _ Hi) as Hno.
    assert (forall j c, (j < n)%nat -> plain !! j = Some c -> is_space c = false) as Hall.
    { intros j c Hj Hc. destruct (is_space c) eqn:Hsp; [|reflexivity].
      destruct (Hss _ _ Hc Hsp) as [-> _]. exfalso.
      apply (Hno j). rewrite lookup_take_lt by lia. exact Hc. }
    exists n. split; [|split; [lia|split; [reflexivity|]]].
    + right. split; [reflexivity|exact Hall].
    + apply strip_by_ends.
      * rewrite Eplain. destruct n; [lia|]. exact Hh.
      * destruct n as [|m]; [lia|].
        assert (is_Some (plain !! m)) as [x Hx] by (apply lookup_lt_is_Some; lia).
        rewrite (take_S_r _ _ _ Hx), rev_app_distr. cbn [rev app].
        apply (Hall m); [lia|exact Hx].
Qed.

Lemma str_endswith_single (c x : Z) (r : pystr) :
  str_endswith [c] (r ++ [x]) = (c =? x).
Proof.
  unfold str_endswith. rewrite rev_app_distr. cbn [rev app str_startswith].
  apply andb_true_r.
Qed.

Lemma mem_char_punct (x : Z) :
  mem_char (lit ".,;") x = (46 =? x) || (44 =? x) || (59 =? x).
Proof.
  unfold mem_char. change (lit ".,;") with [46; 44; 59]. cbn [existsb].
  rewrite orb_false_r, orb_assoc, !(Z.eqb_sym x). reflexivity.
Qed.

(** Stripping the punctuation only when the text ends with it is stripping
    it always. *)
Lemma rstrip_punct_guarded (t : pystr) :
  (if str_endswith (lit ".") t || str_endswith (lit ",") t
      || str_endswith (lit ";") t
   then str_rstrip_chars (lit ".,;") t else t)
  = str_rstrip_chars (lit ".,;") t.
Proof.
  destruct t as [|x r _] using rev_ind; [reflexivity|].
  change (lit ".") with [46]. change (lit ",") with [44]. change (lit ";") with [59].
  rewrite !str_endswith_single, <- mem_char_punct.
  destruct (mem_char (lit ".,;") x) eqn:Hx; [reflexivity|].
  unfold str_rstrip_chars. rewrite rstrip_by_last by exact Hx. reflexivity.
Qed.

(** ** Names and their status *)

Lemma lower_at_app (f : nat -> pystr) (i : nat) (x y : pystr) :
  lower_at f i (x ++ y) = lower_at f i x ++ lower_at f (i + length x) y.
Proof.
  revert i. induction x as [|c x IH]; intros i.
  - cbn [app lower_at length]. rewrite Nat.add_0_r. reflexivity.
  - cbn [app lower_at length]. rewrite IH, <- app_assoc.
    replace (S i + length x)%nat with (i + S (length x))%nat by lia. reflexivity.
Qed.

(** A text that ends with [" unread"] still does so in lower case. *)
Lemma str_lower_unread (body : pystr) :
  str_endswith (lit " unread") (str_lower (body ++ lit " unread")) = true.
Proof.
  apply str_endswith_spec. unfold str_lower. rewrite lower_at_app.
  eexists. f_equal.
Qed.

Lemma str_lower_unread_literal : str_lower (lit "unread") = lit "unread".
Proof. reflexivity. Qed.

Lemma rstrip_by_snoc (p : Z -> bool) (s : pystr) (c : Z) :
  p c = true -> rstrip_by p (s ++ [c]) = rstrip_by p s.
Proof.
  intros H. unfold rstrip_by. rewrite rev_app_distr. cbn [rev app lstrip_by].
  rewrite H. reflexivity.
Qed.

Lemma rstrip_by_nonempty (p : Z -> bool) (c : Z) (r : pystr) :
  p c = false -> rstrip_by p (c :: r) <> [].
Proof.
  intros Hc E. destruct (rstrip_by_prefix p (c :: r)) as (suf & Hsuf & Hall).
  rewrite E in Hsuf. cbn [app] in Hsuf. subst suf. cbn [forallb] in Hall.
  rewrite Hc in Hall. discriminate.
Qed.

Lemma strip_by_head (p : Z -> bool) (s : pystr) :
  match strip_by p s with [] => True | c :: _ => p c = false end.
Proof.
  unfold strip_by. pose proof (lstrip_by_not_head p s) as Hh.
  destruct (rstrip_by_prefix p (lstrip_by p s)) as (suf & Hsuf & _).
  destruct (rstrip_by p (lstrip_by p s)) as [|c r]; [exact I|].
  rewrite Hsuf in Hh. exact Hh.
Qed.

Lemma str_find_app (c : Z) (pre rest : pystr) :
  c ∉ pre -> str_find c (pre ++ c :: rest) = Some (length pre).
Proof.
  induction pre as [|x pre IH]; intros Hn.
  - cbn. rewrite Z.eqb_refl. reflexivity.
  - cbn [app str_find length].
    destruct (Z.eqb_spec x c) as [->|Hne]; [exfalso; apply Hn; left|].
    rewrite IH; [reflexivity|]. intros Hin. apply Hn. right. exact Hin.
Qed.

Lemma str_contains_app (c : Z) (pre rest : pystr) :
  str_contains c (pre ++ c :: rest) = true.
Proof.
  unfold str_contains. rewrite existsb_app. cbn [existsb].
  rewrite Z.eqb_refl. apply orb_true_r.
Qed.

(** The status suffix comes off first. *)
Lemma name_parts_unread (name status : option pystr) (body : pystr) :
  truthy status = false ->
  str_strip (or_default name []) = body ++ lit " unread" ->
  name_parts name status = name_parts (Some body) (Some (lit "unread")).
Proof.
  intros Hst Hraw.
  pose proof (strip_by_head is_space (or_default name [])) as Hhead.
  fold (str_strip (or_default name [])) in Hhead. rewrite Hraw in Hhead.
  destruct body as [|c0 body']; [discriminate Hhead|]. cbn [app] in Hhead.
  assert (str_strip (c0 :: body') = str_rstrip (c0 :: body')) as Hstrip.
  { unfold str_strip, strip_by, str_rstrip. rewrite lstrip_by_head by exact Hhead.
    reflexivity. }
  assert (is_empty (str_rstrip (c0 :: body')) = false) as Hne.
  { pose proof (rstrip_by_nonempty is_space c0 body' Hhead) as Hn.
    unfold str_rstrip. destruct (rstrip_by is_space (c0 :: body')); [congruence|reflexivity]. }
  unfold name_parts. cbv zeta. rewrite Hraw, Hst.
  change (or_default (Some (c0 :: body')) []) with (c0 :: body').
  rewrite Hstrip, Hne.
  change (is_empty ((c0 :: body') ++ lit " unread")) with false.
  rewrite str_lower_unread. cbn [negb andb].
  change (truthy (Some (lit "unread"))) with true. cbn [negb andb].
  assert (str_rstrip (slice_to_neg (length (lit "unread")) ((c0 :: body') ++ lit " unread"))
          = str_rstrip (c0 :: body')) as ->.
  { unfold slice_to_neg. rewrite length_app.
    change (lit " unread") with ([32] ++ lit "unread").
    rewrite app_assoc, take_app_length'
      by (rewrite !length_app; cbn [length]; lia).
    unfold str_rstrip. apply rstrip_by_snoc. reflexivity. }
  reflexivity.
Qed.

(** The parenthetical group at the end of a name. *)
Lemma name_parts_parenthetical (name status : option pystr) (pre mid : pystr) :
  str_strip (or_default name []) = pre ++ [40] ++ mid ++ [41] ->
  40 ∉ pre ->
  truthy status = true
  \/ str_endswith (lit " unread") (str_lower (pre ++ [40] ++ mid ++ [41])) = false ->
  name_parts name status =
  if bool_decide (str_count 40 ([40] ++ mid ++ [41]) = str_count 41 ([40] ++ mid ++ [41]))
  then (if is_empty (str_strip pre) then pre ++ [40] ++ mid ++ [41] else str_strip pre,
        [40] ++ mid ++ [41], normalize_status status)
  else (pre ++ [40] ++ mid ++ [41], [], normalize_status status).
Proof.
  intros Hraw Hpre Hst. unfold name_parts. cbv zeta. rewrite Hraw.
  set (raw := pre ++ [40] ++ mid ++ [41]) in *.
  assert (is_empty raw = false) as -> by (subst raw; destruct pre; reflexivity).
  assert (negb (truthy status) && str_endswith (lit " unread") (str_lower raw) = false) as ->.
  { destruct Hst as [-> | ->]; [reflexivity|apply andb_false_r]. }
  assert (str_endswith (lit ")") raw = true) as ->.
  { apply str_endswith_spec. exists (pre ++ [40] ++ mid). subst raw.
    rewrite <- !app_assoc. reflexivity. }
  assert (str_contains 40 raw = true) as -> by apply str_contains_app.
  assert (str_find 40 raw = Some (length pre)) as ->
    by (apply str_find_app; exact Hpre).
  cbn [andb default from_option id]. unfold slice_from, slice_to.
  assert (drop (length pre) raw = [40] ++ mid ++ [41]) as -> by apply drop_app_length.
  assert (take (length pre) raw = pre) as -> by apply take_app_length.
  assert (str_strip ([40] ++ mid ++ [41]) = [40] ++ mid ++ [41]) as ->.
  { apply strip_by_ends; [reflexivity|].
    cbn [app]. change (40 :: mid ++ [41]) with ((40 :: mid) ++ [41]).
    rewrite rev_app_distr. reflexivity. }
  case_bool_decide; reflexivity.
Qed.

Lemma name_parts_empty (name status : option pystr) :
  str_strip (or_default name []) = [] ->
  name_parts name status = (lit "Unknown", [], normalize_status status).
Proof. intros H. unfold name_parts. cbv zeta. rewrite H. reflexivity. Qed.

(** C6 (as amended). For every raw author or recipient text, trimmed:
    - when it ends with [" unread"] and no status was supplied, the suffix
      is detached and the name is treated as the rest with the status
      ["unread"];
    - when what remains is [pre ++ "(" ++ mid ++ ")"], the ['('] being its
      first one, and the group from it to the end holds as many ['('] as
      [')'], the primary name is [pre], trimmed (the whole text when that is
      empty), and the group is the extra qualifier; without that balance the
      whole text is the primary name and there is no extra;
    - both apply to one text, the suffix first;
    - an empty or absent name is the placeholder ["Unknown"] without extra,
      and it carries a status decoration exactly when a status was supplied;
    - in a message, an absent author is the text ["Unknown"] and an absent
      recipient the text ["All"]. *)
Theorem format_name_rules :
  (forall name status body,
      truthy status = false ->
      str_strip (or_default name []) = body ++ lit " unread" ->
      name_parts name status = name_parts (Some body) (Some (lit "unread")))
  /\ (forall name status pre mid,
        str_strip (or_default name []) = pre ++ [40] ++ mid ++ [41] ->
        40 ∉ pre ->
        truthy status = true
        \/ str_endswith (lit " unread") (str_lower (pre ++ [40] ++ mid ++ [41])) = false ->
        name_parts name status =
        if bool_decide (str_count 40 ([40] ++ mid ++ [41])
                        = str_count 41 ([40] ++ mid ++ [41]))
        then (if is_empty (str_strip pre) then pre ++ [40] ++ mid ++ [41]
              else str_strip pre,
              [40] ++ mid ++ [41], normalize_status status)
        else (pre ++ [40] ++ mid ++ [41], [], normalize_status status))
  /\ (forall cls,
        format_name_html (Some (lit "Alice (guest) unread")) cls None
        = tpl "<span class=`" ++ cls ++ tpl "`>" ++ lit "Alice" ++ lit "</span>"
          ++ tpl " <span class=`msg-recipient-extra`>" ++ lit "(guest)" ++ lit "</span>"
          ++ tpl " <span class=`msg-status`>" ++ lit "unread" ++ lit "</span>")
  /\ (forall name cls status,
        str_strip (or_default name []) = [] ->
        format_name_html name cls status
        = tpl "<span class=`" ++ cls ++ tpl "`>" ++ lit "Unknown" ++ lit "</span>"
          ++ (if truthy (normalize_status status)
              then tpl " <span class=`msg-status`>"
                   ++ html_escape (default [] (normalize_status status))
                   ++ lit "</span>"
              else []))
  /\ (forall name cls,
        str_strip (or_default name []) = [] ->
        format_name_html name cls None
        = tpl "<span class=`" ++ cls ++ tpl "`>" ++ lit "Unknown" ++ lit "</span>")
  /\ (forall msg,
        msg_from msg = None ->
        message_author_html msg
        = format_name_html (Some (lit "Unknown")) (lit "msg-author-name")
            (msg_from_status msg))
  /\ (forall msg,
        msg_to msg = None ->
        message_recipient_html msg
        = format_name_html (Some (lit "All")) (lit "msg-recipient-name")
            (msg_to_status msg)).
Proof.
  split; [exact name_parts_unread|]. split; [exact name_parts_parenthetical|].
  split; [|split; [|split; [|split]]].
  - intros cls. unfold format_name_html.
    rewrite (name_parts_unread _ None (lit "Alice (guest)")) by reflexivity.
    assert (name_parts (Some (lit "Alice (guest)")) (Some (lit "unread"))
            = (lit "Alice", lit "(guest)", Some (lit "unread"))) as ->
      by (vm_compute; reflexivity).
    rewrite <- !app_assoc. reflexivity.
  - intros name cls status H. unfold format_name_html.
    rewrite (name_parts_empty _ _ H). cbn [negb is_empty].
    rewrite app_nil_l, <- !app_assoc. reflexivity.
  - intros name cls H. unfold format_name_html.
    rewrite (name_parts_empty _ _ H).
    change (normalize_status None) with (@None pystr).
    cbn [negb is_empty truthy]. rewrite !app_nil_r. reflexivity.
  - intros msg H. unfold message_author_html. rewrite H. reflexivity.
  - intros msg H. unfold message_recipient_html. rewrite H. reflexivity.
Qed.

(** ** The plain text of a body *)

Lemma str_find_split (c : Z) (s : pystr) (i : nat) :
  str_find c s = Some i ->
  exists pre rest, s = pre ++ c :: rest /\ (c ∉ pre) /\ length pre = i
                   /\ rest = drop (S i) s.
Proof.
  revert i. induction s as [|x s IH]; intros i H; [discriminate|].
  cbn [str_find] in H. destruct (Z.eqb_spec x c) as [->|Hne].
  - injection H as <-. exists [], s. repeat split. intros Hin. inversion Hin.
  - destruct (str_find c s) as [j|]; [|discriminate]. injection H as <-.
    destruct (IH j eq_refl) as (pre & rest & -> & Hn & Hl & Hr).
    exists (x :: pre), rest. split; [reflexivity|]. split; [|split].
    + intros Hin. apply elem_of_cons in Hin as [E|Hin]; [congruence|contradiction].
    + cbn [length]. rewrite Hl. reflexivity.
    + exact Hr.
Qed.

Lemma split_first_unique (c : Z) (a a' b b' : pystr) :
  c ∉ a -> c ∉ a' -> a ++ c :: b = a' ++ c :: b' -> a = a' /\ b = b'.
Proof.
  revert a'. induction a as [|x a IH]; intros [|y a'] Ha Ha' H.
  - injection H as <-. split; reflexivity.
  - injection H as <- _. exfalso. apply Ha'. left.
  - injection H as -> _. exfalso. apply Ha. left.
  - injection H as <- H.
    destruct (IH a') as [-> ->]; [| |exact H|split; reflexivity].
    + intros Hin. apply Ha. right. exact Hin.
    + intros Hin. apply Ha'. right. exact Hin.
Qed.

(** The substitution of [STRIP_TAG_RE] removes the tags. *)
Lemma sub_tags_from_removed (fuel : nat) (s : pystr) :
  (length s <= fuel)%nat -> tags_removed s (sub_tags_from fuel s).
Proof.
  revert s. induction fuel as [|fuel IH]; intros s Hlen.
  - destruct s; [constructor|cbn in Hlen; lia].
  - destruct s as [|c r]; [constructor|]. cbn [length] in Hlen.
    cbn [sub_tags_from]. destruct (Z.eqb_spec c 60) as [->|Hc].
    + destruct (tag_end r) as [n|] eqn:Ht.
      * unfold tag_end in Ht.
        destruct (str_find 62 r) as [[|j]|] eqn:Hf; try discriminate Ht.
        injection Ht as <-.
        destruct (str_find_split _ _ _ Hf) as (body & rest & Hr & Hn & Hl & Hrest).
        rewrite <- Hrest. rewrite Hr. apply tags_removed_tag.
        -- intros E. rewrite E in Hl. discriminate Hl.
        -- exact Hn.
        -- apply IH. rewrite Hr, length_app in Hlen. cbn [length] in Hlen. lia.
      * apply tags_removed_char; [|apply IH; lia].
        intros (body & rest & Hb & Hn & E). injection E as ->.
        unfold tag_end in Ht. rewrite (str_find_app _ _ _ Hn) in Ht.
        destruct body; [congruence|discriminate Ht].
    + apply tags_removed_char; [|apply IH; lia].
      intros (body & rest & _ & _ & E). injection E as E _. contradiction.
Qed.

(** Removing the tags of a text has one result. *)
Lemma tags_removed_unique (s a b : pystr) :
  tags_removed s a -> tags_removed s b -> a = b.
Proof.
  intros Ha. revert b.
  induction Ha as [|body rest out Hb Hn _ IH|c rest out Hc _ IH]; intros b Hb'.
  - inversion Hb'. reflexivity.
  - inversion Hb' as [|body' rest' out' Hb2 Hn2 Hrest E1 E2|c' rest' out' Hc' Hrest E1 E2].
    + destruct (split_first_unique _ _ _ _ _ Hn2 Hn E1) as [-> ->].
      f_equal. apply IH. exact Hrest.
    + exfalso. apply Hc'. exists body, rest. repeat split; assumption.
  - inversion Hb' as [|body' rest' out' Hb2 Hn2 Hrest E1 E2|c' rest' out' Hc' Hrest E1 E2].
    + exfalso. apply Hc. subst c. rewrite <- H. 
      exists body', rest'. repeat split; assumption.
    + f_equal. apply IH. exact Hrest.
Qed.

Lemma sub_runs_after_run (rep run rest : pystr) :
  Forall (fun c => is_space c = true) run -> head_nonspace rest ->
  sub_runs is_space rep true (run ++ rest) = sub_runs is_space rep false rest.
Proof.
  intros Hrun Hrest. induction Hrun as [|c run Hc _ IH].
  - destruct rest as [|d rest]; [reflexivity|].
    cbn [app sub_runs]. cbn [head_nonspace] in Hrest. rewrite Hrest. reflexivity.
  - cbn [app sub_runs]. rewrite Hc. exact IH.
Qed.

Lemma forallb_Forall_true (p : Z -> bool) (l : pystr) :
  forallb p l = true -> Forall (fun c => p c = true) l.
Proof.
  intros H. apply Forall_forall. intros c Hc.
  rewrite forallb_forall in H. apply H. apply list_elem_of_In. exact Hc.
Qed.

(** The substitution of [\s+] collapses the whitespace. *)
Lemma sub_runs_collapsed (fuel : nat) (s : pystr) :
  (length s <= fuel)%nat ->
  spaces_collapsed s (sub_runs is_space (lit " ") false s).
Proof.
  revert s. induction fuel as [|fuel IH]; intros s Hlen.
  - destruct s; [constructor|cbn in Hlen; lia].
  - destruct s as [|c r]; [constructor|]. cbn [length] in Hlen.
    cbn [sub_runs]. destruct (is_space c) eqn:Hc.
    + destruct (lstrip_by_suffix is_space r) as (pre & Hpre & Hall).
      pose proof (lstrip_by_not_head is_space r) as Hhead.
      remember (lstrip_by is_space r) as rest eqn:Erest.
      assert (head_nonspace rest) as Hrest by (destruct rest; exact Hhead).
      apply forallb_Forall_true in Hall.
      change (lit " " ++ ?x) with (32 :: x).
      rewrite Hpre, (sub_runs_after_run _ _ _ Hall Hrest).
      change (c :: pre ++ rest) with ((c :: pre) ++ rest).
      apply spaces_collapsed_run.
      * discriminate.
      * constructor; assumption.
      * exact Hrest.
      * apply IH. rewrite Hpre, length_app in Hlen. lia.
    + apply spaces_collapsed_char; [exact Hc|apply IH; lia].
Qed.

(** [strip] takes the whitespace off the two ends. *)
Lemma str_strip_trimmed_of (s : pystr) : trimmed_of s (str_strip s).
Proof.
  unfold str_strip, strip_by.
  destruct (lstrip_by_suffix is_space s) as (pre & Hpre & Hbefore).
  pose proof (lstrip_by_not_head is_space s) as Hhead.
  remember (lstrip_by is_space s) as l eqn:El.
  destruct (rstrip_by_prefix is_space l) as (suf & Hsuf & Hafter).
  pose proof (rstrip_by_not_last is_space l) as Hlast.
  remember (rstrip_by is_space l) as r eqn:Er.
  exists pre, suf. split; [rewrite Hpre at 1; rewrite Hsuf at 1; reflexivity|].
  split; [apply forallb_Forall_true; exact Hbefore|].
  split; [apply forallb_Forall_true; exact Hafter|]. split.
  - intros c Hc. destruct r as [|x r']; [discriminate|]. injection Hc as ->.
    rewrite Hsuf in Hhead. exact Hhead.
  - intros c Hc. apply last_Some in Hc as [r' Hr']. exact (Hlast _ _ Hr').
Qed.

(** C5. The text of a snippet is the body with its markup tags removed
    (every ['<'] that is followed by one or more characters other than ['>']
    and a ['>'] gives way, with them, to a space), its entities decoded by
    [html.unescape], every run of whitespace turned into one space, and the
    whitespace at the two ends taken off; an absent body has the empty text.
    The text has single spaces only and is trimmed. A text of at most 180
    characters is the snippet, with no marker. A longer text is cut at its
    last whitespace among the first 180 characters, or after 180 characters
    when these hold no whitespace; the trailing ['.'], [','] and [';'] of the
    cut text are stripped, and the marker ["..."] is appended: the snippet
    without the marker has at most 180 characters and ends with none of the
    three. *)
Theorem build_snippet_rule (text : option pystr) :
  let plain := strip_html text in
  single_spaced plain /\ trimmed plain
  /\ ((length plain <= 180)%nat -> build_snippet text 180 = plain)
  /\ ((180 < length plain)%nat ->
      exists cut body,
        cut_at plain 180 cut
        /\ body = str_rstrip_chars (lit ".,;") (take cut plain)
        /\ build_snippet text 180 = body ++ lit "..."
        /\ (length body <= 180)%nat
        /\ (forall c, last body = Some c -> c <> 46 /\ c <> 44 /\ c <> 59))
  /\ match text with
     | None => plain = []
     | Some body =>
         exists bare spaced,
           tags_removed body bare
           /\ (forall other, tags_removed body other -> other = bare)
           /\ spaces_collapsed (html_unescape bare) spaced
           /\ trimmed_of spaced plain
     end.
Proof.
  intros plain. destruct (strip_html_clean text) as (Hs & Hh & Ht). fold plain in Hs, Hh, Ht.
  split; [apply spaced_ok_single_spaced; exact Hs|]. split; [exact Ht|].
  split; [|split].
  - intros Hle. unfold build_snippet. cbv zeta. fold plain.
    apply Nat.leb_le in Hle. rewrite Hle. reflexivity.
  - intros Hgt.
    destruct (truncate_clean plain 180 Hs Hh Hgt ltac:(lia))
      as (cut & Hcut & Hrange & Hsplit & Hstrip).
    exists cut, (str_rstrip_chars (lit ".,;") (take cut plain)).
    split; [exact Hcut|]. split; [reflexivity|]. split; [|split].
    + unfold build_snippet. cbv zeta. fold plain.
      assert ((length plain <=? 180)%nat = false) as -> by (apply Nat.leb_gt; lia).
      rewrite Hsplit, Hstrip.
      assert (is_empty (take cut plain) = false) as ->.
      { destruct plain; [simpl in Hgt; lia|]. destruct cut; [lia|]. reflexivity. }
      rewrite rstrip_punct_guarded. reflexivity.
    + unfold str_rstrip_chars.
      pose proof (rstrip_by_length (mem_char (lit ".,;")) (take cut plain)) as Hl.
      rewrite length_take in Hl. lia.
    + intros c Hc. apply last_Some in Hc as [r Hr].
      apply rstrip_by_not_last in Hr. rewrite mem_char_punct in Hr.
      apply orb_false_elim in Hr as [Hr H59]. apply orb_false_elim in Hr as [H46 H44].
      apply Z.eqb_neq in H46, H44, H59. repeat split; congruence.
  - destruct text as [body|]; [|reflexivity].
    exists (sub_tags body),
           (sub_runs is_space (lit " ") false (html_unescape (sub_tags body))).
    pose proof (sub_tags_from_removed (length body) body (le_n _)) as Hbare.
    split; [exact Hbare|]. split; [|split].
    + intros other Hother. exact (tags_removed_unique _ _ _ Hother Hbare).
    + apply (sub_runs_collapsed (length (html_unescape (sub_tags body)))). apply le_n.
    + apply str_strip_trimmed_of.
Qed.

(** ** The export driver: records without messages *)

Section SortFilter.
Unset Default Proof Using.
Context {A : Type} (leb : A -> A -> bool) (keep : A -> bool).
Hypothesis leb_total : forall a b, leb a b = false -> leb b a = true.
Hypothesis leb_trans : forall a b c, leb a b = true -> leb b c = true -> leb a c = true.

Lemma insert_by_head (x : A) (l : list A) :
  Forall (fun z => leb x z = true) l -> insert_by leb x l = x :: l.
Proof.
  destruct l as [|y l]; [reflexivity|]. intros H.
  inversion H as [|? ? Hy _]; subst. cbn [insert_by]. rewrite Hy. reflexivity.
Qed.

Lemma filter_insert_by (x : A) (l : list A) :
  StronglySorted (fun a b => leb a b = true) l ->
  List.filter keep (insert_by leb x l)
  = if keep x then insert_by leb x (List.filter keep l) else List.filter keep l.
Proof.
  induction l as [|y l IH]; intros Hs.
  - cbn. destruct (keep x); reflexivity.
  - inversion Hs as [|? ? Hl Hy]; subst. cbn [insert_by].
    destruct (leb x y) eqn:Hxy.
    + cbn [List.filter]. destruct (keep x); [|reflexivity].
      destruct (keep y).
      * cbn [insert_by]. rewrite Hxy. reflexivity.
      * symmetry. apply insert_by_head.
        rewrite List.Forall_forall in *. intros z Hz.
        apply List.filter_In in Hz as [Hz _]. eauto.
    + cbn [List.filter]. rewrite (IH Hl).
      destruct (keep y), (keep x); try reflexivity.
      cbn [insert_by]. rewrite Hxy. reflexivity.
Qed.

(** A stable sort and a filter commute. *)
Lemma sort_by_filter (l : list A) :
  sort_by leb (List.filter keep l) = List.filter keep (sort_by leb l).
Proof.
  induction l as [|x l IH]; [reflexivity|].
  change (sort_by leb (x :: l)) with (insert_by leb x (sort_by leb l)).
  rewrite filter_insert_by by (apply sort_by_sorted; assumption).
  cbn [List.filter]. destruct (keep x); [|exact IH].
  change (sort_by leb (x :: List.filter keep l))
    with (insert_by leb x (sort_by leb (List.filter keep l))).
  rewrite IH. reflexivity.
Qed.
End SortFilter.

Set Default Proof Using "Type".

Lemma processed_messages_empty (data : thread_record) :
  processed_messages data = [] <->
  rec_messages data = None \/ rec_messages data = Some [].
Proof.
  unfold processed_messages. destruct (rec_messages data) as [[|m ms]|]; cbn;
    split; intros H; try reflexivity; try discriminate; auto;
    destruct H; discriminate.
Qed.

Lemma thread_of_record_empty (stem : pystr) (data : thread_record) :
  processed_messages data = [] -> thread_of_record stem data = None.
Proof. intros H. unfold thread_of_record. rewrite H. reflexivity. Qed.

Lemma thread_of_record_has_messages (entry : pystr * thread_record) :
  has_messages entry = false -> thread_of_record entry.1 entry.2 = None.
Proof.
  unfold has_messages. intros H. apply thread_of_record_empty.
  apply negb_false_iff, bool_decide_eq_true in H. exact H.
Qed.

(** A record without messages is skipped: no page, no dictionary. *)
Lemma export_thread_empty (forum_title : pystr)
    (profile_lookup : gmap pystr (gmap pystr pystr))
    (files_dir : gmap pystr pybytes) (stem : pystr) (data : thread_record)
    (tr : tree) :
  processed_messages data = [] ->
  export_thread forum_title profile_lookup files_dir stem data tr = (Done None, tr).
Proof.
  intros H. unfold export_thread. rewrite (thread_of_record_empty _ _ H).
  reflexivity.
Qed.

Lemma export_threads_filter (forum_title : pystr)
    (profile_lookup : gmap pystr (gmap pystr pystr))
    (files_dir : gmap pystr pybytes) (entries : list (pystr * thread_record))
    (tr : tree) :
  export_threads forum_title profile_lookup files_dir entries tr
  = export_threads forum_title profile_lookup files_dir
      (List.filter has_messages entries) tr.
Proof.
  revert tr. induction entries as [|[stem data] entries IH]; intros tr; [reflexivity|].
  cbn [List.filter]. destruct (has_messages (stem, data)) eqn:Hm.
  - cbn [export_threads]. unfold mbind, io_bind.
    destruct (export_thread _ _ _ stem data tr) as [[r|e] tr1]; [|reflexivity].
    rewrite IH. reflexivity.
  - cbn [export_threads]. unfold mbind, io_bind.
    rewrite export_thread_empty
      by (apply negb_false_iff, bool_decide_eq_true in Hm; exact Hm).
    rewrite IH.
    destruct (export_threads _ _ _ (List.filter has_messages entries) tr)
      as [[ts|e] tr1]; reflexivity.
Qed.

Lemma threads_of_records_cons (stem : pystr) (data : thread_record)
    (entries : list (pystr * thread_record)) :
  threads_of_records ((stem, data) :: entries)
  = match thread_of_record stem data with
    | Some t => t :: threads_of_records entries
    | None => threads_of_records entries
    end.
Proof. reflexivity. Qed.

(** The list [threads] holds the dictionaries of the records, in the order
    of the loop. *)
Lemma export_threads_result (forum_title : pystr)
    (profile_lookup : gmap pystr (gmap pystr pystr))
    (files_dir : gmap pystr pybytes) (entries : list (pystr * thread_record))
    (tr tr' : tree) (threads : list thread) :
  export_threads forum_title profile_lookup files_dir entries tr = (Done threads, tr') ->
  threads = threads_of_records entries.
Proof.
  revert tr tr' threads. induction entries as [|[stem data] entries IH];
    intros tr tr' threads H.
  - cbn in H. injection H as <- _. reflexivity.
  - cbn [export_threads] in H. unfold mbind, io_bind in H.
    destruct (export_thread _ _ _ stem data tr) as [[r|e] tr1] eqn:He; [|discriminate].
    destruct (export_threads _ _ _ entries tr1) as [[ts|e] tr2] eqn:Hts; [|discriminate].
    cbn in H. injection H as <- _. rewrite (IH _ _ _ Hts).
    rewrite threads_of_records_cons. unfold export_thread in He.
    destruct (thread_of_record stem data) as [t|].
    + unfold mbind, io_bind in He.
      destruct (render_messages _ _ _ _ tr) as [[html|e] tr3]; [|discriminate].
      destruct (write_text _ _ tr3) as [[[]|e] tr4]; [|discriminate].
      cbn in He. injection He as <- _. reflexivity.
    + cbn in He. injection He as <- _. reflexivity.
Qed.

Lemma threads_of_records_filter (entries : list (pystr * thread_record)) :
  threads_of_records (List.filter has_messages entries) = threads_of_records entries.
Proof.
  induction entries as [|[stem data] entries IH]; [reflexivity|].
  cbn [List.filter]. destruct (has_messages (stem, data)) eqn:Hm.
  - rewrite !threads_of_records_cons, IH. reflexivity.
  - rewrite threads_of_records_cons.
    rewrite (thread_of_record_has_messages _ Hm : thread_of_record stem data = None).
    exact IH.
Qed.

Lemma sorted_thread_files_filter (entries : list (pystr * thread_record)) :
  sorted_thread_files (List.filter has_messages entries)
  = List.filter has_messages (sorted_thread_files entries).
Proof.
  unfold sorted_thread_files. apply sort_by_filter.
  - intros a b. apply str_leb_total.
  - intros a b c. apply str_leb_trans.
Qed.

(** C3. A thread record whose message list is empty or absent is dropped
    before anything is built from it: the loop writes no page for it and
    appends no dictionary, so the list of threads that feeds the folder pages
    and the index holds the records with messages only, and the whole export
    is the export of the store without such records. *)
Theorem empty_threads_dropped (forum_title : pystr) (st : store)
    (clock : nat -> datetime) (tr : tree) :
  main forum_title st clock tr
  = main forum_title (drop_empty_records st) clock tr
  /\ (forall stem data profile_lookup files_dir tr0,
        rec_messages data = None \/ rec_messages data = Some [] ->
        thread_of_record stem data = None
        /\ export_thread forum_title profile_lookup files_dir stem data tr0
           = (Done None, tr0))
  /\ (forall entries profile_lookup files_dir tr0 tr1 threads,
        export_threads forum_title profile_lookup files_dir entries tr0
        = (Done threads, tr1) ->
        threads = threads_of_records (List.filter has_messages entries)
        /\ Forall (fun t => 1 <= t_message_count t) threads).
Proof.
  split; [|split].
  - unfold main, drop_empty_records. cbn [store_threads store_profiles store_files].
    destruct (store_threads st) as [entries|]; [|reflexivity].
    cbn [fmap option_fmap option_map]. unfold mbind, io_bind.
    destruct (write_text _ _ tr) as [[[]|e] tr1]; [|reflexivity].
    rewrite sorted_thread_files_filter, <- export_threads_filter. reflexivity.
  - intros stem data profile_lookup files_dir tr0 H.
    apply processed_messages_empty in H. split.
    + apply thread_of_record_empty. exact H.
    + apply export_thread_empty. exact H.
  - intros entries profile_lookup files_dir tr0 tr1 threads H.
    apply export_threads_result in H. subst threads.
    rewrite threads_of_records_filter. split; [reflexivity|].
    unfold threads_of_records. apply List.Forall_forall. intros t Ht.
    apply list_elem_of_In, list_elem_of_omap in Ht as ([stem data] & _ & Ht).
    destruct (thread_of_record_count _ _ _ Ht) as [Hc Hl]. rewrite Hc. lia.
Qed.

(** ** The export driver: folders and their pages *)

Lemma write_text_done (path text : pystr) (tr tr' : tree) :
  write_text path text tr = (Done tt, tr') ->
  exists data, utf8_encode text = Some data /\ tr' = <[path := data]> tr.
Proof.
  unfold write_text. destruct (utf8_encode text) as [data|].
  - intros H. injection H as <-. exists data. split; reflexivity.
  - discriminate.
Qed.

Lemma folder_page_path_inj (f g : folder) :
  folder_page_path f = folder_page_path g -> f_slug f = f_slug g.
Proof.
  unfold folder_page_path. intros H.
  apply app_inv_head, app_inv_tail in H. exact H.
Qed.

(** Pages written to other paths leave a path as it is. *)
Lemma write_folder_pages_other (forum_title : pystr) (clock : nat -> datetime)
    (sections : list folder) (k : nat) (tr tr' : tree) (path : pystr) :
  write_folder_pages forum_title clock k sections tr = (Done tt, tr') ->
  (forall h, h ∈ sections -> folder_page_path h <> path) ->
  tr' !! path = tr !! path.
Proof.
  revert k tr. induction sections as [|f rest IH]; intros k tr H Hother.
  - cbn in H. injection H as <-. reflexivity.
  - cbn [write_folder_pages] in H. unfold mbind, io_bind in H.
    destruct (write_text _ _ tr) as [[[]|e] tr1] eqn:Hw; [|discriminate].
    apply write_text_done in Hw as (data & _ & ->).
    rewrite (IH _ _ H) by (intros h Hh; apply Hother; right; exact Hh).
    apply lookup_insert_ne. apply Hother. left.
Qed.

(** The page of a path is the one written last. *)
Lemma write_folder_pages_last (forum_title : pystr) (clock : nat -> datetime)
    (l1 l2 : list folder) (g : folder) (k : nat) (tr tr' : tree) :
  write_folder_pages forum_title clock k (l1 ++ g :: l2) tr = (Done tt, tr') ->
  (forall h, h ∈ l2 -> f_slug h <> f_slug g) ->
  tr' !! folder_page_path g
  = utf8_encode (render_folder_html forum_title g (clock (k + length l1)%nat)).
Proof.
  revert k tr. induction l1 as [|f l1 IH]; intros k tr H Hl2.
  - cbn [app write_folder_pages] in H. unfold mbind, io_bind in H.
    destruct (write_text _ _ tr) as [[[]|e] tr1] eqn:Hw; [|discriminate].
    apply write_text_done in Hw as (data & Hdata & ->).
    rewrite (write_folder_pages_other _ _ _ _ _ _ _ H).
    + rewrite lookup_insert_eq, Nat.add_0_r. symmetry. exact Hdata.
    + intros h Hh E. apply (Hl2 h Hh). apply folder_page_path_inj. exact E.
  - cbn [app write_folder_pages] in H. unfold mbind, io_bind in H.
    destruct (write_text _ _ tr) as [[[]|e] tr1] eqn:Hw; [|discriminate].
    rewrite (IH _ _ H Hl2). cbn [length].
    replace (S k + length l1)%nat with (k + S (length l1))%nat by lia. reflexivity.
Qed.

Lemma slugify_nonempty (value : pystr) : is_empty (slugify value) = false.
Proof.
  unfold slugify. destruct (is_empty value); [reflexivity|]. cbv zeta.
  destruct (is_empty (str_strip_chars _ _)) eqn:E; [reflexivity|exact E].
Qed.

Lemma thread_of_record_built (stem : pystr) (data : thread_record) (t : thread) :
  thread_of_record stem data = Some t -> built_thread t.
Proof.
  unfold thread_of_record. destruct (processed_messages data) as [|m ms]; [discriminate|].
  cbv zeta. intros H. injection H as <-.
  unfold built_thread, folder_slug_of, folder_name_of.
  cbn [t_folder t_folder_slug].
  set (name := or_default (md_folder _) _).
  assert (is_empty name = false) as Hne.
  { subst name. unfold or_default. destruct (md_folder _) as [[|c s]|]; reflexivity. }
  rewrite Hne, slugify_nonempty. split; reflexivity.
Qed.

Lemma add_to_bucket_names (name slug : pystr) (t : thread) (folders : list folder) :
  map f_name (add_to_bucket name slug t folders)
  = if bool_decide (name ∈ map f_name folders) then map f_name folders
    else map f_name folders ++ [name].
Proof.
  induction folders as [|f rest IH]; [reflexivity|].
  cbn [add_to_bucket map]. unfold str_eqb.
  destruct (decide (f_name f = name)) as [Hf|Hf].
  - rewrite (bool_decide_eq_true_2 (f_name f = name) Hf). subst name.
    rewrite bool_decide_eq_true_2 by left. reflexivity.
  - rewrite (bool_decide_eq_false_2 (f_name f = name) Hf).
    cbn [map]. rewrite IH. case_bool_decide as Hin.
    + rewrite bool_decide_eq_true_2 by (right; exact Hin). reflexivity.
    + rewrite bool_decide_eq_false_2; [reflexivity|].
      intros Hin'. apply elem_of_cons in Hin' as [E|E]; [congruence|contradiction].
Qed.

Lemma add_to_bucket_elem (name slug : pystr) (t : thread) (folders : list folder)
    (f : folder) :
  f ∈ add_to_bucket name slug t folders ->
  f ∈ folders
  \/ (exists g, g ∈ folders /\ f_name g = name
                /\ f = mk_folder (f_name g) (f_slug g) (f_threads g ++ [t]))
  \/ f = mk_folder name slug [t].
Proof.
  induction folders as [|g rest IH]; cbn [add_to_bucket]; intros H.
  - apply list_elem_of_singleton in H. right. right. exact H.
  - unfold str_eqb in H. destruct (decide (f_name g = name)) as [Hg|Hg].
    + rewrite (bool_decide_eq_true_2 _ Hg) in H.
      apply elem_of_cons in H as [->|H].
      * right. left. exists g. split; [left|]. split; [exact Hg|reflexivity].
      * left. right. exact H.
    + rewrite (bool_decide_eq_false_2 _ Hg) in H.
      apply elem_of_cons in H as [->|H]; [left; left|].
      destruct (IH H) as [H1|[(g' & Hg' & Hn & ->)| -> ]].
      * left. right. exact H1.
      * right. left. exists g'. split; [right; exact Hg'|]. split; [exact Hn|reflexivity].
      * right. right. reflexivity.
Qed.

Lemma add_thread_ok (folders : list folder) (t : thread) :
  buckets_ok folders -> built_thread t -> buckets_ok (add_thread folders t).
Proof.
  intros [Hnd Hf] [Hname Hslug]. unfold add_thread. split.
  - rewrite add_to_bucket_names. case_bool_decide as Hin; [exact Hnd|].
    apply NoDup_app. split; [exact Hnd|]. split; [|apply NoDup_singleton].
    intros x Hx Hx'. apply list_elem_of_singleton in Hx'. subst x. contradiction.
  - intros f Hin. apply add_to_bucket_elem in Hin as [Hin|[(g & Hg & Hn & ->)| -> ]].
    + exact (Hf f Hin).
    + destruct (Hf g Hg) as [Hs Ht]. cbn [f_slug f_name f_threads].
      split; [exact Hs|]. intros t' Ht'. apply elem_of_app in Ht' as [Ht'|Ht'].
      * exact (Ht t' Ht').
      * apply list_elem_of_singleton in Ht'. subst t'. congruence.
    + cbn [f_slug f_name f_threads]. split; [congruence|].
      intros t' Ht'. apply list_elem_of_singleton in Ht'. subst t'. congruence.
Qed.

Lemma assemble_folders_ok (threads : list thread) :
  Forall built_thread threads -> buckets_ok (assemble_folders threads).
Proof.
  unfold assemble_folders.
  assert (buckets_ok []) as Hnil.
  { split; [constructor|]. intros f Hf. inversion Hf. }
  revert Hnil. generalize (@nil folder) as acc.
  induction threads as [|t threads IH]; intros acc Hacc Hall; [exact Hacc|].
  inversion Hall as [|? ? Ht Hrest]; subst. cbn [foldl].
  apply IH; [|exact Hrest]. apply add_thread_ok; assumption.
Qed.

Lemma threads_of_records_built (entries : list (pystr * thread_record)) :
  Forall built_thread (threads_of_records entries).
Proof.
  apply List.Forall_forall. intros t Ht.
  apply list_elem_of_In, list_elem_of_omap in Ht as ([stem data] & _ & Ht).
  exact (thread_of_record_built _ _ _ Ht).
Qed.

Lemma sort_folder_threads_names (folders : list folder) :
  map f_name (map sort_folder_threads folders) = map f_name folders.
Proof.
  induction folders as [|f l IH]; [reflexivity|]. cbn [map]. rewrite IH. reflexivity.
Qed.

Lemma sections_of_records_ok (entries : list (pystr * thread_record)) :
  buckets_ok (sections_of_records entries).
Proof.
  unfold sections_of_records, folder_sections_of.
  pose proof (assemble_folders_ok _ (threads_of_records_built (sorted_thread_files entries)))
    as [Hnd Hf].
  set (folders := assemble_folders _) in *.
  assert (Permutation
            (sort_by (fun a b => str_leb (str_lower (f_name a)) (str_lower (f_name b)))
                     (map sort_folder_threads folders))
            (map sort_folder_threads folders)) as Hp by apply sort_by_perm.
  split.
  - rewrite Hp, sort_folder_threads_names. exact Hnd.
  - intros f Hin. rewrite Hp in Hin.
    apply list_elem_of_fmap in Hin as (g & -> & Hg). destruct (Hf g Hg) as [Hs Ht].
    cbn [sort_folder_threads f_slug f_name f_threads]. split; [exact Hs|].
    intros t Hin. apply Ht. unfold preview_order in Hin.
    rewrite sort_by_reverse_perm in Hin. exact Hin.
Qed.

(** C7 (as amended). Folders are kept apart by name, and their pages by
    slug. Every folder name has one bucket, which holds the threads of that
    name and no other, and whose slug is the slug of the name: two names with
    one slug are not told apart by a suffix, and no error is raised for them.
    Their pages go to one path, [folders/<slug>.html], one after the other in
    the order of the folder sections, so the file ends up as the page of the
    last section that has the slug: the pages written before are overwritten,
    and no threads are merged. *)
Theorem slug_collision_overwrites (forum_title : pystr) (st : store)
    (clock : nat -> datetime) (tr tr' : tree)
    (entries : list (pystr * thread_record)) :
  store_threads st = Some entries ->
  main forum_title st clock tr = (Done tt, tr') ->
  let sections := sections_of_records entries in
  NoDup (map f_name sections)
  /\ (forall f, f ∈ sections ->
        f_slug f = slugify (f_name f)
        /\ forall t, t ∈ f_threads f -> t_folder t = f_name f)
  /\ (forall l1 g l2,
        sections = l1 ++ g :: l2 ->
        (forall h, h ∈ l2 -> f_slug h <> f_slug g) ->
        tr' !! folder_page_path g
        = utf8_encode (render_folder_html forum_title g (clock (S (length l1))))).
Proof.
  intros Hst Hmain sections.
  destruct (sections_of_records_ok entries) as [Hnd Hf]. fold sections in Hnd, Hf.
  split; [exact Hnd|]. split; [exact Hf|].
  intros l1 g l2 Hsplit Hlast.
  unfold main in Hmain. rewrite Hst in Hmain. unfold mbind, io_bind in Hmain.
  destruct (write_text _ STYLE_CSS tr) as [[[]|e] tr1]; [|discriminate].
  destruct (export_threads _ _ _ _ tr1) as [[threads|e] tr2] eqn:Hthreads; [|discriminate].
  apply export_threads_result in Hthreads. subst threads.
  fold (sections_of_records entries) in Hmain. fold sections in Hmain.
  destruct (write_folder_pages _ _ _ sections tr2) as [[[]|e] tr3] eqn:Hpages; [|discriminate].
  apply write_text_done in Hmain as (data & _ & ->).
  rewrite lookup_insert_ne by (unfold folder_page_path; discriminate).
  rewrite Hsplit in Hpages.
  rewrite (write_folder_pages_last _ _ _ _ _ _ _ _ Hpages Hlast). reflexivity.
Qed.

(** ** Helpers for the pages *)

Lemma add_to_bucket_inhabited (name slug : pystr) (t : thread) (folders : list folder) :
  Forall (fun f => f_threads f <> []) folders ->
  Forall (fun f => f_threads f <> []) (add_to_bucket name slug t folders).
Proof.
  induction folders as [|f rest IH]; intros H; cbn [add_to_bucket].
  - constructor; [discriminate|constructor].
  - inversion H as [|? ? Hf Hrest]; subst. destruct (str_eqb (f_name f) name).
    + constructor; [|exact Hrest]. cbn [f_threads]. destruct (f_threads f); discriminate.
    + constructor; [exact Hf|apply IH; exact Hrest].
Qed.

Lemma foldl_add_thread_inhabited (threads : list thread) (acc : list folder) :
  Forall (fun f => f_threads f <> []) acc ->
  Forall (fun f => f_threads f <> []) (foldl add_thread acc threads).
Proof.
  revert acc. induction threads as [|t threads IH]; intros acc H; [exact H|].
  cbn [foldl]. apply IH. apply add_to_bucket_inhabited. exact H.
Qed.

Lemma Done_eq {A : Type} (a b : A) (tr tr' : tree) :
  (Done a, tr) = (Done b, tr') -> a = b /\ tr = tr'.
Proof. intros H. injection H as -> ->. split; reflexivity. Qed.

Lemma Some_eq {A : Type} (a b : A) : Some a = Some b -> a = b.
Proof. intros H. injection H as ->. reflexivity. Qed.

Lemma occurs_in_concat (m : pystr) (parts : list pystr) (p : pystr) :
  p ∈ parts -> occurs_in m p -> occurs_in m (concat parts).
Proof.
  intros Hin Hm. induction parts as [|q parts IH]; [inversion Hin|].
  cbn [concat]. apply elem_of_cons in Hin as [<-|Hin].
  - apply occurs_app_l. exact Hm.
  - apply occurs_app_r. apply IH. exact Hin.
Qed.

Lemma occurs_in_refl (m : pystr) : occurs_in m m.
Proof. exists [], []. rewrite app_nil_r. reflexivity. Qed.

Lemma occurs_in_concat_map {A : Type} (g : A -> pystr) (l : list A) (a : A) :
  a ∈ l -> occurs_in (g a) (concat (map g l)).
Proof.
  intros H. apply (occurs_in_concat _ _ (g a)); [|apply occurs_in_refl].
  apply list_elem_of_In, in_map, list_elem_of_In. exact H.
Qed.

(** Looks for a part of a text built by concatenation. *)
Ltac occurs_search base :=
  first
    [ base
    | apply occurs_app_l; solve [occurs_search base]
    | apply occurs_app_r; occurs_search base ].

Lemma bind_Done {A B : Type} (m : io A) (f : A -> io B) (tr tr' : tree) (b : B) :
  (m ≫= f) tr = (Done b, tr') ->
  exists a tr1, m tr = (Done a, tr1) /\ f a tr1 = (Done b, tr').
Proof.
  unfold mbind, io_bind. destruct (m tr) as [[a|e] tr1]; [eauto|discriminate].
Qed.

(** ** What the pages hold *)

Lemma occurs_prefix3 (a b c rest : pystr) :
  occurs_in (a ++ b ++ c) (a ++ b ++ c ++ rest).
Proof. exists [], rest. rewrite <- !app_assoc. reflexivity. Qed.

Lemma occurs_in_trans (a b c : pystr) :
  occurs_in a b -> occurs_in b c -> occurs_in a c.
Proof.
  intros (x & y & ->) (u & v & ->). exists (u ++ x), (y ++ v).
  rewrite <- !app_assoc. reflexivity.
Qed.

(** The block of a folder on the index holds the cards of the first threads
    of the folder, in the order of the folder, and of no other. *)
Lemma index_section_block (f : folder) :
  f_threads f <> [] ->
  exists section,
    index_section f = Some section
    /\ occurs_in (tpl "<ul class=`thread-list`>"
                  ++ concat (map (fun t => render_thread_card t [])
                               (take INDEX_THREADS_PER_FOLDER (f_threads f)))
                  ++ lit "</ul>")
                 section.
Proof.
  intros Hne. unfold index_section. cbv zeta.
  rewrite bool_decide_eq_false_2 by exact Hne.
  eexists. split; [reflexivity|].
  occurs_search ltac:(apply occurs_prefix3).
Qed.

(** The index page holds the block of every folder section. *)
Lemma index_section_in_page (forum_title description : pystr)
    (sections : list folder) (now : datetime) (f : folder) (section : pystr) :
  f ∈ sections -> index_section f = Some section ->
  occurs_in section (render_index_html forum_title description sections now).
Proof.
  intros Hf Hs. unfold render_index_html. cbv zeta.
  assert (section ∈ omap index_section sections) as Hin
    by (apply list_elem_of_omap; exists f; split; assumption).
  rewrite bool_decide_eq_false_2 by (intros E; rewrite E in Hin; inversion Hin).
  assert (occurs_in section (concat (omap index_section sections))) as Hc
    by (exact (occurs_in_concat _ _ _ Hin (occurs_in_refl _))).
  occurs_search ltac:(exact Hc).
Qed.

(** A run that returns leaves the index page of the folder sections. *)
Lemma main_index_page (forum_title : pystr) (st : store)
    (clock : nat -> datetime) (tr tr' : tree)
    (entries : list (pystr * thread_record)) :
  store_threads st = Some entries ->
  main forum_title st clock tr = (Done tt, tr') ->
  tr' !! lit "index.html"
  = utf8_encode
      (render_index_html forum_title
         (lit "Offline snapshot generated from Delphi Forums scrape.")
         (sections_of_records entries) (clock O)).
Proof.
  intros Hst Hmain. unfold main in Hmain. rewrite Hst in Hmain.
  unfold mbind, io_bind in Hmain.
  destruct (write_text _ STYLE_CSS tr) as [[[]|e] tr1]; [|discriminate].
  destruct (export_threads _ _ _ _ tr1) as [[threads|e] tr2] eqn:Hthreads;
    [|discriminate].
  apply export_threads_result in Hthreads. subst threads.
  fold (sections_of_records entries) in Hmain.
  destruct (write_folder_pages _ _ _ _ tr2) as [[[]|e] tr3]; [|discriminate].
  apply write_text_done in Hmain as (bytes & Hbytes & ->).
  rewrite lookup_insert_eq. symmetry. exact Hbytes.
Qed.

(** The section of a folder of the run is the folder in preview order. *)
Lemma assembled_folder_section (entries : list (pystr * thread_record))
    (bucket : folder) :
  bucket ∈ assemble_folders (threads_of_records (sorted_thread_files entries)) ->
  sort_folder_threads bucket ∈ sections_of_records entries
  /\ f_threads bucket <> [].
Proof.
  intros H. split.
  - unfold sections_of_records, folder_sections_of.
    rewrite (sort_by_perm (A := folder)).
    apply list_elem_of_fmap. exists bucket. split; [reflexivity|exact H].
  - pose proof (foldl_add_thread_inhabited
                  (threads_of_records (sorted_thread_files entries)) []
                  (List.Forall_nil _)) as Hall.
    rewrite Forall_forall in Hall. exact (Hall bucket H).
Qed.

Lemma preview_order_nonempty (threads : list thread) :
  threads <> [] -> preview_order threads <> [].
Proof.
  intros Hne E. apply Hne. apply Permutation_nil.
  rewrite <- E. unfold preview_order. apply sort_by_reverse_perm.
Qed.

(** ** The two orders of a folder, on the pages *)

(** C4. The folder page lists the threads of a folder in ascending order of
    first date, a thread without first date counting as dated
    [datetime.max], the latest datetime there is, and threads of equal date in
    ascending order of identifier. The index preview holds the same threads
    in descending order of last date, a thread without last date counting as
    dated [datetime.min], the earliest datetime there is, and threads of
    equal date in descending order of identifier. So in the listing a thread
    without first date is followed by no thread dated before [datetime.max],
    and in the preview a thread without last date is followed by no thread
    dated after [datetime.min]. The listing is what the folder page holds;
    the preview is what [main] stores in the folder section, and the index
    page, which [main] writes to [index.html], holds in the block of the
    section the cards of the first six threads of the preview, in that
    order, and of no other. *)
Theorem folder_orderings (threads : list thread) :
  Permutation (listing_order threads) threads
  /\ StronglySorted listing_le (listing_order threads)
  /\ Permutation (preview_order threads) threads
  /\ StronglySorted preview_ge (preview_order threads)
  /\ (forall d, valid_datetime d = true ->
                dt_leb d datetime_max = true /\ dt_leb datetime_min d = true)
  /\ (forall l1 a l2 b l3 d,
        listing_order threads = l1 ++ a :: l2 ++ b :: l3 ->
        t_first_date a = None -> t_first_date b = Some d ->
        valid_datetime d = true -> d = datetime_max)
  /\ (forall l1 a l2 b l3 d,
        preview_order threads = l1 ++ a :: l2 ++ b :: l3 ->
        t_last_date a = None -> t_last_date b = Some d ->
        valid_datetime d = true -> d = datetime_min)
  /\ (forall forum_title name slug now,
        threads <> [] ->
        occurs_in (concat (map folder_row (listing_order threads)))
                  (render_folder_html forum_title (mk_folder name slug threads) now))
  /\ f_threads (sort_folder_threads (mk_folder [] [] threads))
     = preview_order threads
  /\ (forall forum_title description sections name slug now,
        threads <> [] ->
        mk_folder name slug (preview_order threads) ∈ sections ->
        occurs_in (tpl "<ul class=`thread-list`>"
                   ++ concat (map (fun t => render_thread_card t [])
                                (take INDEX_THREADS_PER_FOLDER
                                   (preview_order threads)))
                   ++ lit "</ul>")
                  (render_index_html forum_title description sections now))
  /\ (forall forum_title st clock tr tr' entries bucket,
        store_threads st = Some entries ->
        main forum_title st clock tr = (Done tt, tr') ->
        bucket ∈ assemble_folders
                   (threads_of_records (sorted_thread_files entries)) ->
        f_threads bucket = threads ->
        exists page,
          tr' !! lit "index.html" = utf8_encode page
          /\ page = render_index_html forum_title
                      (lit "Offline snapshot generated from Delphi Forums scrape.")
                      (sections_of_records entries) (clock O)
          /\ mk_folder (f_name bucket) (f_slug bucket) (preview_order threads)
             ∈ sections_of_records entries
          /\ occurs_in (tpl "<ul class=`thread-list`>"
                        ++ concat (map (fun t => render_thread_card t [])
                                     (take INDEX_THREADS_PER_FOLDER
                                        (preview_order threads)))
                        ++ lit "</ul>")
                       page).
Proof.
  assert (forall forum_title description sections name slug now,
             threads <> [] ->
             mk_folder name slug (preview_order threads) ∈ sections ->
             occurs_in (tpl "<ul class=`thread-list`>"
                        ++ concat (map (fun t => render_thread_card t [])
                                     (take INDEX_THREADS_PER_FOLDER
                                        (preview_order threads)))
                        ++ lit "</ul>")
                       (render_index_html forum_title description sections now))
    as Hindex.
  { intros forum_title description sections name slug now Hne Hin.
    destruct (index_section_block (mk_folder name slug (preview_order threads)))
      as (section & Hs & Hblock).
    { cbn [f_threads]. apply preview_order_nonempty. exact Hne. }
    cbn [f_threads] in Hblock.
    eapply occurs_in_trans; [exact Hblock|].
    exact (index_section_in_page _ _ _ _ _ _ Hin Hs). }
  split; [apply sort_by_perm|]. split; [apply listing_order_sorted|].
  split; [apply sort_by_reverse_perm|]. split; [apply preview_order_sorted|].
  split; [apply datetime_bounds|].
  split; [|split; [|split; [|split; [|split]]]].
  - intros l1 a l2 b l3 d Hl Ha Hb Hv.
    pose proof (listing_order_sorted threads) as Hs. rewrite Hl in Hs.
    apply StronglySorted_before in Hs. unfold listing_le in Hs.
    rewrite Ha, Hb in Hs. cbn [default from_option id] in Hs.
    destruct (datetime_bounds _ Hv) as [Hmax _].
    destruct Hs as [[Hle Hne]|[Heq _]]; [|congruence].
    apply dt_leb_antisym; assumption.
  - intros l1 a l2 b l3 d Hl Ha Hb Hv.
    pose proof (preview_order_sorted threads) as Hs. rewrite Hl in Hs.
    apply StronglySorted_before in Hs. unfold preview_ge in Hs.
    rewrite Ha, Hb in Hs. cbn [default from_option id] in Hs.
    destruct (datetime_bounds _ Hv) as [_ Hmin].
    destruct Hs as [[Hle Hne]|[Heq _]]; [|congruence].
    apply dt_leb_antisym; assumption.
  - intros forum_title name slug now Hne.
    unfold render_folder_html. cbv zeta. cbn [f_threads].
    rewrite bool_decide_eq_false_2 by exact Hne.
    rewrite <- ?app_assoc. find_occurrence.
  - reflexivity.
  - exact Hindex.
  - intros forum_title st clock tr tr' entries bucket Hst Hmain Hbucket Hthreads.
    destruct (assembled_folder_section _ _ Hbucket) as [Hsection Hne].
    unfold sort_folder_threads in Hsection. rewrite Hthreads in Hsection, Hne.
    eexists. split; [exact (main_index_page _ _ _ _ _ _ Hst Hmain)|].
    split; [reflexivity|]. split; [exact Hsection|].
    exact (Hindex _ _ _ _ _ _ Hne Hsection).
Qed.

(** ** Timestamps on the pages *)




(** The folder page holds the row of each thread of the folder. *)
Lemma folder_row_in_page (forum_title : pystr) (f : folder) (now : datetime)
    (t : thread) :
  t ∈ f_threads f ->
  occurs_in (folder_row t) (render_folder_html forum_title f now).
Proof.
  intros Ht. unfold render_folder_html. cbv zeta.
  rewrite bool_decide_eq_false_2 by (intros E; rewrite E in Ht; inversion Ht).
  assert (occurs_in (folder_row t)
            (concat (map folder_row (listing_order (f_threads f))))) as Hrow.
  { apply occurs_in_concat_map. unfold listing_order.
    rewrite (sort_by_perm (A := thread)). exact Ht. }
  occurs_search ltac:(exact Hrow).
Qed.





(** ** Slugs *)

Lemma occurs_in_elem (m l : pystr) (c : Z) : occurs_in m l -> c ∈ m -> c ∈ l.
Proof.
  intros (a & b & ->) Hc. apply elem_of_app. right. apply elem_of_app. left.
  exact Hc.
Qed.

Lemma runs_single_app (p : Z -> bool) (a b : pystr) :
  runs_single p (a ++ b) -> runs_single p a /\ runs_single p b.
Proof.
  induction a as [|c a IH]; [intros H; split; [exact I|exact H]|].
  cbn [app runs_single]. intros [H1 H2]. destruct (IH H2) as [Ha Hb].
  split; [|exact Hb]. split; [|exact Ha].
  intros Hc. specialize (H1 Hc). destruct a; [exact I|exact H1].
Qed.

(** [re.sub(CLASS+, c0, s)] leaves characters of the class one at a time
    when [c0] is of the class. *)
Lemma sub_runs_single (p : Z -> bool) (c0 : Z) (s : pystr) :
  p c0 = true ->
  (runs_single p (sub_runs p [c0] true s)
   /\ match sub_runs p [c0] true s with d :: _ => p d = false | [] => True end)
  /\ runs_single p (sub_runs p [c0] false s).
Proof.
  intros H0. induction s as [|c s [[IH1 IH2] IH3]]; [repeat split|].
  cbn [sub_runs]. destruct (p c) eqn:Hc.
  - rewrite app_nil_l. split; [split; assumption|].
    cbn [app runs_single]. split; [|exact IH1]. intros _. exact IH2.
  - cbn [runs_single]. split; [split; [|exact Hc]|]; (split; [congruence|exact IH3]).
Qed.

Lemma sub_runs_chars (p : Z -> bool) (c0 : Z) (inrun : bool) (s : pystr) :
  Forall (fun c => p c = false \/ c = c0) (sub_runs p [c0] inrun s).
Proof.
  revert inrun. induction s as [|c s IH]; intros inrun; [constructor|].
  cbn [sub_runs]. destruct (p c) eqn:Hc.
  - destruct inrun; cbn [app]; [apply IH|]. constructor; [right; reflexivity|apply IH].
  - constructor; [left; exact Hc|apply IH].
Qed.

(** A text whose characters of the class are single copies of [c0] is left
    as it is. *)
Lemma sub_runs_fixed (p : Z -> bool) (c0 : Z) (s : pystr) (inrun : bool) :
  (inrun = true -> match s with d :: _ => p d = false | [] => True end) ->
  runs_single p s ->
  Forall (fun c => p c = true -> c = c0) s ->
  sub_runs p [c0] inrun s = s.
Proof.
  revert inrun. induction s as [|c s IH]; intros inrun Hin Hr Hf; [reflexivity|].
  cbn [sub_runs]. cbn [runs_single] in Hr. destruct Hr as [Hc Hr].
  inversion Hf as [|? ? Hc0 Hf']; subst.
  destruct (p c) eqn:Hpc.
  - destruct inrun; [specialize (Hin eq_refl); congruence|].
    cbn [app]. rewrite (IH true); [|intros _; exact (Hc eq_refl)|exact Hr|exact Hf'].
    rewrite (Hc0 eq_refl). reflexivity.
  - rewrite (IH false); [reflexivity| |exact Hr|exact Hf']. discriminate.
Qed.

Lemma runs_single_no_pair (p : Z -> bool) (c0 : Z) (s : pystr) :
  p c0 = true -> runs_single p s -> ~ occurs_in [c0; c0] s.
Proof.
  intros H0 Hr (a & b & ->). apply runs_single_app in Hr as [_ Hr].
  cbn [app runs_single] in Hr. destruct Hr as [H _]. specialize (H H0). congruence.
Qed.

Lemma no_pair_runs_single (p : Z -> bool) (c0 : Z) (s : pystr) :
  Forall (fun c => p c = true -> c = c0) s ->
  ~ occurs_in [c0; c0] s -> runs_single p s.
Proof.
  induction s as [|c s IH]; intros Hf Hno; [exact I|].
  inversion Hf as [|? ? Hc Hf']; subst. cbn [runs_single]. split.
  - intros Hpc. destruct s as [|d s]; [exact I|].
    destruct (p d) eqn:Hpd; [|reflexivity]. exfalso. apply Hno.
    inversion Hf' as [|? ? Hd _]; subst.
    rewrite (Hc Hpc), (Hd Hpd). exists [], s. reflexivity.
  - apply IH; [exact Hf'|]. intros (a & b & ->). apply Hno.
    exists (c :: a), b. reflexivity.
Qed.

Lemma slug_class_hyphen : negb (is_slug_char 45) = true.
Proof. reflexivity. Qed.

Lemma mem_char_hyphen (c : Z) : mem_char (lit "-") c = false <-> c <> 45.
Proof.
  unfold mem_char. cbn [lit existsb]. rewrite orb_false_r.
  change (Z.of_N (N_of_ascii "-")) with 45. apply Z.eqb_neq.
Qed.

Lemma url_safe_slug_forum : url_safe_slug (lit "forum").
Proof.
  unfold url_safe_slug. split; [discriminate|]. split.
  - repeat constructor.
  - split; [discriminate|]. split; [discriminate|].
    intros H. pose proof (occurs_in_elem _ _ 45 H (list_elem_of_here _ _)) as Hin.
    apply list_elem_of_In in Hin. cbn in Hin.
    repeat (destruct Hin as [Hin|Hin]; [discriminate Hin|]). exact Hin.
Qed.

Lemma slugify_shaped (value : pystr) : url_safe_slug (slugify value).
Proof.
  unfold slugify. destruct (is_empty value); [apply url_safe_slug_forum|].
  cbv zeta. set (p := fun c => negb (is_slug_char c)).
  set (slug0 := sub_runs p (lit "-") false (str_lower value)).
  unfold str_strip_chars, strip_by.
  destruct (lstrip_by_suffix (mem_char (lit "-")) slug0) as (pre & Hpre & _).
  destruct (rstrip_by_prefix (mem_char (lit "-")) (lstrip_by (mem_char (lit "-")) slug0))
    as (suf & Hsuf & _).
  pose proof (lstrip_by_not_head (mem_char (lit "-")) slug0) as Hhead.
  remember (rstrip_by (mem_char (lit "-")) (lstrip_by (mem_char (lit "-")) slug0))
    as slug eqn:Eslug.
  destruct slug as [|c slug']; [apply url_safe_slug_forum|].
  cbn [is_empty]. set (slug := c :: slug') in *.
  assert (slug0 = pre ++ slug ++ suf) as Hcut.
  { rewrite Hpre at 1. rewrite Hsuf at 1. reflexivity. }
  assert (Forall (fun c => p c = false \/ c = 45) slug0) as Hchars
    by apply (sub_runs_chars p 45 false).
  assert (runs_single p slug0) as Hruns
    by apply (sub_runs_single p 45 (str_lower value) slug_class_hyphen).
  rewrite Hcut in Hchars, Hruns.
  apply Forall_app in Hchars as [_ Hchars]. apply Forall_app in Hchars as [Hchars _].
  apply runs_single_app in Hruns as [_ Hruns].
  apply runs_single_app in Hruns as [Hruns _].
  unfold url_safe_slug. split; [discriminate|]. split.
  - eapply Forall_impl; [exact Hchars|]. intros x [Hx| ->]; [left|right; reflexivity].
    unfold p in Hx. apply negb_false_iff in Hx. exact Hx.
  - split; [|split].
    + rewrite Hsuf in Hhead. cbn [slug app] in Hhead.
      cbn [slug head]. intros E. injection E as ->.
      apply mem_char_hyphen in Hhead. congruence.
    + intros E. apply last_Some in E as [r Hr]. rewrite Hr in Eslug.
      symmetry in Eslug.
      pose proof (rstrip_by_not_last _ _ _ _ Eslug) as Hl.
      apply mem_char_hyphen in Hl. congruence.
    + exact (runs_single_no_pair p 45 _ slug_class_hyphen Hruns).
Qed.

Lemma lower_at_ascii (f : nat -> pystr) (i : nat) (s : pystr) :
  Forall (fun c => is_slug_char c = true \/ c = 45) s -> lower_at f i s = s.
Proof.
  revert i. induction s as [|c s IH]; intros i H; [reflexivity|].
  inversion H as [|? ? Hc Hs]; subst. cbn [lower_at]. rewrite (IH _ Hs).
  assert ((c <? 128) = true /\ ascii_lower c = c) as [-> ->]; [|reflexivity].
  unfold is_slug_char, ascii_lower in *. destruct Hc as [Hc| ->]; [|split; reflexivity].
  apply orb_true_iff in Hc. rewrite !andb_true_iff, !Z.leb_le in Hc.
  split; [apply Z.ltb_lt; lia|].
  destruct ((65 <=? c) && (c <=? 90)) eqn:E; [|reflexivity].
  apply andb_true_iff in E. rewrite !Z.leb_le in E. lia.
Qed.

(** The slugs are the texts [slugify] leaves as they are. *)
Lemma slugify_fixed (s : pystr) : url_safe_slug s -> slugify s = s.
Proof.
  intros (Hne & Hchars & Hhead & Hlast & Hpair).
  unfold slugify. destruct s as [|c0 s0] eqn:Es; [congruence|].
  cbn [is_empty]. rewrite <- Es in *. cbv zeta.
  unfold str_lower. rewrite (lower_at_ascii _ _ _ Hchars).
  set (p := fun c => negb (is_slug_char c)).
  assert (Forall (fun c => p c = true -> c = 45) s) as Hcls.
  { eapply Forall_impl; [exact Hchars|]. intros x [Hx| ->] Hp; [|reflexivity].
    unfold p in Hp. rewrite Hx in Hp. discriminate. }
  change (sub_runs p (lit "-") false s) with (sub_runs p [45] false s).
  rewrite (sub_runs_fixed p 45 s false);
    [|discriminate|exact (no_pair_runs_single p 45 s Hcls Hpair)|exact Hcls].
  unfold str_strip_chars. rewrite strip_by_ends.
  - rewrite Es. reflexivity.
  - rewrite Es in Hhead |- *. cbn [head] in Hhead. apply mem_char_hyphen. congruence.
  - destruct (rev s) as [|c r] eqn:Er; [exact I|]. apply mem_char_hyphen.
    intros ->. apply Hlast. apply last_Some. exists (rev r).
    apply (f_equal (@rev Z)) in Er. rewrite rev_involutive in Er. exact Er.
Qed.

(** X1. Whatever the folder name, its slug can stand in a file
    name and in a URL: it is not empty, it is made of lower-case ASCII
    letters, digits and hyphens, it neither starts nor ends with a hyphen,
    and it holds no two hyphens in a row. *)
Theorem slugify_url_safe (value : pystr) : url_safe_slug (slugify value).
Proof. apply slugify_shaped. Qed.

(** X2. [slugify] is idempotent, and the texts it leaves as they
    are are the URL-safe slugs. *)
Theorem slugify_idempotent :
  (forall value, slugify (slugify value) = slugify value)
  /\ (forall s, url_safe_slug s <-> slugify s = s).
Proof.
  split.
  - intros value. apply slugify_fixed, slugify_shaped.
  - intros s. split; [apply slugify_fixed|].
    intros H. rewrite <- H. apply slugify_shaped.
Qed.

(** ** Hashed names *)

Lemma be_bytes_length (n : nat) (x : Z) : length (be_bytes n x) = n.
Proof.
  revert x. induction n as [|n IH]; intros x; [reflexivity|].
  cbn [be_bytes]. rewrite length_app, IH. cbn [length]. lia.
Qed.

Lemma be_bytes_range (n : nat) (x : Z) :
  Forall (fun b => 0 <= b < 256) (be_bytes n x).
Proof.
  revert x. induction n as [|n IH]; intros x; [constructor|].
  cbn [be_bytes]. apply Forall_app. split; [apply IH|].
  constructor; [|constructor].
  change 0xFF with (Z.ones 8). rewrite Z.land_ones by lia.
  apply Z.mod_pos_bound. reflexivity.
Qed.

(** A SHA-1 digest has twenty bytes. *)
Lemma sha1_digest_bytes (msg : pybytes) :
  length (sha1 msg) = 20%nat /\ Forall (fun b => 0 <= b < 256) (sha1 msg).
Proof.
  unfold sha1. cbv zeta.
  destruct (sha1_blocks _ sha1_init (sha1_pad msg)) as [[[[a b] c] d] e].
  split.
  - rewrite !length_app, !be_bytes_length. reflexivity.
  - rewrite !Forall_app. repeat split; apply be_bytes_range.
Qed.

Lemma hex_digit_is_hex (n : Z) : 0 <= n < 16 -> is_hex_digit (hex_digit n) = true.
Proof.
  intros H. unfold hex_digit, is_hex_digit.
  destruct (Z.ltb_spec n 10); apply orb_true_iff; [left|right];
    apply andb_true_iff; rewrite !Z.leb_le; lia.
Qed.

Lemma hex_of_bytes_digits (bs : pybytes) :
  Forall (fun b => 0 <= b < 256) bs ->
  length (hex_of_bytes bs) = (2 * length bs)%nat
  /\ Forall (fun c => is_hex_digit c = true) (hex_of_bytes bs).
Proof.
  induction bs as [|b bs IH]; intros H; [split; [reflexivity|constructor]|].
  inversion H as [|? ? Hb Hbs]; subst. destruct (IH Hbs) as [Hl Hd].
  unfold hex_of_bytes in *. cbn [flat_map app length]. split; [lia|].
  constructor; [|constructor; [|exact Hd]]; apply hex_digit_is_hex.
  - rewrite Z.shiftr_div_pow2 by lia. change (2 ^ 4) with 16.
    split; [apply Z.div_pos; lia|apply Z.div_lt_upper_bound; lia].
  - change 15 with (Z.ones 4). rewrite Z.land_ones by lia.
    apply Z.mod_pos_bound. reflexivity.
Qed.

Lemma sha1_hexdigest_digits (msg : pybytes) :
  length (sha1_hexdigest msg) = 40%nat
  /\ Forall (fun c => is_hex_digit c = true) (sha1_hexdigest msg).
Proof.
  destruct (sha1_digest_bytes msg) as [Hl Hr].
  destruct (hex_of_bytes_digits _ Hr) as [Hl' Hd]. unfold sha1_hexdigest.
  split; [rewrite Hl', Hl; reflexivity|exact Hd].
Qed.

Lemma is_extension_no_slash (e : pystr) : is_extension e -> 47 ∉ e.
Proof.
  intros (cs & -> & _ & Hf) Hin. apply elem_of_cons in Hin as [Hin|Hin]; [discriminate|].
  rewrite Forall_forall in Hf. specialize (Hf _ Hin). discriminate.
Qed.

(** X3. A hashed asset name is forty lower-case hexadecimal
    digits followed by nothing or by an extension (a dot and one to five
    characters); it holds no slash, so the file it names lies in the files
    directory itself. *)
Theorem hash_for_url_name_shape (u h : pystr) :
  hash_for_url u = Some h ->
  exists digest ext,
    h = digest ++ ext /\ length digest = 40%nat
    /\ Forall (fun c => is_hex_digit c = true) digest
    /\ (ext = [] \/ is_extension ext)
    /\ 47 ∉ h.
Proof.
  rewrite hash_for_url_code_split.
  destruct (utf8_encode (code_split u).1) as [data|]; [|discriminate].
  cbn [fmap option_fmap option_map]. intros H. injection H as <-.
  destruct (sha1_hexdigest_digits data) as [Hl Hd].
  assert ((code_split u).2 = [] \/ is_extension (code_split u).2) as He.
  { destruct (code_split_ext_split u) as [(t & _ & He & _)|(_ & He & _)];
      [right; exact He|left; exact He]. }
  exists (sha1_hexdigest data), (code_split u).2.
  split; [reflexivity|]. split; [exact Hl|]. split; [exact Hd|].
  split; [exact He|]. intros Hin. apply elem_of_app in Hin as [Hin|Hin].
  - rewrite Forall_forall in Hd. specialize (Hd _ Hin). discriminate.
  - destruct He as [He|He]; [rewrite He in Hin; inversion Hin|].
    exact (is_extension_no_slash _ He Hin).
Qed.

(** ** What the printed dates keep *)

Lemma folder_date_digits (d : datetime) :
  valid_datetime d = true ->
  format_folder_date (Some d)
  = [48 + month d / 10; 48 + month d mod 10; 47;
     48 + day d / 10; 48 + day d mod 10; 47;
     48 + year d / 1000; 48 + year d / 100 mod 10;
     48 + year d / 10 mod 10; 48 + year d mod 10].
Proof.
  intros Hv. destruct (valid_datetime_ranges d Hv) as (Hy & Hm & Hd & _).
  unfold format_folder_date.
  rewrite (fmt_0d_two (month d)), (fmt_0d_two (day d)), fmt_0d_four by lia.
  reflexivity.
Qed.

Lemma short_date_digits (d : datetime) :
  valid_datetime d = true ->
  format_date_short (Some d)
  = Some ((if month d <? 10 then [48 + month d]
           else [48 + month d / 10; 48 + month d mod 10])
          ++ [47; 48 + day d / 10; 48 + day d mod 10; 47;
              48 + year d mod 100 / 10; 48 + year d mod 100 mod 10]).
Proof.
  intros Hv. destruct (valid_datetime_ranges d Hv) as (Hy & Hm & Hd & _).
  unfold format_date_short.
  assert (0 <= year d mod 100 < 100) as Hyy by (apply Z.mod_pos_bound; lia).
  rewrite (fmt_0d_two (day d)), (fmt_0d_two (year d mod 100)) by lia.
  destruct (Z.ltb_spec (month d) 10).
  - rewrite str_of_int_1 by lia. reflexivity.
  - rewrite str_of_int_2 by lia. reflexivity.
Qed.

Lemma hour12_range (h : Z) : 0 <= h <= 23 -> 1 <= hour12 h <= 12.
Proof.
  forget_tables. intros H. unfold hour12. destruct (Z.eqb_spec (h mod 12) 0); [lia|].
  Z.to_euclidean_division_equations. lia.
Qed.

Lemma hour12_inj (h1 h2 : Z) :
  0 <= h1 <= 23 -> 0 <= h2 <= 23 ->
  hour12 h1 = hour12 h2 -> (h1 <? 12) = (h2 <? 12) -> h1 = h2.
Proof.
  forget_tables. intros H1 H2 H E. unfold hour12 in H.
  destruct (Z.eqb_spec (h1 mod 12) 0), (Z.eqb_spec (h2 mod 12) 0),
    (Z.ltb_spec h1 12), (Z.ltb_spec h2 12);
    try discriminate; Z.to_euclidean_division_equations; lia.
Qed.

Lemma time_component_digits (d : datetime) :
  valid_datetime d = true ->
  format_time_component d
  = (if hour12 (hour d) <? 10 then [48 + hour12 (hour d)]
     else [48 + hour12 (hour d) / 10; 48 + hour12 (hour d) mod 10])
    ++ [58; 48 + minute d / 10; 48 + minute d mod 10]
    ++ (if hour d <? 12 then [65; 77] else [80; 77]).
Proof.
  intros Hv. destruct (valid_datetime_ranges d Hv) as (_ & _ & _ & Hh & Hm).
  pose proof (hour12_range _ Hh) as H12.
  unfold format_time_component. cbv zeta.
  rewrite (fmt_0d_two (minute d)) by lia.
  assert (am_pm (hour d) = if hour d <? 12 then [65; 77] else [80; 77]) as ->
    by (unfold am_pm; destruct (hour d <? 12); reflexivity).
  destruct (Z.ltb_spec (hour12 (hour d)) 10).
  - rewrite str_of_int_1 by lia. reflexivity.
  - rewrite str_of_int_2 by lia. reflexivity.
Qed.

(** X4. The date of a folder row tells the day: two dates print
    the same text exactly when they agree in year, month and day, and no
    date prints the placeholder of an absent one. *)
Theorem format_folder_date_faithful (d1 d2 : datetime) :
  valid_datetime d1 = true -> valid_datetime d2 = true ->
  (format_folder_date (Some d1) = format_folder_date (Some d2)
   <-> year d1 = year d2 /\ month d1 = month d2 /\ day d1 = day d2)
  /\ format_folder_date (Some d1) <> format_folder_date None.
Proof.
  intros Hv1 Hv2.
  destruct (valid_datetime_ranges d1 Hv1) as (Hy1 & Hm1 & Hd1 & _).
  destruct (valid_datetime_ranges d2 Hv2) as (Hy2 & Hm2 & Hd2 & _).
  split; [split|].
  - rewrite (folder_date_digits d1 Hv1), (folder_date_digits d2 Hv2).
    intros H. injection H as M1 M2 D1 D2 Y1 Y2 Y3 Y4.
    forget_tables. clear Hv1 Hv2. Z.to_euclidean_division_equations. lia.
  - intros (Hy & Hm & Hd). unfold format_folder_date. rewrite Hy, Hm, Hd.
    reflexivity.
  - rewrite (folder_date_digits d1 Hv1). cbn [format_folder_date].
    change (lit "Unknown") with [85; 110; 107; 110; 111; 119; 110].
    intros H. apply (f_equal (@length Z)) in H. discriminate H.
Qed.

(** X5. The short date of a message header keeps the month and
    the day, and of the year its last two digits only: two dates print the
    same text exactly when they agree in month, in day and in the year
    modulo 100, so dates a century apart are not told apart. *)
Theorem format_date_short_century (d1 d2 : datetime) :
  valid_datetime d1 = true -> valid_datetime d2 = true ->
  (format_date_short (Some d1) = format_date_short (Some d2)
   <-> month d1 = month d2 /\ day d1 = day d2
       /\ year d1 mod 100 = year d2 mod 100).
Proof.
  intros Hv1 Hv2.
  destruct (valid_datetime_ranges d1 Hv1) as (Hy1 & Hm1 & Hd1 & _).
  destruct (valid_datetime_ranges d2 Hv2) as (Hy2 & Hm2 & Hd2 & _).
  split.
  - rewrite (short_date_digits d1 Hv1), (short_date_digits d2 Hv2).
    assert (0 <= year d1 mod 100 < 100) as Hyy1 by (apply Z.mod_pos_bound; lia).
    assert (0 <= year d2 mod 100 < 100) as Hyy2 by (apply Z.mod_pos_bound; lia).
    generalize dependent (year d1 mod 100). generalize dependent (year d2 mod 100).
    intros y2 Hyy2 y1 Hyy1.
    destruct (Z.ltb_spec (month d1) 10) as [L1|L1],
      (Z.ltb_spec (month d2) 10) as [L2|L2];
      cbn [app]; intros E; first [discriminate E|injection E; intros];
      forget_tables; clear Hv1 Hv2; Z.to_euclidean_division_equations; lia.
  - intros (Hm & Hd & Hy). unfold format_date_short. rewrite Hm, Hd, Hy.
    reflexivity.
Qed.

(** X6. The time of a message header tells the hour and
    the minute of the day, and nothing of the seconds: two times print the
    same text exactly when they agree in hour and minute. *)
Theorem format_time_component_faithful (d1 d2 : datetime) :
  valid_datetime d1 = true -> valid_datetime d2 = true ->
  (format_time_component d1 = format_time_component d2
   <-> hour d1 = hour d2 /\ minute d1 = minute d2).
Proof.
  intros Hv1 Hv2.
  destruct (valid_datetime_ranges d1 Hv1) as (_ & _ & _ & Hh1 & Hm1).
  destruct (valid_datetime_ranges d2 Hv2) as (_ & _ & _ & Hh2 & Hm2).
  split.
  - rewrite (time_component_digits d1 Hv1), (time_component_digits d2 Hv2).
    pose proof (hour12_range _ Hh1) as R1. pose proof (hour12_range _ Hh2) as R2.
    pose proof (hour12_inj _ _ Hh1 Hh2) as Hinj.
    generalize dependent (hour12 (hour d1)). generalize dependent (hour12 (hour d2)).
    intros a2 R2 a1 R1 Hinj.
    assert (a1 = a2 -> (hour d1 <? 12) = (hour d2 <? 12) ->
            minute d1 / 10 = minute d2 / 10 -> minute d1 mod 10 = minute d2 mod 10 ->
            hour d1 = hour d2 /\ minute d1 = minute d2) as Hfin.
    { intros Ha Hp M1 M2. split; [apply Hinj; assumption|].
      forget_tables. clear Hv1 Hv2 Hinj. Z.to_euclidean_division_equations. lia. }
    destruct (Z.ltb_spec a1 10) as [L1|L1], (Z.ltb_spec a2 10) as [L2|L2],
      (hour d1 <? 12) eqn:P1, (hour d2 <? 12) eqn:P2;
      cbn [app]; intros E; try discriminate E; injection E; intros;
      first [ apply Hfin; [|reflexivity| |]; forget_tables; clear Hv1 Hv2 Hinj Hfin;
              Z.to_euclidean_division_equations; lia
            | exfalso; forget_tables; clear Hv1 Hv2 Hinj Hfin;
              Z.to_euclidean_division_equations; lia ].
  - intros (Hh & Hm). unfold format_time_component. rewrite Hh, Hm. reflexivity.
Qed.

(** ** The log of a run *)

Lemma run_ops_app (ops1 ops2 : list tree_op) (tr : tree) :
  run_ops (ops1 ++ ops2) tr = run_ops ops2 (run_ops ops1 tr).
Proof. unfold run_ops. apply foldl_app. Qed.

Lemma run_op_lookup (tr : tree) (o : tree_op) (k : pystr) :
  run_op tr o !! k = key_step k (tr !! k) o.
Proof.
  destruct o as [path data|path data]; cbn [run_op key_step].
  - case_bool_decide as E; [subst; apply lookup_insert_eq|].
    apply lookup_insert_ne. exact E.
  - destruct (tr !! path) as [old|] eqn:Hold.
    + case_bool_decide as E; [subst; rewrite Hold|]; reflexivity.
    + case_bool_decide as E; [subst; rewrite Hold; apply lookup_insert_eq|].
      apply lookup_insert_ne. exact E.
Qed.

Lemma run_ops_lookup (ops : list tree_op) (tr : tree) (k : pystr) :
  run_ops ops tr !! k = foldl (key_step k) (tr !! k) ops.
Proof.
  revert tr. induction ops as [|o ops IH]; intros tr; [reflexivity|].
  cbn [run_ops foldl]. fold (run_ops ops (run_op tr o)).
  rewrite IH, run_op_lookup. reflexivity.
Qed.

Lemma key_run_present (k : pystr) (ops : list tree_op) (z : pybytes) :
  exists y, foldl (key_step k) (Some z) ops = Some y.
Proof.
  revert z. induction ops as [|o ops IH]; intros z; [eexists; reflexivity|].
  cbn [foldl]. destruct o as [path data|path data]; cbn [key_step];
    case_bool_decide; apply IH.
Qed.

Lemma key_run_settled (k : pystr) (ops : list tree_op) (z y : pybytes) :
  foldl (key_step k) (Some z) ops = Some y ->
  foldl (key_step k) (Some y) ops = Some y.
Proof.
  revert z. induction ops as [|o ops IH]; intros z H; [reflexivity|].
  cbn [foldl] in *. destruct o as [path data|path data]; cbn [key_step] in *;
    case_bool_decide; eauto.
Qed.

Lemma key_run_idem (k : pystr) (ops : list tree_op) (x : option pybytes) :
  foldl (key_step k) (foldl (key_step k) x ops) ops = foldl (key_step k) x ops.
Proof.
  revert x. induction ops as [|o ops IH]; intros x; [reflexivity|].
  cbn [foldl]. destruct o as [path data|path data]; cbn [key_step].
  - case_bool_decide; [reflexivity|apply IH].
  - case_bool_decide; [|apply IH].
    set (x1 := match x with Some _ => x | None => Some data end).
    assert (exists z, x1 = Some z) as [z Hz]
      by (subst x1; destruct x; eexists; reflexivity).
    rewrite Hz. destruct (key_run_present k ops z) as [y Hy]. rewrite Hy.
    exact (key_run_settled _ _ _ _ Hy).
Qed.

(** Doing a log twice is doing it once. *)
Lemma run_ops_idem (ops : list tree_op) (tr : tree) :
  run_ops ops (run_ops ops tr) = run_ops ops tr.
Proof.
  apply map_eq. intros k. rewrite !run_ops_lookup. apply key_run_idem.
Qed.

(** A file stays as it is when no operation names it. *)
Lemma key_run_other (k : pystr) (ops : list tree_op) (x : option pybytes) :
  Forall (fun o => op_path o <> k) ops -> foldl (key_step k) x ops = x.
Proof.
  revert x. induction ops as [|o ops IH]; intros x H; [reflexivity|].
  inversion H as [|? ? Ho Hops]; subst. cbn [foldl].
  destruct o as [path data|path data]; cbn [key_step op_path] in *;
    rewrite bool_decide_eq_false_2 by exact Ho; apply IH; exact Hops.
Qed.

(** A file that is there stays there. *)
Lemma run_ops_present (ops : list tree_op) (tr : tree) (k : pystr) :
  is_Some (tr !! k) -> is_Some (run_ops ops tr !! k).
Proof.
  intros [z Hz]. rewrite run_ops_lookup, Hz.
  destruct (key_run_present k ops z) as [y Hy]. exists y. exact Hy.
Qed.

(** Copies leave a file that is there as it is, and a file they bring is
    the content of one of them. *)
Lemma key_run_copies (k : pystr) (ops : list tree_op) (x : option pybytes) :
  Forall (fun o => exists path data, o = Copy path data) ops ->
  match x with
  | Some z => foldl (key_step k) x ops = Some z
  | None =>
      foldl (key_step k) x ops = None
      \/ exists data, Copy k data ∈ ops /\ foldl (key_step k) x ops = Some data
  end.
Proof.
  revert x. induction ops as [|o ops IH]; intros x H.
  - destruct x; [reflexivity|left; reflexivity].
  - inversion H as [|? ? (path & data & ->) Hops]; subst. cbn [foldl key_step].
    case_bool_decide as E.
    + subst path. destruct x as [z|].
      * exact (IH (Some z) Hops).
      * right. exists data. split; [left|]. exact (IH (Some data) Hops).
    + specialize (IH x Hops). destruct x as [z|]; [exact IH|].
      destruct IH as [IH|(d & Hd & IH)]; [left; exact IH|].
      right. exists d. split; [right; exact Hd|exact IH].
Qed.

(** A file that changes is named by an operation. *)
Lemma run_ops_changed (ops : list tree_op) (tr : tree) (k : pystr) :
  run_ops ops tr !! k <> tr !! k -> exists o, o ∈ ops /\ op_path o = k.
Proof.
  intros H. destruct (decide (Exists (fun o => op_path o = k) ops)) as [Hex|Hno].
  - apply Exists_exists in Hex. exact Hex.
  - exfalso. apply H. rewrite run_ops_lookup. apply key_run_other.
    apply Forall_forall. intros o Ho E. apply Hno. apply Exists_exists.
    exists o. split; assumption.
Qed.

(** *** Logs of the monad *)

Lemma logged_ret {A : Type} (a : A) : logged (mret a) (Done a) [].
Proof. intros tr. reflexivity. Qed.

Lemma logged_raise {A : Type} (e : exn) : logged (@raise A e) (Raised e) [].
Proof. intros tr. reflexivity. Qed.

Lemma logged_bind {A B : Type} (m : io A) (f : A -> io B) (a : A)
    (ops1 ops2 : list tree_op) (r : outcome B) :
  logged m (Done a) ops1 -> logged (f a) r ops2 ->
  logged (m ≫= f) r (ops1 ++ ops2).
Proof.
  intros H1 H2 tr. unfold mbind, io_bind. rewrite (H1 tr), (H2 _), run_ops_app.
  reflexivity.
Qed.

Lemma logged_bind_raised {A B : Type} (m : io A) (f : A -> io B) (e : exn)
    (ops : list tree_op) :
  logged m (Raised e) ops -> logged (m ≫= f) (Raised e) ops.
Proof. intros H tr. unfold mbind, io_bind. rewrite (H tr). reflexivity. Qed.

Lemma logs_ret {A : Type} (P : tree_op -> Prop) (E : exn -> Prop)
    (Q : A -> Prop) (a : A) :
  Q a -> logs P E Q (mret a).
Proof.
  intros HQ. exists (Done a), []. split; [apply logged_ret|].
  split; [constructor|exact HQ].
Qed.

Lemma logs_raise {A : Type} (P : tree_op -> Prop) (E : exn -> Prop)
    (Q : A -> Prop) (e : exn) :
  E e -> logs P E Q (raise e).
Proof.
  intros He. exists (Raised e), []. split; [apply logged_raise|].
  split; [constructor|exact He].
Qed.

Lemma logs_bind {A B : Type} (P : tree_op -> Prop) (E : exn -> Prop)
    (Q1 : A -> Prop) (Q2 : B -> Prop) (m : io A) (f : A -> io B) :
  logs P E Q1 m -> (forall a, Q1 a -> logs P E Q2 (f a)) -> logs P E Q2 (m ≫= f).
Proof.
  intros (r & ops & Hm & HP & Hr) Hf. destruct r as [a|e].
  - destruct (Hf a Hr) as (r2 & ops2 & Hfa & HP2 & Hr2).
    exists r2, (ops ++ ops2). split; [exact (logged_bind _ _ _ _ _ _ Hm Hfa)|].
    split; [apply Forall_app; split; assumption|exact Hr2].
  - exists (Raised e), ops. split; [exact (logged_bind_raised _ _ _ _ Hm)|].
    split; [exact HP|exact Hr].
Qed.

Lemma logs_weaken {A : Type} (P P' : tree_op -> Prop) (E E' : exn -> Prop)
    (Q Q' : A -> Prop) (m : io A) :
  (forall o, P o -> P' o) -> (forall e, E e -> E' e) -> (forall a, Q a -> Q' a) ->
  logs P E Q m -> logs P' E' Q' m.
Proof.
  intros HP HE HQ (r & ops & Hm & Hops & Hr). exists r, ops. split; [exact Hm|].
  split; [eapply Forall_impl; eassumption|].
  destruct r; [apply HQ|apply HE]; exact Hr.
Qed.

Lemma logs_mapM {A B : Type} (P : tree_op -> Prop) (E : exn -> Prop)
    (R : A -> B -> Prop) (f : A -> io B) (l : list A) :
  (forall a, a ∈ l -> logs P E (R a) (f a)) ->
  logs P E (fun bs => Forall2 R l bs) (mapM f l).
Proof.
  induction l as [|x l IH]; intros H; [apply logs_ret; constructor|].
  change (mapM f (x :: l)) with (y ← f x; k ← mapM f l; mret (y :: k)).
  eapply logs_bind; [apply H; left|]. intros y Hy.
  eapply logs_bind; [apply IH; intros a Ha; apply H; right; exact Ha|].
  intros k Hk. apply logs_ret. constructor; assumption.
Qed.

(** The outcome of an action that has a log. *)
Lemma logs_run {A : Type} (P : tree_op -> Prop) (E : exn -> Prop)
    (Q : A -> Prop) (m : io A) (tr : tree) :
  logs P E Q m ->
  exists ops, (m tr).2 = run_ops ops tr /\ Forall P ops
              /\ match (m tr).1 with Done a => Q a | Raised e => E e end.
Proof.
  intros (r & ops & Hm & HP & Hr). exists ops. rewrite (Hm tr). cbn [fst snd].
  split; [reflexivity|]. split; assumption.
Qed.

(** *** Logs of the exporter *)

Lemma logs_write_text (P : tree_op -> Prop) (E : exn -> Prop) (path text : pystr) :
  (forall data, P (Write path data)) -> E UnicodeEncodeError ->
  logs P E (fun _ => is_Some (utf8_encode text)) (write_text path text).
Proof.
  intros HP HE. unfold write_text. destruct (utf8_encode text) as [data|].
  - exists (Done tt), [Write path data]. split; [intros tr; reflexivity|].
    split; [constructor; [apply HP|constructor]|eauto].
  - exists (Raised UnicodeEncodeError), [Write path []].
    split; [intros tr; reflexivity|].
    split; [constructor; [apply HP|constructor]|exact HE].
Qed.

(** The asset copier: its only operation is the copy of the file of the
    store, it raises nothing but the encoding error of the name, and what it
    returns is the path of a file of the store. *)
Lemma logs_ensure_local_asset (url : option pystr)
    (store_files : gmap pystr pybytes) (export_files : pystr) :
  logs (asset_copy store_files export_files) (fun e => e = UnicodeEncodeError)
       (fun local =>
          match local with
          | Some path =>
              truthy url = true
              /\ exists h, hash_for_url (default [] url) = Some h
                           /\ is_Some (store_files !! h)
                           /\ path = lit "files/" ++ h
          | None =>
              truthy url = false
              \/ exists h, hash_for_url (default [] url) = Some h
                           /\ store_files !! h = None
          end)
       (ensure_local_asset url store_files export_files).
Proof.
  unfold ensure_local_asset. destruct (truthy url) eqn:Hu;
    [|apply logs_ret; left; reflexivity].
  cbn [negb]. destruct (hash_for_url (default [] url)) as [h|];
    [|apply logs_raise; reflexivity].
  destruct (store_files !! h) as [data|] eqn:Hs;
    [|apply logs_ret; right; exists h; split; [reflexivity|exact Hs]].
  exists (Done (Some (lit "files/" ++ h))), [Copy (export_files ++ lit "/" ++ h) data].
  split; [|split].
  - intros tr. unfold exists_in_tree, get_tree, put_file, mbind, io_bind, mret, io_ret.
    cbn [run_ops foldl run_op].
    destruct (tr !! (export_files ++ lit "/" ++ h)) as [old|] eqn:E.
    + rewrite bool_decide_eq_true_2 by eauto. reflexivity.
    + rewrite bool_decide_eq_false_2 by (intros [? ?]; discriminate). reflexivity.
  - constructor; [|constructor]. exists h, data. split; [reflexivity|exact Hs].
  - split; [reflexivity|]. exists h. rewrite Hs. repeat split; eauto.
Qed.

(** ** Messages: what rendering does to the tree and when it fails *)

Lemma logs_escape_opt (P : tree_op -> Prop) (E : exn -> Prop) (Q : pystr -> Prop)
    (x : option pystr) :
  (forall s, x = Some s -> Q (html_escape s)) -> (x = None -> E AttributeError) ->
  logs P E Q (escape_opt x).
Proof.
  intros HQ HE. destruct x as [s|]; cbn [escape_opt].
  - apply logs_ret. apply HQ. reflexivity.
  - apply logs_raise. apply HE. reflexivity.
Qed.

Lemma truthy_Some (x : option pystr) : truthy x = true -> exists s, x = Some s.
Proof. destruct x as [s|]; [eauto|discriminate]. Qed.

(** An attachment is rendered only when it has an [href]. *)
Lemma logs_render_attachment (store_files : gmap pystr pybytes)
    (export_files : pystr) (a : attachment) :
  logs (asset_copy store_files export_files)
       (fun e => e = UnicodeEncodeError \/ (e = AttributeError /\ att_href a = None))
       (fun _ => att_href a <> None)
       (render_attachment store_files export_files a).
Proof.
  unfold render_attachment. cbv zeta.
  eapply logs_bind.
  { eapply logs_weaken; [| | |apply logs_ensure_local_asset];
      [intros o Ho; exact Ho|intros e ->; left; reflexivity|intros local H; exact H]. }
  intros local Hlocal.
  eapply logs_bind with (Q1 := fun _ => True).
  { apply logs_escape_opt; [intros; exact I|].
    destruct (truthy (att_name a)) eqn:Hn.
    - intros Hnone. apply truthy_Some in Hn as [s Hs]. congruence.
    - intros Hnone. right. split; [reflexivity|exact Hnone]. }
  intros label_text _. destruct (truthy local) eqn:Hl.
  - apply logs_ret. apply truthy_Some in Hl as [path ->].
    destruct Hlocal as [Hu _]. apply truthy_Some in Hu as [s Hs]. congruence.
  - eapply logs_bind with (Q1 := fun _ => att_href a <> None).
    + apply logs_escape_opt; [intros s Hs; congruence|].
      intros Hnone. right. split; [reflexivity|exact Hnone].
    + intros target Hhref. apply logs_ret. exact Hhref.
Qed.

Lemma logs_rewrite_images (store_files : gmap pystr pybytes)
    (export_files : pystr) (images : list pystr) (content_html : pystr) :
  logs (asset_copy store_files export_files) (fun e => e = UnicodeEncodeError)
       (fun _ => True)
       (rewrite_images store_files export_files images content_html).
Proof.
  revert content_html. induction images as [|image_url rest IH]; intros content_html.
  - apply logs_ret. exact I.
  - cbn [rewrite_images]. eapply logs_bind.
    + eapply logs_weaken; [| | |apply logs_ensure_local_asset];
        [intros o Ho; exact Ho|intros e He; exact He|intros local H; exact H].
    + intros local _. apply IH.
Qed.

Lemma logs_render_message (profile_lookup : gmap pystr (gmap pystr pystr))
    (store_files : gmap pystr pybytes) (export_files : pystr)
    (total index : nat) (msg : message) :
  logs (asset_copy store_files export_files)
       (messages_failure [msg])
       (fun _ => ~ lacks_href [msg])
       (render_message profile_lookup store_files export_files total index msg).
Proof.
  unfold render_message. cbv zeta.
  eapply logs_bind.
  { eapply logs_weaken;
      [| | |apply (logs_mapM _ _ (fun a _ => att_href a <> None)
                     (render_attachment store_files export_files)
                     (msg_attachments msg));
            intros a Ha; eapply logs_weaken;
            [| | |apply logs_render_attachment]].
    - intros o Ho. exact Ho.
    - intros e He. exact He.
    - intros items H. exact H.
    - intros o Ho. exact Ho.
    - intros e [->|[-> Hnone]]; [left; reflexivity|]. right. split; [reflexivity|].
      exists msg, a. split; [left|]. split; [exact Ha|exact Hnone].
    - intros item H. exact H. }
  intros items Hitems. eapply logs_bind.
  { eapply logs_weaken; [| | |apply logs_rewrite_images];
      [intros o Ho; exact Ho|intros e ->; left; reflexivity|intros c H; exact H]. }
  intros content _. apply logs_ret.
  intros (m & a & Hm & Ha & Hnone). apply list_elem_of_singleton in Hm. subst m.
  apply list_elem_of_lookup in Ha as [i Hi].
  destruct (Forall2_lookup_l _ _ _ _ _ Hitems Hi) as (item & _ & Hhref).
  contradiction.
Qed.

Lemma lacks_href_cons (msg : message) (rest : list message) :
  lacks_href (msg :: rest) <-> lacks_href [msg] \/ lacks_href rest.
Proof.
  split.
  - intros (m & a & Hm & Ha & Hnone). apply elem_of_cons in Hm as [->|Hm].
    + left. exists msg, a. split; [left|]. split; assumption.
    + right. exists m, a. split; [exact Hm|]. split; assumption.
  - intros [(m & a & Hm & Ha & Hnone)|(m & a & Hm & Ha & Hnone)].
    + apply list_elem_of_singleton in Hm. subst m. exists msg, a.
      split; [left|]. split; assumption.
    + exists m, a. split; [right; exact Hm|]. split; assumption.
Qed.

Lemma lacks_href_nil : ~ lacks_href [].
Proof. intros (m & a & Hm & _). inversion Hm. Qed.

Lemma logs_render_message_loop (profile_lookup : gmap pystr (gmap pystr pystr))
    (store_files : gmap pystr pybytes) (export_files : pystr)
    (total index : nat) (messages : list message) :
  logs (asset_copy store_files export_files)
       (messages_failure messages)
       (fun _ => ~ lacks_href messages)
       (render_message_loop profile_lookup store_files export_files total index
          messages).
Proof.
  revert index. induction messages as [|msg rest IH]; intros index.
  - apply logs_ret. apply lacks_href_nil.
  - cbn [render_message_loop]. eapply logs_bind.
    { eapply logs_weaken; [| | |apply logs_render_message].
      - intros o Ho. exact Ho.
      - intros e [->|[-> H]]; [left; reflexivity|]. right. split; [reflexivity|].
        apply lacks_href_cons. left. exact H.
      - intros article H. exact H. }
    intros article Hmsg. eapply logs_bind.
    { eapply logs_weaken; [| | |apply (IH (S index))].
      - intros o Ho. exact Ho.
      - intros e [->|[-> H]]; [left; reflexivity|]. right. split; [reflexivity|].
        apply lacks_href_cons. right. exact H.
      - intros articles H. exact H. }
    intros articles Hrest. apply logs_ret.
    intros H. apply lacks_href_cons in H as [H|H]; contradiction.
Qed.

Lemma logs_render_messages (messages : list message)
    (profile_lookup : gmap pystr (gmap pystr pystr))
    (store_files : gmap pystr pybytes) (export_files : pystr) :
  logs (asset_copy store_files export_files)
       (messages_failure messages)
       (fun _ => ~ lacks_href messages)
       (render_messages messages profile_lookup store_files export_files).
Proof.
  unfold render_messages. cbv zeta. case_bool_decide as Hn.
  - apply logs_ret. destruct messages; [apply lacks_href_nil|discriminate].
  - eapply logs_bind; [apply logs_render_message_loop|].
    intros rendered H. apply logs_ret. exact H.
Qed.

(** X7. Rendering the messages of a thread never changes or
    removes a file the export tree already has, whatever the outcome; every
    file it adds lies in the files directory under the name of a file of the
    store and has the content of that file. *)
Theorem render_messages_frame (messages : list message)
    (profile_lookup : gmap pystr (gmap pystr pystr))
    (store_files : gmap pystr pybytes) (export_files : pystr) (tr : tree) :
  let after := (render_messages messages profile_lookup store_files export_files tr).2 in
  (forall path data, tr !! path = Some data -> after !! path = Some data)
  /\ (forall path data,
        after !! path = Some data ->
        tr !! path = Some data
        \/ exists h, path = export_files ++ lit "/" ++ h
                     /\ store_files !! h = Some data).
Proof.
  destruct (logs_run _ _ _ _ tr
              (logs_render_messages messages profile_lookup store_files export_files))
    as (ops & Hafter & Hops & _).
  cbv zeta. rewrite Hafter.
  assert (Forall (fun o => exists path data, o = Copy path data) ops) as Hcopies.
  { eapply Forall_impl; [exact Hops|]. intros o (h & data & -> & _). eauto. }
  split; intros path data H.
  - rewrite run_ops_lookup. pose proof (key_run_copies path ops (tr !! path) Hcopies) as Hk.
    rewrite H in Hk |- *. exact Hk.
  - rewrite run_ops_lookup in H.
    pose proof (key_run_copies path ops (tr !! path) Hcopies) as Hk.
    destruct (tr !! path) as [z|] eqn:Hz.
    + left. congruence.
    + destruct Hk as [Hk|(d & Hd & Hk)]; [congruence|]. right.
      rewrite Forall_forall in Hops. destruct (Hops _ Hd) as (h & data' & Ho & Hs).
      injection Ho as -> <-. exists h. split; [reflexivity|]. congruence.
Qed.

(** X8. An attachment without [href] stops the rendering of the
    messages: whatever the tree, the call raises and returns nothing (the
    exception is [AttributeError], or the encoding error of a name that was
    met before). And [AttributeError] is raised for no other reason. *)
Theorem render_messages_needs_href (messages : list message)
    (profile_lookup : gmap pystr (gmap pystr pystr))
    (store_files : gmap pystr pybytes) (export_files : pystr) (tr : tree) :
  let result := (render_messages messages profile_lookup store_files export_files tr).1 in
  (lacks_href messages ->
   result = Raised AttributeError \/ result = Raised UnicodeEncodeError)
  /\ (result = Raised AttributeError -> lacks_href messages).
Proof.
  destruct (logs_run _ _ _ _ tr
              (logs_render_messages messages profile_lookup store_files export_files))
    as (ops & _ & _ & Hr).
  cbv zeta. destruct (render_messages _ _ _ _ tr).1 as [html|e].
  - split; [intros H; contradiction|discriminate].
  - destruct Hr as [->|[-> H]].
    + split; [intros _; right; reflexivity|discriminate].
    + split; [intros _; left; reflexivity|intros _; exact H].
Qed.

(** ** The export driver: its log *)

Lemma asset_copy_export_op (store_files : gmap pystr pybytes) (o : tree_op) :
  asset_copy store_files (lit "files") o -> export_op store_files o.
Proof. intros H. left. exact H. Qed.

Lemma logs_export_thread (forum_title : pystr)
    (profile_lookup : gmap pystr (gmap pystr pystr))
    (files_dir : gmap pystr pybytes) (stem : pystr) (data : thread_record) :
  logs (export_op files_dir)
       (messages_failure (processed_messages data))
       (fun r => r = thread_of_record stem data
                 /\ ~ lacks_href (processed_messages data))
       (export_thread forum_title profile_lookup files_dir stem data).
Proof.
  unfold export_thread. destruct (thread_of_record stem data) as [t|] eqn:Ht.
  - eapply logs_bind.
    { eapply logs_weaken; [| | |apply logs_render_messages];
        [apply asset_copy_export_op|intros e He; exact He|intros html H; exact H]. }
    intros html Hhref. eapply logs_bind.
    { apply logs_write_text.
      - intros bytes. right. eexists _, _. split; [reflexivity|].
        right. right. left. eexists. reflexivity.
      - left. reflexivity. }
    intros [] _. apply logs_ret. split; [reflexivity|exact Hhref].
  - apply logs_ret. split; [reflexivity|].
    unfold thread_of_record in Ht.
    destruct (processed_messages data); [apply lacks_href_nil|discriminate].
Qed.

(** Some record of [entries] has an attachment without [href]. *)
Lemma logs_export_threads (forum_title : pystr)
    (profile_lookup : gmap pystr (gmap pystr pystr))
    (files_dir : gmap pystr pybytes) (entries : list (pystr * thread_record)) :
  logs (export_op files_dir)
       (fun e => e = UnicodeEncodeError
                 \/ (e = AttributeError
                     /\ exists stem data, (stem, data) ∈ entries
                                          /\ lacks_href (processed_messages data)))
       (fun threads =>
          threads = threads_of_records entries
          /\ forall stem data, (stem, data) ∈ entries ->
                               ~ lacks_href (processed_messages data))
       (export_threads forum_title profile_lookup files_dir entries).
Proof.
  induction entries as [|[stem data] entries IH].
  - apply logs_ret. split; [reflexivity|]. intros stem data H. inversion H.
  - cbn [export_threads]. eapply logs_bind.
    { eapply logs_weaken; [| | |apply logs_export_thread].
      - intros o Ho. exact Ho.
      - intros e [->|[-> H]]; [left; reflexivity|]. right. split; [reflexivity|].
        exists stem, data. split; [left|exact H].
      - intros r H. exact H. }
    intros r [-> Hhref]. eapply logs_bind.
    { eapply logs_weaken; [| | |apply IH].
      - intros o Ho. exact Ho.
      - intros e [->|[-> (s & d & Hin & H)]]; [left; reflexivity|]. right.
        split; [reflexivity|]. exists s, d. split; [right; exact Hin|exact H].
      - intros threads H. exact H. }
    intros threads [-> Hrest]. apply logs_ret. split.
    + rewrite threads_of_records_cons. reflexivity.
    + intros s d Hin. apply elem_of_cons in Hin as [E|Hin].
      * injection E as -> ->. exact Hhref.
      * exact (Hrest s d Hin).
Qed.

Lemma logs_write_folder_pages (store_files : gmap pystr pybytes)
    (forum_title : pystr) (clock : nat -> datetime) (k : nat)
    (sections : list folder) :
  Forall (fun f => url_safe_slug (f_slug f)) sections ->
  logs (export_op store_files) (fun e => e = UnicodeEncodeError) (fun _ => True)
       (write_folder_pages forum_title clock k sections).
Proof.
  revert k. induction sections as [|f rest IH]; intros k H.
  - apply logs_ret. exact I.
  - inversion H as [|? ? Hf Hrest]; subst. cbn [write_folder_pages].
    eapply logs_bind.
    + apply logs_write_text; [|reflexivity].
      intros bytes. right. eexists _, _. split; [reflexivity|].
      right. right. right. exists (f_slug f). split; [exact Hf|reflexivity].
    + intros [] _. apply IH. exact Hrest.
Qed.

Lemma sorted_thread_files_elem (entries : list (pystr * thread_record))
    (entry : pystr * thread_record) :
  entry ∈ sorted_thread_files entries <-> entry ∈ entries.
Proof.
  unfold sorted_thread_files.
  rewrite (sort_by_perm (A := pystr * thread_record)). reflexivity.
Qed.

Lemma sections_of_records_slugs (entries : list (pystr * thread_record)) :
  Forall (fun f => url_safe_slug (f_slug f)) (sections_of_records entries).
Proof.
  apply Forall_forall. intros f Hf.
  destruct (sections_of_records_ok entries) as [_ Hok].
  destruct (Hok f Hf) as [-> _]. apply slugify_shaped.
Qed.

(** The log of [main]. *)
Lemma logs_main (forum_title : pystr) (st : store) (clock : nat -> datetime) :
  logs (export_op (store_files st)) (main_failure st)
       (fun _ => exists entries,
                   store_threads st = Some entries
                   /\ forall stem data, (stem, data) ∈ entries ->
                                        ~ lacks_href (processed_messages data))
       (main forum_title st clock).
Proof.
  unfold main. destruct (store_threads st) as [entries|] eqn:Hst.
  - eapply logs_bind.
    { apply logs_write_text; [|exact I].
      intros bytes. right. eexists _, _. split; [reflexivity|]. left. reflexivity. }
    intros [] _. unfold build_profile_lookup. eapply logs_bind.
    { eapply logs_weaken; [| | |apply logs_export_threads].
      - intros o Ho. exact Ho.
      - intros e [->|[-> (s & d & Hin & H)]]; [exact I|].
        cbn [main_failure]. exists entries, s, d. split; [first [exact Hst|reflexivity]|].
        split; [apply sorted_thread_files_elem; exact Hin|exact H].
      - intros threads H. exact H. }
    intros threads [-> Hhref]. cbv zeta.
    fold (sections_of_records entries). eapply logs_bind.
    { eapply logs_weaken; [| | |apply logs_write_folder_pages;
                                  apply sections_of_records_slugs];
        [intros o Ho; exact Ho|intros e ->; exact I|intros u H; exact H]. }
    intros [] _. eapply logs_weaken; [| | |apply logs_write_text].
    + intros o Ho. exact Ho.
    + intros e He. exact He.
    + intros [] _. exists entries. split; [first [exact Hst|reflexivity]|].
      intros s d Hin. apply (Hhref s d). apply sorted_thread_files_elem. exact Hin.
    + intros bytes. right. eexists _, _. split; [reflexivity|]. right. left. reflexivity.
    + exact I.
  - apply logs_raise. exact Hst.
Qed.

(** ** The export driver: what the folder sections hold *)

Lemma concat_map_perm {A B : Type} (g : A -> list B) (l l' : list A) :
  Permutation l l' -> Permutation (concat (map g l)) (concat (map g l')).
Proof.
  induction 1 as [|x l l' _ IH|x y l|l l' l'' _ IH1 _ IH2]; cbn [map concat].
  - reflexivity.
  - apply Permutation_app_head. exact IH.
  - rewrite !app_assoc. apply Permutation_app_tail. apply Permutation_app_comm.
  - etransitivity; eassumption.
Qed.

Lemma add_to_bucket_threads (name slug : pystr) (t : thread) (folders : list folder) :
  Permutation (concat (map f_threads (add_to_bucket name slug t folders)))
              (concat (map f_threads folders) ++ [t]).
Proof.
  induction folders as [|f rest IH]; cbn [add_to_bucket map concat].
  - reflexivity.
  - destruct (str_eqb (f_name f) name); cbn [map concat f_threads].
    + rewrite <- !app_assoc. apply Permutation_app_head. apply Permutation_app_comm.
    + rewrite <- app_assoc. apply Permutation_app_head. exact IH.
Qed.

Lemma foldl_add_thread_threads (threads : list thread) (acc : list folder) :
  Permutation (concat (map f_threads (foldl add_thread acc threads)))
              (concat (map f_threads acc) ++ threads).
Proof.
  revert acc. induction threads as [|t threads IH]; intros acc; cbn [foldl].
  - rewrite app_nil_r. reflexivity.
  - rewrite IH. unfold add_thread at 1. rewrite add_to_bucket_threads.
    rewrite <- app_assoc. reflexivity.
Qed.

Lemma sort_folder_threads_perm (folders : list folder) :
  Permutation (concat (map f_threads (map sort_folder_threads folders)))
              (concat (map f_threads folders)).
Proof.
  induction folders as [|f rest IH]; [reflexivity|].
  cbn [map concat sort_folder_threads f_threads]. apply Permutation_app; [|exact IH].
  unfold preview_order. apply sort_by_reverse_perm.
Qed.

(** No bucket is empty. *)

Lemma sections_of_records_threads (entries : list (pystr * thread_record)) :
  Permutation (concat (map f_threads (sections_of_records entries)))
              (threads_of_records entries).
Proof.
  unfold sections_of_records, folder_sections_of.
  rewrite (concat_map_perm f_threads _ _ (sort_by_perm _ _)).
  rewrite sort_folder_threads_perm. unfold assemble_folders.
  rewrite foldl_add_thread_threads. cbn [map concat app].
  unfold threads_of_records, sorted_thread_files.
  apply omap_Permutation. apply sort_by_perm.
Qed.

Lemma sections_of_records_inhabited (entries : list (pystr * thread_record)) :
  Forall (fun f => f_threads f <> []) (sections_of_records entries).
Proof.
  unfold sections_of_records, folder_sections_of.
  apply Forall_forall. intros f Hf.
  rewrite (sort_by_perm (A := folder)) in Hf.
  apply list_elem_of_fmap in Hf as (g & -> & Hg).
  pose proof (foldl_add_thread_inhabited
                (threads_of_records (sorted_thread_files entries)) []
                (List.Forall_nil _)) as Hall.
  rewrite Forall_forall in Hall. specialize (Hall g Hg).
  cbn [sort_folder_threads f_threads]. intros E. apply Hall.
  apply Permutation_nil. rewrite <- E.
  unfold preview_order. apply sort_by_reverse_perm.
Qed.

Lemma sections_of_records_sorted (entries : list (pystr * thread_record)) :
  StronglySorted
    (fun a b => str_leb (str_lower (f_name a)) (str_lower (f_name b)) = true)
    (sections_of_records entries).
Proof.
  unfold sections_of_records, folder_sections_of.
  apply (sort_by_sorted
           (fun a b => str_leb (str_lower (f_name a)) (str_lower (f_name b)))).
  - intros a b. apply str_leb_total.
  - intros a b c. apply str_leb_trans.
Qed.

Lemma threads_of_records_elem (entries : list (pystr * thread_record)) (t : thread) :
  t ∈ threads_of_records entries <->
  exists stem data, (stem, data) ∈ entries /\ thread_of_record stem data = Some t.
Proof.
  unfold threads_of_records. rewrite list_elem_of_omap. split.
  - intros ([stem data] & Hin & Ht). exists stem, data. split; assumption.
  - intros (stem & data & Hin & Ht). exists (stem, data). split; assumption.
Qed.

(** X9. The folder sections of a run hold every listed thread
    once: together their thread lists are a rearrangement of the threads of
    the records that have messages; no section is empty; every thread lies in
    the section of its folder name; and the sections come in the order of
    their lower-cased names. *)
Theorem folder_sections_partition (entries : list (pystr * thread_record)) :
  let sections := sections_of_records entries in
  Permutation (concat (map f_threads sections)) (threads_of_records entries)
  /\ Forall (fun f => f_threads f <> []
                      /\ Forall (fun t => t_folder t = f_name f) (f_threads f))
            sections
  /\ NoDup (map f_name sections)
  /\ StronglySorted
       (fun a b => str_leb (str_lower (f_name a)) (str_lower (f_name b)) = true)
       sections.
Proof.
  cbv zeta. split; [apply sections_of_records_threads|]. split; [|split].
  - apply Forall_forall. intros f Hf. split.
    + pose proof (sections_of_records_inhabited entries) as H.
      rewrite Forall_forall in H. exact (H f Hf).
    + destruct (sections_of_records_ok entries) as [_ Hok].
      apply Forall_forall. intros t Ht. exact (proj2 (Hok f Hf) t Ht).
  - exact (proj1 (sections_of_records_ok entries)).
  - apply sections_of_records_sorted.
Qed.

Lemma sum_message_counts_app (a b : list thread) :
  sum_message_counts (a ++ b) = sum_message_counts a + sum_message_counts b.
Proof.
  forget_tables. unfold sum_message_counts.
  induction a as [|t a IH]; cbn [app foldr]; [reflexivity|]. rewrite IH. lia.
Qed.

Lemma sum_message_counts_perm (a b : list thread) :
  Permutation a b -> sum_message_counts a = sum_message_counts b.
Proof.
  forget_tables. unfold sum_message_counts.
  induction 1 as [|x l l' _ IH|x y l|l l' l'' _ IH1 _ IH2]; cbn [foldr];
    [reflexivity|rewrite IH; reflexivity|lia|congruence].
Qed.

Lemma thread_of_record_None (stem : pystr) (data : thread_record) :
  thread_of_record stem data = None -> processed_messages data = [].
Proof.
  unfold thread_of_record. destruct (processed_messages data); [reflexivity|discriminate].
Qed.

Lemma threads_of_records_messages (entries : list (pystr * thread_record)) :
  sum_message_counts (threads_of_records entries)
  = Z.of_nat (length (concat (map (fun e => processed_messages e.2) entries))).
Proof.
  induction entries as [|[stem data] entries IH]; [reflexivity|].
  rewrite threads_of_records_cons. cbn [map concat snd]. rewrite length_app.
  destruct (thread_of_record stem data) as [t|] eqn:Ht.
  - destruct (thread_of_record_count _ _ _ Ht) as [Hc _].
    change (sum_message_counts (t :: threads_of_records entries))
      with (t_message_count t + sum_message_counts (threads_of_records entries)).
    rewrite IH, Hc. forget_tables. lia.
  - rewrite (thread_of_record_None _ _ Ht), IH. reflexivity.
Qed.

Lemma threads_of_records_counts (entries : list (pystr * thread_record)) :
  Forall (fun t => 1 <= t_message_count t) (threads_of_records entries).
Proof.
  apply Forall_forall. intros t Ht.
  apply threads_of_records_elem in Ht as (stem & data & _ & Ht).
  destruct (thread_of_record_count _ _ _ Ht) as [Hc Hl]. rewrite Hc.
  forget_tables. lia.
Qed.

Lemma sum_message_counts_length (threads : list thread) :
  Forall (fun t => 1 <= t_message_count t) threads ->
  Z.of_nat (length threads) <= sum_message_counts threads.
Proof.
  forget_tables. unfold sum_message_counts.
  induction 1 as [|t l Ht _ IH]; cbn [length foldr]; lia.
Qed.

Lemma section_threads_listed (entries : list (pystr * thread_record))
    (f : folder) (t : thread) :
  f ∈ sections_of_records entries -> t ∈ f_threads f ->
  t ∈ threads_of_records entries.
Proof.
  intros Hf Ht. rewrite <- (sections_of_records_threads entries).
  apply list_elem_of_In, in_concat. exists (f_threads f).
  split; [apply in_map, list_elem_of_In; exact Hf|apply list_elem_of_In; exact Ht].
Qed.

(** X10. No message is lost or counted twice between the store and
    the index: the message counts of all the sections add up to the number of
    messages of all the records; and in every section the message total is at
    least the number of threads, which is at least one. *)
Theorem message_totals (entries : list (pystr * thread_record)) :
  let sections := sections_of_records entries in
  sum_message_counts (concat (map f_threads sections))
  = Z.of_nat (length (concat (map (fun e => processed_messages e.2) entries)))
  /\ Forall (fun f => 1 <= Z.of_nat (length (f_threads f))
                      <= sum_message_counts (f_threads f))
            sections.
Proof.
  cbv zeta. split.
  - rewrite (sum_message_counts_perm _ _ (sections_of_records_threads entries)).
    apply threads_of_records_messages.
  - apply Forall_forall. intros f Hf. split.
    + pose proof (sections_of_records_inhabited entries) as H.
      rewrite Forall_forall in H. specialize (H f Hf).
      destruct (f_threads f); [congruence|]. cbn [length]. forget_tables. lia.
    + apply sum_message_counts_length. apply Forall_forall. intros t Ht.
      pose proof (threads_of_records_counts entries) as H.
      rewrite Forall_forall in H. apply H.
      exact (section_threads_listed _ _ _ Hf Ht).
Qed.

Lemma index_section_inhabited (f : folder) :
  f_threads f <> [] -> is_Some (index_section f).
Proof.
  intros H. unfold index_section. cbv zeta.
  rewrite bool_decide_eq_false_2 by exact H. eexists. reflexivity.
Qed.

Lemma omap_all_Some {A B : Type} (g : A -> option B) (l : list A) :
  Forall (fun a => is_Some (g a)) l -> length (omap g l) = length l.
Proof.
  induction 1 as [|a l [b Hb] _ IH]; [reflexivity|].
  cbn [omap list_omap]. rewrite Hb. cbn [length]. f_equal. exact IH.
Qed.

Lemma threads_of_records_nil (entries : list (pystr * thread_record)) :
  threads_of_records entries = []
  <-> Forall (fun e => processed_messages e.2 = []) entries.
Proof.
  induction entries as [|[stem data] entries IH].
  - split; [constructor|reflexivity].
  - rewrite threads_of_records_cons. split.
    + destruct (thread_of_record stem data) eqn:Ht; [discriminate|].
      intros H. constructor; [exact (thread_of_record_None _ _ Ht)|].
      apply IH. exact H.
    + intros H. inversion H as [|? ? Hd Hrest]; subst. cbn [snd] in Hd.
      rewrite (thread_of_record_empty _ _ Hd). apply IH. exact Hrest.
Qed.


(** ** The export driver: outcomes, reruns and the files of the archive *)

(** X12. The outcome of a run, whatever the export tree
    holds. A run that raises [SystemExit] has no threads directory; a run
    that raises [AttributeError] has a record with an attachment without
    [href]; any other failure is the encoding error of a text. A run that
    returns had a threads directory and no such attachment. *)
Theorem main_outcomes (forum_title : pystr) (st : store)
    (clock : nat -> datetime) (tr : tree) :
  match (main forum_title st clock tr).1 with
  | Done _ =>
      exists entries,
        store_threads st = Some entries
        /\ forall stem data, (stem, data) ∈ entries ->
                             ~ lacks_href (processed_messages data)
  | Raised e => main_failure st e
  end.
Proof.
  destruct (logs_run _ _ _ _ tr (logs_main forum_title st clock))
    as (ops & _ & _ & Hr).
  exact Hr.
Qed.

(** X13. What a run returns or raises does not depend on what
    the export tree holds, and a second run over the tree the first one left
    (with the same readings of the clock) returns the same and leaves the
    tree as it is. *)
Theorem main_rerun (forum_title : pystr) (st : store) (clock : nat -> datetime) :
  (forall tr1 tr2,
      (main forum_title st clock tr1).1 = (main forum_title st clock tr2).1)
  /\ (forall tr,
        main forum_title st clock (main forum_title st clock tr).2
        = main forum_title st clock tr).
Proof.
  destruct (logs_main forum_title st clock) as (r & ops & Hm & _ & _). split.
  - intros tr1 tr2. rewrite (Hm tr1), (Hm tr2). reflexivity.
  - intros tr. rewrite (Hm tr). cbn [snd]. rewrite (Hm (run_ops ops tr)).
    rewrite run_ops_idem. reflexivity.
Qed.

Lemma logs_keeps {A : Type} (P : tree_op -> Prop) (E : exn -> Prop)
    (Q : A -> Prop) (m : io A) (tr : tree) (k : pystr) :
  logs P E Q m -> is_Some (tr !! k) -> is_Some ((m tr).2 !! k).
Proof.
  intros Hm Hk. destruct (logs_run _ _ _ _ tr Hm) as (ops & -> & _).
  apply run_ops_present. exact Hk.
Qed.

Lemma export_thread_written (forum_title : pystr)
    (profile_lookup : gmap pystr (gmap pystr pystr))
    (files_dir : gmap pystr pybytes) (stem : pystr) (data : thread_record)
    (t : thread) (tr tr' : tree) :
  export_thread forum_title profile_lookup files_dir stem data tr
  = (Done (Some t), tr') ->
  is_Some (tr' !! (lit "threads/" ++ t_id t ++ lit ".html")).
Proof.
  unfold export_thread. destruct (thread_of_record stem data) as [t0|];
    [|intros H; discriminate].
  unfold mbind, io_bind.
  destruct (render_messages _ _ _ _ tr) as [[html|e] tr1]; [|discriminate].
  destruct (write_text _ _ tr1) as [[[]|e] tr2] eqn:Hw; [|discriminate].
  intros H. injection H as -> ->.
  apply write_text_done in Hw as (bytes & _ & ->).
  rewrite lookup_insert_eq. eauto.
Qed.

Lemma export_threads_written (forum_title : pystr)
    (profile_lookup : gmap pystr (gmap pystr pystr))
    (files_dir : gmap pystr pybytes) (entries : list (pystr * thread_record))
    (threads : list thread) (tr tr' : tree) :
  export_threads forum_title profile_lookup files_dir entries tr
  = (Done threads, tr') ->
  forall t, t ∈ threads ->
            is_Some (tr' !! (lit "threads/" ++ t_id t ++ lit ".html")).
Proof.
  revert threads tr tr'. induction entries as [|[stem data] entries IH];
    intros threads tr tr' H t Ht.
  - cbn in H. injection H as <- _. inversion Ht.
  - cbn [export_threads] in H. unfold mbind, io_bind in H.
    destruct (export_thread _ _ _ stem data tr) as [[r|e] tr1] eqn:He; [|discriminate].
    destruct (export_threads _ _ _ entries tr1) as [[ts|e] tr2] eqn:Hts; [|discriminate].
    cbn in H. injection H as <- <-.
    assert (t ∈ ts \/ r = Some t) as [Hin|Hr].
    { destruct r as [t0|]; [|left; exact Ht].
      apply elem_of_cons in Ht as [->|Ht]; [right; reflexivity|left; exact Ht]. }
    + exact (IH _ _ _ Hts t Hin).
    + subst r. apply export_thread_written in He.
      pose proof (logs_keeps _ _ _ _ tr1 _
                    (logs_export_threads forum_title profile_lookup files_dir entries)
                    He) as Hk.
      rewrite Hts in Hk. exact Hk.
Qed.

Lemma write_folder_pages_written (forum_title : pystr) (clock : nat -> datetime)
    (k : nat) (sections : list folder) (tr tr' : tree) :
  write_folder_pages forum_title clock k sections tr = (Done tt, tr') ->
  (forall f, f ∈ sections -> is_Some (tr' !! folder_page_path f))
  /\ (forall key, is_Some (tr !! key) -> is_Some (tr' !! key)).
Proof.
  revert k tr. induction sections as [|f rest IH]; intros k tr H.
  - cbn in H. injection H as <-. split; [intros f Hf; inversion Hf|auto].
  - cbn [write_folder_pages] in H. unfold mbind, io_bind in H.
    destruct (write_text _ _ tr) as [[[]|e] tr1] eqn:Hw; [|discriminate].
    apply write_text_done in Hw as (bytes & _ & ->).
    destruct (IH _ _ H) as [Hnew Hold]. split.
    + intros g Hg. apply elem_of_cons in Hg as [->|Hg]; [|exact (Hnew g Hg)].
      apply Hold. rewrite lookup_insert_eq. eauto.
    + intros key Hkey. apply Hold. apply lookup_insert_is_Some'. right. exact Hkey.
Qed.

(** X15. After a run that returns, no link of the archive dangles:
    the tree holds the stylesheet, the index page (the encoding of the page
    [render_index_html] makes of the folder sections), the page of every
    folder section, and the page of every thread a section lists. *)
Theorem archive_pages_written (forum_title : pystr) (st : store)
    (clock : nat -> datetime) (tr tr' : tree)
    (entries : list (pystr * thread_record)) :
  store_threads st = Some entries ->
  main forum_title st clock tr = (Done tt, tr') ->
  let sections := sections_of_records entries in
  is_Some (tr' !! lit "assets/style.css")
  /\ tr' !! lit "index.html"
     = utf8_encode
         (render_index_html forum_title
            (lit "Offline snapshot generated from Delphi Forums scrape.")
            sections (clock O))
  /\ forall f, f ∈ sections ->
       is_Some (tr' !! (lit "folders/" ++ f_slug f ++ lit ".html"))
       /\ forall t, t ∈ f_threads f ->
            is_Some (tr' !! (lit "threads/" ++ t_id t ++ lit ".html")).
Proof.
  intros Hst Hmain sections. unfold main in Hmain. rewrite Hst in Hmain.
  unfold mbind, io_bind in Hmain.
  destruct (write_text _ STYLE_CSS tr) as [[[]|e] tr1] eqn:Hcss; [|discriminate].
  destruct (export_threads _ _ _ _ tr1) as [[threads|e] tr2] eqn:Hthreads;
    [|discriminate].
  pose proof (export_threads_written _ _ _ _ _ _ _ Hthreads) as Hpages.
  pose proof (logs_keeps _ _ _ _ tr1 (lit "assets/style.css")
                (logs_export_threads forum_title
                   (build_profile_lookup (store_profiles st)) (store_files st)
                   (sorted_thread_files entries))) as Hkeep.
  rewrite Hthreads in Hkeep. cbn [snd] in Hkeep.
  apply export_threads_result in Hthreads. subst threads.
  fold (sections_of_records entries) in Hmain. fold sections in Hmain.
  destruct (write_folder_pages _ _ _ sections tr2) as [[[]|e] tr3] eqn:Hfolders;
    [|discriminate].
  destruct (write_folder_pages_written _ _ _ _ _ _ Hfolders) as [Hnew Hold].
  apply write_text_done in Hcss as (css & _ & ->).
  apply write_text_done in Hmain as (bytes & Hbytes & ->).
  assert (forall key, is_Some (tr3 !! key) ->
                      is_Some (<[lit "index.html" := bytes]> tr3 !! key)) as Hlast.
  { intros key Hkey. apply lookup_insert_is_Some'. right. exact Hkey. }
  split; [|split].
  - apply Hlast, Hold, Hkeep. rewrite lookup_insert_eq. eauto.
  - rewrite lookup_insert_eq. symmetry. exact Hbytes.
  - intros f Hf. split.
    + apply Hlast. exact (Hnew f Hf).
    + intros t Ht. apply Hlast, Hold, Hpages.
      unfold threads_of_records, sorted_thread_files.
      rewrite (sort_by_perm (A := pystr * thread_record)).
      exact (section_threads_listed _ _ _ Hf Ht).
Qed.

(** ** Profiles, images and reply links *)

Lemma omap_nil_iff {A B : Type} (g : A -> option B) (l : list A) :
  omap g l = [] <-> Forall (fun a => g a = None) l.
Proof.
  induction l as [|a l IH]; [split; [constructor|reflexivity]|].
  cbn [omap list_omap]. destruct (g a) eqn:Ha.
  - split; [discriminate|]. intros H. inversion H; congruence.
  - rewrite IH. split; [intros H; constructor; assumption|].
    intros H. inversion H; assumption.
Qed.

Lemma omap_ext_Forall {A B : Type} (g h : A -> option B) (l : list A) :
  Forall (fun a => g a = h a) l -> omap g l = omap h l.
Proof.
  induction 1 as [|a l Ha _ IH]; [reflexivity|].
  cbn [omap list_omap]. rewrite Ha, IH. reflexivity.
Qed.

(** X16. The profile line under a message depends on four labels
    of the profile and on nothing else in it, and it is left out exactly when
    none of the four has a non-empty value. *)
Theorem describe_profile_labels :
  (forall profile,
      describe_profile (Some profile) = []
      <-> Forall (fun label => default [] (profile !! label) = []) profile_labels)
  /\ (forall p q,
        Forall (fun label => p !! label = q !! label) profile_labels ->
        describe_profile (Some p) = describe_profile (Some q)).
Proof.
  split.
  - intros profile. unfold describe_profile. cbv zeta.
    fold profile_labels. case_bool_decide as Hd.
    + split; [intros _|reflexivity]. apply omap_nil_iff in Hd.
      eapply Forall_impl; [exact Hd|]. intros label. cbv beta.
      destruct (profile !! label) as [[|c v]|]; [reflexivity|discriminate|reflexivity].
    + split.
      * intros H. apply (f_equal (@length Z)) in H. rewrite length_app in H.
        cbn in H. forget_tables. lia.
      * intros H. exfalso. apply Hd. apply omap_nil_iff.
        eapply Forall_impl; [exact H|]. intros label. cbv beta.
        destruct (profile !! label) as [[|c v]|]; [reflexivity|discriminate|reflexivity].
  - intros p q H. unfold describe_profile. cbv zeta. fold profile_labels.
    rewrite (omap_ext_Forall _
               (fun label =>
                  match q !! label with
                  | Some value =>
                      if is_empty value then None
                      else Some (html_escape label ++ lit ": " ++ html_escape value)
                  | None => None
                  end) profile_labels); [reflexivity|].
    eapply Forall_impl; [exact H|]. intros label E. cbv beta. rewrite E. reflexivity.
Qed.

(** X17. When none of the images of a message was captured (its
    hashed name is not in the files of the store) or its URL is empty, the
    image loop returns the body as it was and leaves the export tree as it
    was. *)
Theorem rewrite_images_none_captured (store_files : gmap pystr pybytes)
    (export_files : pystr) (images : list pystr) (content_html : pystr) (tr : tree) :
  Forall (fun url => url = []
                     \/ exists h, hash_for_url url = Some h
                                  /\ store_files !! h = None) images ->
  rewrite_images store_files export_files images content_html tr
  = (Done content_html, tr).
Proof.
  induction 1 as [|url rest Hurl _ IH]; [reflexivity|].
  cbn [rewrite_images]. unfold mbind, io_bind.
  assert (ensure_local_asset (Some url) store_files export_files tr = (Done None, tr))
    as ->.
  { destruct Hurl as [->|(h & Hh & Hs)].
    - apply ensure_local_asset_falsy. reflexivity.
    - destruct url as [|c url]; [apply ensure_local_asset_falsy; reflexivity|].
      apply (ensure_local_asset_missing _ h); [discriminate|exact Hh|exact Hs]. }
  exact IH.
Qed.

(** X18. The reply link of a message points at the article of the
    message it answers: the article of a message that names [r] as the
    message it replies to holds a link to the anchor of every message whose
    identifier is [r]. *)
Theorem reply_link_resolves (profile_lookup : gmap pystr (gmap pystr pystr))
    (store_files : gmap pystr pybytes) (export_files : pystr)
    (total index : nat) (msg target : message) (r : pystr)
    (tr tr' : tree) (article : pystr) :
  render_message profile_lookup store_files export_files total index msg tr
  = (Done article, tr') ->
  msg_in_reply_to msg = Some r -> r <> [] -> msg_id target = Some r ->
  occurs_in (tpl "in reply to <a href=`#" ++ message_anchor target ++ tpl "`>")
            article.
Proof.
  intros H Hr Hne Hid.
  assert (message_anchor target = lit "msg-" ++ replace_char 46 (lit "-") r) as ->.
  { unfold message_anchor, message_mid. rewrite Hid. unfold or_default.
    destruct r; [congruence|reflexivity]. }
  unfold render_message, mbind, io_bind, mret, io_ret in H. cbv zeta in H.
  destruct (@mapM io _ _ _ _ _ _ tr) as [[items|e] tr1]; [|discriminate].
  destruct (rewrite_images _ _ _ _ tr1) as [[content|e] tr2]; [|discriminate].
  apply Done_eq in H as [<- _]. rewrite Hr.
  assert (truthy (Some r) = true) as -> by (destruct r; [congruence|reflexivity]).
  assert (is_empty (message_mid msg) = false) as ->.
  { unfold message_mid, or_default. destruct (msg_id msg) as [[|c s]|]; reflexivity. }
  cbn [negb default].
  rewrite bool_decide_eq_false_2 by (cbn [app]; discriminate).
  assert (forall x, is_empty (tpl "<div class=`msg-thread-ref`>" ++ x) = false)
    as Hdiv by reflexivity.
  rewrite Hdiv. cbn [negb].
  do 5 apply occurs_app_r. apply occurs_app_l.
  eapply occurs_in_concat; [apply elem_of_app; left; left|].
  apply occurs_app_r, occurs_app_l. cbn [app str_join].
  do 2 apply occurs_app_r. exists [], (html_escape r ++ lit "</a>").
  rewrite <- !app_assoc. reflexivity.
Qed.

(** The article of a message holds its place in the thread. *)
Lemma render_message_sequence (profile_lookup : gmap pystr (gmap pystr pystr))
    (store_files : gmap pystr pybytes) (export_files : pystr)
    (total index : nat) (msg : message) (tr tr' : tree) (article : pystr) :
  render_message profile_lookup store_files export_files total index msg tr
  = (Done article, tr') ->
  occurs_in (tpl "<a href=`#" ++ message_anchor msg ++ tpl "`>"
             ++ str_of_int (Z.of_nat index) ++ lit " of "
             ++ str_of_int (Z.of_nat total) ++ lit "</a>")
            article.
Proof.
  intros H. unfold render_message, mbind, io_bind, mret, io_ret in H.
  cbv zeta in H.
  destruct (@mapM io _ _ _ _ _ _ tr) as [[items|e] tr1]; [|discriminate].
  destruct (rewrite_images _ _ _ _ tr1) as [[content|e] tr2]; [|discriminate].
  apply Done_eq in H as [<- _].
  do 3 apply occurs_app_r. apply occurs_app_l.
  do 5 apply occurs_app_r. apply occurs_app_l.
  eapply occurs_in_concat; [right; left|].
  apply occurs_app_r, occurs_app_l, occurs_in_refl.
Qed.

Lemma render_message_loop_articles
    (profile_lookup : gmap pystr (gmap pystr pystr))
    (store_files : gmap pystr pybytes) (export_files : pystr)
    (total index : nat) (messages : list message) (tr tr' : tree)
    (articles : list pystr) :
  render_message_loop profile_lookup store_files export_files total index messages tr
  = (Done articles, tr') ->
  length articles = length messages
  /\ forall k msg article,
       messages !! k = Some msg -> articles !! k = Some article ->
       occurs_in (tpl "<a href=`#" ++ message_anchor msg ++ tpl "`>"
                  ++ str_of_int (Z.of_nat (index + k)) ++ lit " of "
                  ++ str_of_int (Z.of_nat total) ++ lit "</a>")
                 article.
Proof.
  revert index tr tr' articles. induction messages as [|msg rest IH];
    intros index tr tr' articles H.
  - cbn in H. apply Done_eq in H as [<- _]. split; [reflexivity|].
    intros k m a Hk. discriminate.
  - cbn [render_message_loop] in H. unfold mbind, io_bind in H.
    destruct (render_message _ _ _ _ index msg tr) as [[article|e] tr1] eqn:Hm;
      [|discriminate].
    destruct (render_message_loop _ _ _ _ (S index) rest tr1) as [[rest'|e] tr2]
      eqn:Hrest; [|discriminate].
    apply Done_eq in H as [<- _]. destruct (IH _ _ _ _ Hrest) as [Hlen Hseq].
    split; [cbn [length]; rewrite Hlen; reflexivity|].
    intros [|k] m a Hk Ha.
    + cbn in Hk, Ha. injection Hk as <-. injection Ha as <-.
      rewrite Nat.add_0_r. exact (render_message_sequence _ _ _ _ _ _ _ _ _ Hm).
    + cbn in Hk, Ha. replace (index + S k)%nat with (S index + k)%nat by lia.
      exact (Hseq k m a Hk Ha).
Qed.

(** X20. The messages of a thread are rendered one article each,
    in their order, joined by newlines; the [k]-th article carries the link
    to its own anchor labelled ["k of n"], [n] being the number of messages.
    Without messages the notice is all there is, and the tree is left
    alone. *)
Theorem render_messages_articles (messages : list message)
    (profile_lookup : gmap pystr (gmap pystr pystr))
    (store_files : gmap pystr pybytes) (export_files : pystr)
    (tr tr' : tree) (html : pystr) :
  render_messages messages profile_lookup store_files export_files tr
  = (Done html, tr') ->
  match messages with
  | [] =>
      html = tpl "<p class=`notice`>No messages were captured for this thread.</p>"
      /\ tr' = tr
  | _ =>
      exists articles,
        html = str_join [10] articles
        /\ length articles = length messages
        /\ forall k msg article,
             messages !! k = Some msg -> articles !! k = Some article ->
             occurs_in (tpl "<a href=`#" ++ message_anchor msg ++ tpl "`>"
                        ++ str_of_int (Z.of_nat (S k)) ++ lit " of "
                        ++ str_of_int (Z.of_nat (length messages)) ++ lit "</a>")
                       article
  end.
Proof.
  intros H. unfold render_messages in H. cbv zeta in H.
  destruct messages as [|msg rest].
  - cbn in H. apply Done_eq in H as [<- <-]. split; reflexivity.
  - rewrite bool_decide_eq_false_2 in H by discriminate.
    unfold mbind, io_bind in H.
    destruct (render_message_loop _ _ _ _ 1 (msg :: rest) tr) as [[articles|e] tr1]
      eqn:Hloop; [|discriminate].
    apply Done_eq in H as [<- _]. exists articles. split; [reflexivity|].
    destruct (render_message_loop_articles _ _ _ _ _ _ _ _ _ Hloop) as [Hlen Hseq].
    split; [exact Hlen|]. intros k m a Hk Ha. exact (Hseq k m a Hk Ha).
Qed.

(** ** Texts that can be encoded *)

Lemma utf8_encode_encodable (s : pystr) : encodable s <-> is_Some (utf8_encode s).
Proof.
  unfold encodable. induction s as [|c s IH]; cbn [utf8_encode].
  - split; [eauto|constructor].
  - split.
    + intros H. inversion H as [|? ? [b Hb] Hs]; subst. rewrite Hb.
      apply IH in Hs as [bs ->]. eauto.
    + destruct (utf8_char c) as [b|] eqn:Hc; [|intros [? ?]; discriminate].
      destruct (utf8_encode s) as [bs|]; [|intros [? ?]; discriminate].
      intros _. constructor; [eauto|]. apply IH. eauto.
Qed.

Lemma utf8_char_low (c : Z) : 0 <= c < 0xD800 -> is_Some (utf8_char c).
Proof.
  forget_tables. intros H. unfold utf8_char.
  repeat match goal with
         | |- context [?a <? ?b] => destruct (Z.ltb_spec a b); try lia
         | |- context [?a <=? ?b] => destruct (Z.leb_spec a b); try lia
         end; cbn [andb]; eauto.
Qed.

Lemma encodable_nil : encodable [].
Proof. constructor. Qed.

Lemma encodable_cons (c : Z) (s : pystr) :
  0 <= c < 0xD800 -> encodable s -> encodable (c :: s).
Proof. intros Hc Hs. constructor; [apply utf8_char_low; exact Hc|exact Hs]. Qed.

Lemma encodable_app (a b : pystr) : encodable a -> encodable b -> encodable (a ++ b).
Proof. intros Ha Hb. apply Forall_app. split; assumption. Qed.

Lemma encodable_app_inv (a b : pystr) :
  encodable (a ++ b) -> encodable a /\ encodable b.
Proof. intros H. apply Forall_app in H. exact H. Qed.

Lemma lit_range (s : string) : Forall (fun c => 0 <= c < 256) (lit s).
Proof.
  forget_tables. induction s as [|a s IH]; [constructor|].
  cbn [lit]. constructor; [|exact IH].
  pose proof (N_ascii_bounded a). lia.
Qed.

Lemma encodable_lit (s : string) : encodable (lit s).
Proof.
  eapply Forall_impl; [apply lit_range|]. intros c Hc. apply utf8_char_low.
  cbv beta in Hc. forget_tables. lia.
Qed.

Lemma encodable_tpl (s : string) : encodable (tpl s).
Proof.
  unfold tpl, encodable. apply Forall_map.
  eapply Forall_impl; [apply lit_range|]. intros c Hc. cbv beta in Hc |- *.
  apply utf8_char_low. forget_tables. destruct (c =? 96); lia.
Qed.

Lemma encodable_flat_map (g : Z -> pystr) (s : pystr) :
  (forall c, is_Some (utf8_char c) -> encodable (g c)) ->
  encodable s -> encodable (flat_map g s).
Proof.
  intros Hg. induction 1 as [|c s Hc _ IH]; [constructor|].
  cbn [flat_map]. apply encodable_app; [apply Hg; exact Hc|exact IH].
Qed.

Lemma encodable_single (c : Z) : is_Some (utf8_char c) -> encodable [c].
Proof. intros H. constructor; [exact H|constructor]. Qed.

Lemma encodable_html_escape (s : pystr) : encodable s -> encodable (html_escape s).
Proof.
  unfold html_escape. apply encodable_flat_map. intros c Hc.
  repeat match goal with
         | |- context [if ?b then _ else _] => destruct b
         end; try apply encodable_lit. apply encodable_single. exact Hc.
Qed.

Lemma encodable_replace_char (old : Z) (new s : pystr) :
  encodable new -> encodable s -> encodable (replace_char old new s).
Proof.
  intros Hn. unfold replace_char. apply encodable_flat_map. intros c Hc.
  destruct (c =? old); [exact Hn|apply encodable_single; exact Hc].
Qed.

Lemma encodable_digits_of (fuel : nat) (n : Z) (acc : pystr) :
  encodable acc -> encodable (digits_of fuel n acc).
Proof.
  revert n acc. induction fuel as [|fuel IH]; intros n acc Hacc; [exact Hacc|].
  cbn [digits_of].
  assert (encodable ((48 + n mod 10) :: acc)) as H.
  { apply encodable_cons; [|exact Hacc].
    pose proof (Z.mod_pos_bound n 10 ltac:(reflexivity)). forget_tables. lia. }
  destruct (n <? 10); [exact H|apply IH; exact H].
Qed.

Lemma encodable_str_of_int (n : Z) : encodable (str_of_int n).
Proof.
  unfold str_of_int. destruct (n <? 0).
  - apply encodable_cons; [forget_tables; lia|].
    apply encodable_digits_of, encodable_nil.
  - apply encodable_digits_of, encodable_nil.
Qed.

Lemma encodable_repeat (c : Z) (k : nat) : 0 <= c < 0xD800 -> encodable (repeat c k).
Proof.
  intros Hc. induction k as [|k IH]; [constructor|].
  cbn [repeat]. apply encodable_cons; assumption.
Qed.

Lemma encodable_fmt_0d (width : nat) (n : Z) : encodable (fmt_0d width n).
Proof.
  unfold fmt_0d, zero_pad. destruct (n <? 0).
  - apply encodable_cons; [forget_tables; lia|]. apply encodable_app.
    + apply encodable_repeat. forget_tables. lia.
    + apply encodable_digits_of, encodable_nil.
  - apply encodable_app; [|apply encodable_str_of_int].
    apply encodable_repeat. forget_tables. lia.
Qed.

Lemma encodable_month_abbr (m : Z) : encodable (month_abbr m).
Proof.
  unfold month_abbr.
  generalize (Z.to_nat (m - 1)). intros k.
  do 12 (destruct k as [|k]; [apply encodable_lit|]).
  destruct k; apply encodable_nil.
Qed.

Lemma encodable_am_pm (h : Z) : encodable (am_pm h).
Proof. unfold am_pm. destruct (h <? 12); apply encodable_lit. Qed.

Lemma encodable_concat (parts : list pystr) :
  Forall encodable parts -> encodable (concat parts).
Proof.
  induction 1 as [|p parts Hp _ IH]; [constructor|].
  cbn [concat]. apply encodable_app; assumption.
Qed.

Lemma encodable_str_join (sep : pystr) (parts : list pystr) :
  encodable sep -> Forall encodable parts -> encodable (str_join sep parts).
Proof.
  intros Hsep. induction 1 as [|p parts Hp Hparts IH]; [constructor|].
  cbn [str_join]. destruct parts as [|q parts]; [exact Hp|].
  apply encodable_app; [exact Hp|]. apply encodable_app; [exact Hsep|exact IH].
Qed.

Lemma encodable_take (n : nat) (s : pystr) : encodable s -> encodable (take n s).
Proof. apply Forall_take. Qed.

Lemma encodable_drop (n : nat) (s : pystr) : encodable s -> encodable (drop n s).
Proof. apply Forall_drop. Qed.

Lemma encodable_lstrip_by (p : Z -> bool) (s : pystr) :
  encodable s -> encodable (lstrip_by p s).
Proof.
  intros H. destruct (lstrip_by_suffix p s) as (pre & Hpre & _).
  rewrite Hpre in H. apply encodable_app_inv in H. apply H.
Qed.

Lemma encodable_rstrip_by (p : Z -> bool) (s : pystr) :
  encodable s -> encodable (rstrip_by p s).
Proof.
  intros H. destruct (rstrip_by_prefix p s) as (suf & Hsuf & _).
  rewrite Hsuf in H. apply encodable_app_inv in H. apply H.
Qed.

Lemma encodable_strip_by (p : Z -> bool) (s : pystr) :
  encodable s -> encodable (strip_by p s).
Proof. intros H. apply encodable_rstrip_by, encodable_lstrip_by, H. Qed.

Lemma encodable_sub_runs (p : Z -> bool) (rep : pystr) (inrun : bool) (s : pystr) :
  encodable rep -> encodable s -> encodable (sub_runs p rep inrun s).
Proof.
  intros Hrep Hs. revert inrun. induction Hs as [|c s Hc _ IH]; intros inrun.
  - constructor.
  - cbn [sub_runs]. destruct (p c).
    + apply encodable_app; [destruct inrun; [constructor|exact Hrep]|apply IH].
    + constructor; [exact Hc|apply IH].
Qed.

Lemma encodable_sub_tags (s : pystr) : encodable s -> encodable (sub_tags s).
Proof.
  unfold sub_tags. generalize (length s) as fuel. intros fuel. revert s.
  induction fuel as [|fuel IH]; intros s Hs; [exact Hs|].
  cbn [sub_tags_from]. destruct s as [|c r]; [constructor|].
  inversion Hs as [|? ? Hc Hr]; subst.
  destruct (c =? 60).
  - destruct (tag_end r) as [n|].
    + apply encodable_cons; [forget_tables; lia|]. apply IH, encodable_drop, Hr.
    + constructor; [exact Hc|apply IH, Hr].
  - constructor; [exact Hc|apply IH, Hr].
Qed.

Lemma encodable_replace_from (fuel : nat) (old new s : pystr) :
  encodable new -> encodable s -> encodable (replace_from fuel old new s).
Proof.
  intros Hnew. revert s. induction fuel as [|fuel IH]; intros s Hs; [exact Hs|].
  cbn [replace_from]. destruct s as [|c r]; [constructor|].
  destruct (str_startswith old (c :: r)).
  - apply encodable_app; [exact Hnew|]. apply IH, encodable_drop, Hs.
  - inversion Hs as [|? ? Hc Hr]; subst. constructor; [exact Hc|apply IH, Hr].
Qed.

Lemma encodable_str_replace (old new s : pystr) :
  encodable new -> encodable s -> encodable (str_replace old new s).
Proof.
  intros Hnew Hs. unfold str_replace. destruct old as [|o old].
  - apply encodable_app; [exact Hnew|]. apply encodable_flat_map; [|exact Hs].
    intros c Hc. constructor; [exact Hc|exact Hnew].
  - apply encodable_replace_from; assumption.
Qed.

Lemma encodable_or_default (x : option pystr) (d : pystr) :
  encodable_opt x -> encodable d -> encodable (or_default x d).
Proof.
  intros Hx Hd. unfold or_default. destruct x as [s|]; [|exact Hd].
  destruct (is_empty s); [exact Hd|exact Hx].
Qed.

Lemma encodable_opt_default (x : option pystr) :
  encodable_opt x -> encodable (default [] x).
Proof. destruct x; [intros H; exact H|intros _; constructor]. Qed.

(** Goes through a text built by concatenation. *)
Ltac enc_step :=
  first
    [ assumption
    | apply encodable_nil
    | apply encodable_lit
    | apply encodable_tpl
    | apply encodable_str_of_int
    | apply encodable_fmt_0d
    | apply encodable_month_abbr
    | apply encodable_am_pm
    | apply encodable_html_escape
    | apply encodable_opt_default
    | apply encodable_app
    | match goal with
      | |- encodable (if ?b then _ else _) => destruct b
      | |- encodable (match ?x with _ => _ end) => destruct x eqn:?
      end ].

Ltac enc := repeat enc_step.

Lemma encodable_strftime_thread (d : datetime) : encodable (strftime_thread d).
Proof. unfold strftime_thread. enc. Qed.

Lemma encodable_strftime_footer (d : datetime) : encodable (strftime_footer d).
Proof. unfold strftime_footer. enc. Qed.

Lemma encodable_format_time_component (d : datetime) :
  encodable (format_time_component d).
Proof. unfold format_time_component. cbv zeta. enc. Qed.

Lemma encodable_format_date_short (d : option datetime) :
  encodable_opt (format_date_short d).
Proof. destruct d as [d|]; [|exact I]. cbn [format_date_short encodable_opt]. enc. Qed.

Lemma encodable_format_card_timestamp (d : option datetime) :
  encodable_opt (format_card_timestamp d).
Proof.
  destruct d as [d|]; [|exact I]. cbn [format_card_timestamp encodable_opt].
  enc; apply encodable_format_time_component.
Qed.

Lemma encodable_format_folder_date (d : option datetime) :
  encodable (format_folder_date d).
Proof. unfold format_folder_date. enc. Qed.

Lemma encodable_header_date_display (d : option datetime) :
  encodable (header_date_display d).
Proof.
  unfold header_date_display. destruct d; [apply encodable_strftime_thread|enc].
Qed.

Lemma encodable_str_of_scalar (v : yaml_scalar) :
  clean_scalar (Some v) -> encodable (str_of_scalar v).
Proof. destruct v as [s|n]; cbn; [auto|intros _; apply encodable_str_of_int]. Qed.

Lemma encodable_pluralize (word : pystr) (count : Z) :
  encodable word -> encodable (pluralize word count).
Proof. intros H. unfold pluralize. enc. Qed.

Lemma encodable_generated_on (now : datetime) : encodable (generated_on now).
Proof. unfold generated_on. enc; apply encodable_strftime_footer. Qed.

Lemma url_safe_slug_encodable (s : pystr) : url_safe_slug s -> encodable s.
Proof.
  intros (_ & H & _). eapply Forall_impl; [exact H|]. intros c Hc. cbv beta in Hc.
  apply utf8_char_low. unfold is_slug_char in Hc. forget_tables.
  destruct Hc as [Hc| ->]; [|lia]. apply orb_true_iff in Hc.
  rewrite !andb_true_iff, !Z.leb_le in Hc. lia.
Qed.

Lemma encodable_slugify (value : pystr) : encodable (slugify value).
Proof. apply url_safe_slug_encodable, slugify_shaped. Qed.

Section Unescape.
Hypothesis unescape_encodable : forall s, encodable s -> encodable (html_unescape s).

Lemma encodable_strip_html (text : option pystr) :
  encodable_opt text -> encodable (strip_html text).
Proof using unescape_encodable.
  intros H. unfold strip_html. destruct text as [t|]; [|constructor]. cbv zeta.
  apply encodable_strip_by, encodable_sub_runs; [apply encodable_lit|].
  apply unescape_encodable, encodable_sub_tags, H.
Qed.

Lemma encodable_build_snippet (text : option pystr) (max_length : nat) :
  encodable_opt text -> encodable (build_snippet text max_length).
Proof using unescape_encodable.
  intros H. pose proof (encodable_strip_html text H) as Hplain.
  unfold build_snippet. cbv zeta.
  destruct (length (strip_html text) <=? max_length)%nat; [exact Hplain|].
  apply encodable_app; [|apply encodable_lit].
  assert (encodable (slice_to max_length (strip_html text))) as Hcut
    by (apply encodable_take; exact Hplain).
  assert (encodable (rsplit_space_head (slice_to max_length (strip_html text))))
    as Hhead.
  { unfold rsplit_space_head. destruct (last_index 32 _); [|exact Hcut].
    apply encodable_take. exact Hcut. }
  repeat first
    [ assumption
    | apply encodable_rstrip_by
    | apply encodable_lstrip_by
    | match goal with
      | |- encodable (if ?b then _ else _) => destruct b
      end ].
Qed.
End Unescape.

Lemma encodable_normalize_status (status : option pystr) :
  encodable_opt status -> encodable_opt (normalize_status status).
Proof.
  intros H. unfold normalize_status.
  destruct (truthy status && _); [apply encodable_lit|exact H].
Qed.

Lemma encodable_name_parts (name status : option pystr) :
  encodable_opt name -> encodable_opt status ->
  encodable (name_parts name status).1.1
  /\ encodable (name_parts name status).1.2
  /\ encodable_opt (name_parts name status).2.
Proof.
  intros Hname Hstatus. unfold name_parts. cbv zeta.
  assert (encodable (str_strip (or_default name []))) as Hraw
    by (apply encodable_strip_by, encodable_or_default; [exact Hname|constructor]).
  set (raw := str_strip (or_default name [])) in *.
  destruct (is_empty raw).
  { cbn [fst snd]. split; [apply encodable_lit|]. split; [constructor|].
    apply encodable_normalize_status, Hstatus. }
  set (pair := if negb (truthy status) && str_endswith (lit " unread") (str_lower raw)
               then (str_rstrip (slice_to_neg (length (lit "unread")) raw),
                     Some (lit "unread"))
               else (raw, status)).
  assert (encodable pair.1 /\ encodable_opt pair.2) as [Hp1 Hp2].
  { subst pair. destruct (negb (truthy status) && _); cbn [fst snd].
    - split; [|apply encodable_lit]. apply encodable_rstrip_by.
      unfold slice_to_neg. apply encodable_take. exact Hraw.
    - split; assumption. }
  destruct pair as [raw' status']. cbn [fst snd] in Hp1, Hp2.
  pose proof (encodable_normalize_status _ Hp2) as Hn.
  destruct (str_endswith (lit ")") raw' && str_contains 40 raw');
    [|cbn [fst snd]; repeat split; [exact Hp1|constructor|exact Hn]].
  case_bool_decide; [|cbn [fst snd]; repeat split; [exact Hp1|constructor|exact Hn]].
  cbn [fst snd]. split; [|split; [|exact Hn]].
  - destruct (is_empty _); [exact Hp1|].
    apply encodable_strip_by. unfold slice_to. apply encodable_take. exact Hp1.
  - apply encodable_strip_by. unfold slice_from. apply encodable_drop. exact Hp1.
Qed.

Lemma encodable_format_name_html (name : option pystr) (primary_class : pystr)
    (status : option pystr) :
  encodable_opt name -> encodable primary_class -> encodable_opt status ->
  encodable (format_name_html name primary_class status).
Proof.
  intros Hname Hcls Hstatus. unfold format_name_html.
  destruct (encodable_name_parts name status Hname Hstatus) as (H1 & H2 & H3).
  destruct (name_parts name status) as [[primary extra] local_status].
  cbn [fst snd] in H1, H2, H3. cbv zeta. enc.
Qed.

Lemma encodable_thread_title (t : thread) : clean_thread t -> encodable (thread_title t).
Proof. intros (Hid & Htitle & _). unfold thread_title. enc. Qed.

Lemma encodable_card_stats_parts (t : thread) :
  clean_thread t -> Forall encodable (card_stats_parts t).
Proof.
  intros (_ & _ & _ & _ & Hviews & _). unfold card_stats_parts. cbv zeta.
  pose proof (encodable_format_card_timestamp (t_last_date t)) as Hts.
  assert (Forall encodable
            [str_of_int (t_message_count t) ++ lit " "
             ++ pluralize (lit "message") (t_message_count t)]) as Hcount.
  { constructor; [|constructor]. enc. apply encodable_pluralize, encodable_lit. }
  set (parts := match format_card_timestamp (t_last_date t) with
                | Some _ => _ | None => _ end).
  assert (Forall encodable parts) as Hparts.
  { subst parts. destruct (format_card_timestamp (t_last_date t)) as [ts|];
      [|exact Hcount].
    apply Forall_app. split; [exact Hcount|]. constructor; [|constructor]. enc. }
  destruct (t_views t) as [v|]; [|exact Hparts].
  assert (Forall encodable (parts ++ [str_of_scalar v ++ lit " views"])) as Hall.
  { apply Forall_app. split; [exact Hparts|]. constructor; [|constructor].
    apply encodable_app; [apply encodable_str_of_scalar; exact Hviews|apply encodable_lit]. }
  destruct v as [[|c s]|n]; [exact Hparts| |].
  - case_bool_decide; [exact Hparts|exact Hall].
  - destruct n; [exact Hparts| |]; (case_bool_decide; [exact Hparts|exact Hall]).
Qed.

Lemma encodable_render_thread_card (t : thread) (href_prefix : pystr) :
  clean_thread t -> encodable href_prefix ->
  encodable (render_thread_card t href_prefix).
Proof.
  intros Ht Hprefix. pose proof (encodable_thread_title t Ht) as Htitle.
  pose proof (encodable_card_stats_parts t Ht) as Hstats.
  destruct Ht as (Hid & _ & _ & _ & _ & Hauthor & Hsnippet).
  unfold render_thread_card. cbv zeta.
  assert (encodable (str_join (lit " | ") (card_stats_parts t))) as Hjoin
    by (apply encodable_str_join; [apply encodable_lit|exact Hstats]).
  enc.
Qed.

Lemma encodable_index_section (f : folder) (section : pystr) :
  clean_folder f -> index_section f = Some section -> encodable section.
Proof.
  intros (Hname & Hslug & Hthreads). unfold index_section. cbv zeta.
  case_bool_decide as Hnil; [discriminate|]. intros E.
  apply Some_eq in E. subst section.
  assert (encodable (concat (map (fun t => render_thread_card t [])
                                 (take INDEX_THREADS_PER_FOLDER (f_threads f)))))
    as Hcards.
  { apply encodable_concat, Forall_map. apply Forall_take.
    eapply Forall_impl; [exact Hthreads|]. intros t Ht.
    apply encodable_render_thread_card; [exact Ht|constructor]. }
  set (subtitle := str_join _ _).
  assert (encodable subtitle) as Hsub.
  { subst subtitle. apply encodable_str_join; [apply encodable_lit|].
    destruct (negb _); repeat constructor; enc;
      apply encodable_pluralize, encodable_lit. }
  enc.
Qed.

Lemma encodable_render_index_html (forum_title description : pystr)
    (folders : list folder) (now : datetime) :
  encodable forum_title -> encodable description -> Forall clean_folder folders ->
  encodable (render_index_html forum_title description folders now).
Proof.
  intros Htitle Hdesc Hfolders. unfold render_index_html. cbv zeta.
  assert (encodable (concat (omap index_section folders))) as Hsections.
  { apply encodable_concat, Forall_forall. intros section Hin.
    apply list_elem_of_omap in Hin as (f & Hf & Hs).
    rewrite Forall_forall in Hfolders.
    exact (encodable_index_section f section (Hfolders f Hf) Hs). }
  pose proof (encodable_generated_on now) as Hgen.
  enc.
Qed.

Lemma encodable_folder_row (t : thread) : clean_thread t -> encodable (folder_row t).
Proof.
  intros (Hid & Htitle & _ & _ & _ & Hauthor & _). unfold folder_row. cbv zeta.
  pose proof (encodable_format_folder_date (t_first_date t)) as Hdate.
  assert (encodable (or_default (t_first_author t) (lit "Unknown"))) as Hau
    by (apply encodable_or_default; [exact Hauthor|apply encodable_lit]).
  enc.
Qed.

Lemma encodable_render_folder_html (forum_title : pystr) (f : folder)
    (now : datetime) :
  encodable forum_title -> clean_folder f ->
  encodable (render_folder_html forum_title f now).
Proof.
  intros Htitle (Hname & Hslug & Hthreads). unfold render_folder_html. cbv zeta.
  pose proof (encodable_generated_on now) as Hgen.
  assert (encodable (concat (map folder_row (listing_order (f_threads f))))) as Hrows.
  { apply encodable_concat, Forall_map. apply Forall_forall. intros t Ht.
    apply encodable_folder_row. rewrite Forall_forall in Hthreads. apply Hthreads.
    unfold listing_order in Ht. rewrite (sort_by_perm (A := thread)) in Ht. exact Ht. }
  set (subtitle_parts := if negb (sum_message_counts (f_threads f) =? 0) then _ else _).
  assert (Forall encodable subtitle_parts) as Hparts.
  { subst subtitle_parts. destruct (negb (sum_message_counts _ =? 0));
      destruct (negb (Z.of_nat _ =? 0)); repeat constructor; enc;
      apply encodable_pluralize, encodable_lit. }
  assert (encodable (str_join (lit " | ") subtitle_parts)) as Hjoin
    by (apply encodable_str_join; [apply encodable_lit|exact Hparts]).
  enc.
Qed.

Lemma encodable_render_thread_html (forum_title : pystr) (t : thread)
    (messages_html : pystr) :
  encodable forum_title -> clean_thread t -> encodable messages_html ->
  encodable (render_thread_html forum_title t messages_html).
Proof.
  intros Htitle Ht Hmessages. pose proof (encodable_thread_title t Ht) as Htopic.
  destruct Ht as (Hid & _ & Hfolder & _ & Hviews & _).
  unfold render_thread_html. cbv zeta.
  pose proof (encodable_header_date_display (t_first_date t)) as Hfirst.
  pose proof (encodable_header_date_display (t_last_date t)) as Hlast.
  assert (encodable (from_option str_of_scalar [] (t_views t))) as Hv.
  { destruct (t_views t) as [v|]; [|constructor]. cbn [from_option].
    apply encodable_str_of_scalar. exact Hviews. }
  enc.
Qed.

(** ** A clean store is exported *)

Lemma encodable_describe_profile (profile : option (gmap pystr pystr)) :
  (forall p label value, profile = Some p -> p !! label = Some value ->
                         encodable value) ->
  encodable (describe_profile profile).
Proof.
  intros H. unfold describe_profile. destruct profile as [p|]; [|constructor].
  cbv zeta. case_bool_decide; [constructor|].
  apply encodable_app; [apply encodable_tpl|].
  apply encodable_app; [|apply encodable_lit].
  apply encodable_str_join; [apply encodable_lit|].
  apply Forall_forall. intros detail Hin.
  apply list_elem_of_omap in Hin as (label & Hl & Hd).
  destruct (p !! label) as [value|] eqn:Hv; [|discriminate].
  destruct (is_empty value); [discriminate|]. apply Some_eq in Hd. subst detail.
  pose proof (H p label value eq_refl Hv) as Hvalue.
  assert (encodable label -> encodable (html_escape label ++ lit ": "
                                        ++ html_escape value)) as Hgoal
    by (intros Hlabel; enc).
  apply Hgoal. clear Hgoal.
  apply list_elem_of_In in Hl. cbn [map In] in Hl.
  repeat (destruct Hl as [<-|Hl]; [apply encodable_lit|]). destruct Hl.
Qed.

Lemma encodable_message_timestamp_text (msg : message) :
  encodable_opt (msg_date msg) -> encodable (message_timestamp_text msg).
Proof.
  intros Hdate. unfold message_timestamp_text. cbv zeta.
  assert (encodable (or_default (msg_date msg) [])) as Hraw
    by (apply encodable_or_default; [exact Hdate|constructor]).
  destruct (parse_date (Some (or_default (msg_date msg) []))) as [d|].
  - pose proof (encodable_format_date_short (Some d)) as Hshort.
    pose proof (encodable_format_time_component d) as Htime.
    assert (encodable (str_strip (default [] (format_date_short (Some d))))) as Hs
      by (apply encodable_strip_by, encodable_opt_default, Hshort).
    enc.
  - assert (encodable (str_strip (or_default (msg_date msg) []))) as Hs
      by (apply encodable_strip_by, Hraw).
    enc.
Qed.

Lemma encodable_hex_digit (c : Z) : is_hex_digit c = true -> is_Some (utf8_char c).
Proof.
  intros H. apply utf8_char_low. unfold is_hex_digit in H. forget_tables.
  apply orb_true_iff in H. rewrite !andb_true_iff, !Z.leb_le in H. lia.
Qed.

(** The name of a text that can be encoded is worked out, and it can be
    encoded. *)
Lemma hash_for_url_encodable (url : pystr) :
  encodable url -> exists h, hash_for_url url = Some h /\ encodable h.
Proof.
  intros Hurl. rewrite hash_for_url_code_split.
  assert (encodable (code_split url).1 /\ encodable (code_split url).2) as [H1 H2].
  { unfold code_split. destruct (hash_ext_search url) as [[i n]|]; cbn [fst snd].
    - unfold slice_to, slice_from. split; [apply encodable_take; exact Hurl|].
      apply encodable_take, encodable_drop, Hurl.
    - split; [exact Hurl|constructor]. }
  apply utf8_encode_encodable in H1 as [data Hdata]. rewrite Hdata.
  eexists. split; [reflexivity|]. apply encodable_app; [|exact H2].
  destruct (sha1_hexdigest_digits data) as [_ Hd].
  eapply Forall_impl; [exact Hd|]. intros c. apply encodable_hex_digit.
Qed.

(** The outcome and the log of the asset copier. *)
Lemma ensure_local_asset_log (url : option pystr)
    (store_files : gmap pystr pybytes) (export_files : pystr) :
  exists ops,
    Forall (asset_copy store_files export_files) ops
    /\ logged (ensure_local_asset url store_files export_files)
         (if negb (truthy url) then Done None
          else match hash_for_url (default [] url) with
               | None => Raised UnicodeEncodeError
               | Some h =>
                   match store_files !! h with
                   | Some _ => Done (Some (lit "files/" ++ h))
                   | None => Done None
                   end
               end)
         ops.
Proof.
  unfold ensure_local_asset. destruct (negb (truthy url)).
  { exists []. split; [constructor|apply logged_ret]. }
  destruct (hash_for_url (default [] url)) as [h|].
  2: { exists []. split; [constructor|apply logged_raise]. }
  destruct (store_files !! h) as [data|] eqn:Hs.
  2: { exists []. split; [constructor|apply logged_ret]. }
  exists [Copy (export_files ++ lit "/" ++ h) data]. split.
  - constructor; [|constructor]. exists h, data. split; [reflexivity|exact Hs].
  - intros tr. unfold exists_in_tree, get_tree, put_file, mbind, io_bind, mret, io_ret.
    cbn [run_ops foldl run_op].
    destruct (tr !! (export_files ++ lit "/" ++ h)) as [old|] eqn:E.
    + rewrite bool_decide_eq_true_2 by eauto. reflexivity.
    + rewrite bool_decide_eq_false_2 by (intros [? ?]; discriminate). reflexivity.
Qed.

Lemma returns_ensure_local_asset (url : option pystr)
    (store_files : gmap pystr pybytes) (export_files : pystr) :
  encodable_opt url ->
  logs (fun _ => True) (fun _ => False) encodable_opt
       (ensure_local_asset url store_files export_files).
Proof.
  intros Hurl. destruct (ensure_local_asset_log url store_files export_files)
    as (ops & _ & Hlog).
  eexists _, ops. split; [exact Hlog|]. split; [apply Forall_true; auto|].
  destruct (negb (truthy url)); [exact I|].
  destruct (hash_for_url_encodable (default [] url) (encodable_opt_default _ Hurl))
    as (h & -> & Hh).
  destruct (store_files !! h); [|exact I].
  cbn [encodable_opt]. apply encodable_app; [apply encodable_lit|exact Hh].
Qed.

Lemma returns_escape_opt (s : pystr) :
  encodable s ->
  logs (fun _ => True) (fun _ => False) encodable (escape_opt (Some s)).
Proof. intros H. apply logs_ret. apply encodable_html_escape, H. Qed.

Lemma returns_render_attachment (store_files : gmap pystr pybytes)
    (export_files : pystr) (a : attachment) :
  clean_attachment a ->
  logs (fun _ => True) (fun _ => False) encodable
       (render_attachment store_files export_files a).
Proof.
  intros ((href & Hhref & Hh) & Hname & Hsize). unfold render_attachment. cbv zeta.
  rewrite Hhref. eapply logs_bind.
  { apply returns_ensure_local_asset. exact Hh. }
  intros local Hlocal.
  assert (exists label, (if truthy (att_name a) then att_name a else Some href)
                        = Some label /\ encodable label) as (label & -> & Hlabel).
  { destruct (truthy (att_name a)) eqn:Hn; [|eauto].
    apply truthy_Some in Hn as [s Hs]. rewrite Hs in Hname |- *. eauto. }
  eapply logs_bind; [apply returns_escape_opt; exact Hlabel|].
  intros label_text Hlt.
  assert (encodable (if truthy (att_size a)
                     then lit " (" ++ html_escape (default [] (att_size a)) ++ lit ")"
                     else [])) as Hst by enc.
  destruct (truthy local) eqn:Hl.
  - apply logs_ret. apply truthy_Some in Hl as [path ->].
    cbn [encodable_opt default] in *. enc.
  - eapply logs_bind; [apply returns_escape_opt; exact Hh|].
    intros target Ht. apply logs_ret. enc.
Qed.

Lemma returns_rewrite_images (store_files : gmap pystr pybytes)
    (export_files : pystr) (images : list pystr) (content_html : pystr) :
  Forall encodable images -> encodable content_html ->
  logs (fun _ => True) (fun _ => False) encodable
       (rewrite_images store_files export_files images content_html).
Proof.
  intros Himages. revert content_html.
  induction Himages as [|url rest Hurl _ IH]; intros content_html Hc.
  - apply logs_ret. exact Hc.
  - cbn [rewrite_images]. eapply logs_bind.
    { apply (returns_ensure_local_asset (Some url)). exact Hurl. }
    intros local Hlocal. apply IH. destruct (truthy local) eqn:Hl; [|exact Hc].
    apply truthy_Some in Hl as [path ->]. cbn [encodable_opt default] in *.
    apply encodable_str_replace; [|exact Hc].
    apply encodable_app; [apply encodable_lit|exact Hlocal].
Qed.

Lemma Forall2_right {A B : Type} (Q : B -> Prop) (l : list A) (k : list B) :
  Forall2 (fun _ b => Q b) l k -> Forall Q k.
Proof. induction 1; constructor; assumption. Qed.

(** Goes through a text built from lists of parts. *)
Ltac enc_parts :=
  repeat first
    [ enc_step
    | apply encodable_concat
    | apply encodable_str_join
    | apply Forall_nil_2
    | apply Forall_cons_2
    | apply Forall_app_2
    | match goal with
      | |- Forall encodable (if ?b then _ else _) => destruct b
      end ].

Lemma encodable_message_anchor (msg : message) :
  encodable_opt (msg_id msg) -> encodable (message_anchor msg).
Proof.
  intros H. unfold message_anchor, message_mid.
  apply encodable_app; [apply encodable_lit|].
  apply encodable_replace_char; [apply encodable_lit|].
  apply encodable_or_default; [exact H|apply encodable_lit].
Qed.

Lemma returns_render_message (profile_lookup : gmap pystr (gmap pystr pystr))
    (store_files : gmap pystr pybytes) (export_files : pystr)
    (total index : nat) (msg : message) :
  clean_profiles profile_lookup -> clean_message msg ->
  logs (fun _ => True) (fun _ => False) encodable
       (render_message profile_lookup store_files export_files total index msg).
Proof.
  intros Hprofiles (Hid & Hfrom & Hto & Hfs & Hts & Hdate & Hcontent & Himages
                    & Hatts & Hreply).
  unfold render_message. cbv zeta.
  eapply logs_bind.
  { apply (logs_mapM _ _ (fun _ item => encodable item)).
    intros a Ha. apply returns_render_attachment.
    rewrite Forall_forall in Hatts. exact (Hatts a Ha). }
  intros items Hitems. apply Forall2_right in Hitems.
  eapply logs_bind.
  { apply returns_rewrite_images; [exact Himages|].
    apply encodable_or_default; [exact Hcontent|constructor]. }
  intros content Hc. apply logs_ret.
  pose proof (encodable_message_anchor msg Hid) as Hanchor.
  assert (encodable (message_mid msg)) as Hmid
    by (apply encodable_or_default; [exact Hid|apply encodable_lit]).
  assert (encodable (message_author_html msg)) as Hauthor.
  { unfold message_author_html. cbv zeta. apply encodable_format_name_html;
      [|apply encodable_lit|exact Hfs].
    cbn [encodable_opt]. apply encodable_or_default; [exact Hfrom|apply encodable_lit]. }
  assert (encodable (message_recipient_html msg)) as Hrecipient.
  { unfold message_recipient_html. cbv zeta. apply encodable_format_name_html;
      [|apply encodable_lit|exact Hts].
    cbn [encodable_opt]. apply encodable_or_default; [exact Hto|apply encodable_lit]. }
  pose proof (encodable_message_timestamp_text msg Hdate) as Htime.
  assert (encodable match profile_key_from_name (msg_from msg) with
                    | Some pk => describe_profile (profile_lookup !! pk)
                    | None => []
                    end) as Hprofile.
  { destruct (profile_key_from_name (msg_from msg)) as [pk|]; [|constructor].
    apply encodable_describe_profile. intros p label value Hp Hv.
    exact (Hprofiles pk p label value Hp Hv). }
  assert (encodable (replace_char 46 (lit "-") (default [] (msg_in_reply_to msg))))
    as Hra by (apply encodable_replace_char; enc).
  enc_parts.
Qed.

Lemma returns_render_message_loop (profile_lookup : gmap pystr (gmap pystr pystr))
    (store_files : gmap pystr pybytes) (export_files : pystr)
    (total index : nat) (messages : list message) :
  clean_profiles profile_lookup -> Forall clean_message messages ->
  logs (fun _ => True) (fun _ => False) (Forall encodable)
       (render_message_loop profile_lookup store_files export_files total index
          messages).
Proof.
  intros Hprofiles Hmessages. revert index.
  induction Hmessages as [|msg rest Hmsg _ IH]; intros index.
  - apply logs_ret. constructor.
  - cbn [render_message_loop]. eapply logs_bind.
    { apply returns_render_message; assumption. }
    intros article Ha. eapply logs_bind; [apply IH|].
    intros articles Has. apply logs_ret. constructor; assumption.
Qed.

Lemma returns_render_messages (messages : list message)
    (profile_lookup : gmap pystr (gmap pystr pystr))
    (store_files : gmap pystr pybytes) (export_files : pystr) :
  clean_profiles profile_lookup -> Forall clean_message messages ->
  logs (fun _ => True) (fun _ => False) encodable
       (render_messages messages profile_lookup store_files export_files).
Proof.
  intros Hprofiles Hmessages. unfold render_messages. cbv zeta.
  case_bool_decide; [apply logs_ret, encodable_tpl|].
  eapply logs_bind; [apply returns_render_message_loop; assumption|].
  intros rendered Hr. apply logs_ret.
  apply encodable_str_join; [|exact Hr]. apply encodable_single, utf8_char_low.
  forget_tables. lia.
Qed.

Section CleanStore.
Hypothesis unescape_encodable : forall s, encodable s -> encodable (html_unescape s).

Lemma thread_of_record_clean (stem : pystr) (data : thread_record) (t : thread) :
  clean_record (stem, data) -> thread_of_record stem data = Some t -> clean_thread t.
Proof using unescape_encodable.
  intros (Hstem & Hid & Hmd & Hmessages). cbn [fst snd] in *.
  unfold thread_of_record.
  destruct (processed_messages data) as [|first rest]; [discriminate|].
  cbv zeta. intros E. apply Some_eq in E. subst t.
  inversion Hmessages as [|? ? Hfirst _]; subst.
  destruct Hfirst as (_ & Hfrom & _ & _ & _ & _ & Hcontent & _).
  assert (encodable (or_default (thead_id data) stem)) as Htid
    by (apply encodable_or_default; assumption).
  set (md := default (mk_metadata None None None) (rec_metadata data)).
  assert (encodable_opt (md_topic md) /\ encodable_opt (md_folder md)
          /\ clean_scalar (md_views md)) as (Htopic & Hfolder & Hviews).
  { subst md. destruct (rec_metadata data) as [m|]; [exact Hmd|].
    cbn. repeat split. }
  unfold clean_thread. cbn [t_id t_title t_folder t_folder_slug t_views
                            t_first_author t_snippet].
  split; [exact Htid|]. split.
  { apply encodable_or_default; [exact Htopic|].
    apply encodable_app; [apply encodable_lit|exact Htid]. }
  split; [apply encodable_or_default; [exact Hfolder|apply encodable_lit]|].
  split; [apply encodable_slugify|]. split; [exact Hviews|].
  split; [exact Hfrom|]. apply encodable_build_snippet; assumption.
Qed.

Lemma returns_export_thread (forum_title : pystr)
    (profile_lookup : gmap pystr (gmap pystr pystr))
    (files_dir : gmap pystr pybytes) (stem : pystr) (data : thread_record) :
  encodable forum_title -> clean_profiles profile_lookup ->
  clean_record (stem, data) ->
  logs (fun _ => True) (fun _ => False)
       (fun r => r = thread_of_record stem data)
       (export_thread forum_title profile_lookup files_dir stem data).
Proof using unescape_encodable.
  intros Htitle Hprofiles Hrecord. unfold export_thread.
  destruct (thread_of_record stem data) as [t|] eqn:Ht; [|apply logs_ret; reflexivity].
  pose proof (thread_of_record_clean _ _ _ Hrecord Ht) as Hclean.
  destruct Hrecord as (_ & _ & _ & Hmessages). cbn [snd] in Hmessages.
  eapply logs_bind; [apply returns_render_messages; assumption|].
  intros html Hhtml.
  pose proof (encodable_render_thread_html forum_title t html Htitle Hclean Hhtml)
    as Hpage.
  apply utf8_encode_encodable in Hpage as [bytes Hbytes].
  unfold write_text. rewrite Hbytes.
  eapply logs_bind with (Q1 := fun _ => True).
  - exists (Done tt), [Write (lit "threads/" ++ t_id t ++ lit ".html") bytes].
    split; [intros tr; reflexivity|]. split; [repeat constructor|exact I].
  - intros [] _. apply logs_ret. reflexivity.
Qed.

Lemma returns_export_threads (forum_title : pystr)
    (profile_lookup : gmap pystr (gmap pystr pystr))
    (files_dir : gmap pystr pybytes) (entries : list (pystr * thread_record)) :
  encodable forum_title -> clean_profiles profile_lookup ->
  Forall clean_record entries ->
  logs (fun _ => True) (fun _ => False)
       (fun threads => threads = threads_of_records entries)
       (export_threads forum_title profile_lookup files_dir entries).
Proof using unescape_encodable.
  intros Htitle Hprofiles. induction 1 as [|[stem data] entries Hrecord _ IH].
  - apply logs_ret. reflexivity.
  - cbn [export_threads]. eapply logs_bind.
    { apply returns_export_thread; assumption. }
    intros r ->. eapply logs_bind; [exact IH|].
    intros threads ->. apply logs_ret. rewrite threads_of_records_cons. reflexivity.
Qed.

Lemma threads_of_records_clean (entries : list (pystr * thread_record)) :
  Forall clean_record entries -> Forall clean_thread (threads_of_records entries).
Proof using unescape_encodable.
  intros H. apply Forall_forall. intros t Ht.
  apply threads_of_records_elem in Ht as (stem & data & Hin & Ht).
  rewrite Forall_forall in H. exact (thread_of_record_clean _ _ _ (H _ Hin) Ht).
Qed.

Lemma sections_of_records_clean (entries : list (pystr * thread_record)) :
  Forall clean_record entries -> Forall clean_folder (sections_of_records entries).
Proof using unescape_encodable.
  intros H. apply Forall_forall. intros f Hf.
  destruct (sections_of_records_ok entries) as [_ Hok].
  destruct (Hok f Hf) as [Hslug Hfolder].
  pose proof (sections_of_records_inhabited entries) as Hin.
  rewrite Forall_forall in Hin. specialize (Hin f Hf).
  pose proof (threads_of_records_clean entries H) as Hclean.
  rewrite Forall_forall in Hclean.
  assert (Forall clean_thread (f_threads f)) as Hthreads.
  { apply Forall_forall. intros t Ht. apply Hclean.
    exact (section_threads_listed _ _ _ Hf Ht). }
  split; [|split; [|exact Hthreads]].
  - destruct (f_threads f) as [|t l]; [congruence|].
    rewrite <- (Hfolder t) by left.
    inversion Hthreads as [|? ? Ht _]; subst. apply Ht.
  - rewrite Hslug. apply encodable_slugify.
Qed.
End CleanStore.

Lemma returns_write_folder_pages (forum_title : pystr) (clock : nat -> datetime)
    (k : nat) (sections : list folder) :
  encodable forum_title -> Forall clean_folder sections ->
  logs (fun _ => True) (fun _ => False) (fun _ => True)
       (write_folder_pages forum_title clock k sections).
Proof.
  intros Htitle Hsections. revert k.
  induction Hsections as [|f rest Hf _ IH]; intros k.
  - apply logs_ret. exact I.
  - cbn [write_folder_pages].
    pose proof (encodable_render_folder_html forum_title f (clock k) Htitle Hf)
      as Hpage.
    apply utf8_encode_encodable in Hpage as [bytes Hbytes].
    unfold write_text. rewrite Hbytes.
    eapply logs_bind with (Q1 := fun _ => True).
    + exists (Done tt), [Write (folder_page_path f) bytes].
      split; [intros tr; reflexivity|]. split; [repeat constructor|exact I].
    + intros [] _. apply IH.
Qed.

(** X21. A run over a clean store returns: when the store has
    a threads directory, every text of it (and the forum title and the
    stylesheet) has a UTF-8 encoding, every attachment has an [href],
    [html.unescape] keeps texts encodable, and the identifier of every listed
    thread is a plain file name (no ['/'], no NUL) that, like the slug of its
    folder, is short enough for the name of a page, [main] raises nothing,
    whatever the export tree holds. The two conditions on names are those
    under which the file system takes every page where the model puts it. *)
Theorem main_returns (forum_title : pystr) (st : store)
    (clock : nat -> datetime) (tr : tree) :
  (forall s, encodable s -> encodable (html_unescape s)) ->
  encodable STYLE_CSS -> encodable forum_title -> clean_store st ->
  plain_thread_ids st -> page_names_fit st ->
  (main forum_title st clock tr).1 = Done tt.
Proof.
  intros Hunescape Hcss Htitle (entries & Hst & Hrecords & Hprofiles) _ _.
  assert (logs (fun _ => True) (fun _ => False) (fun _ => True)
               (main forum_title st clock)) as Hlogs.
  { unfold main. rewrite Hst.
    apply utf8_encode_encodable in Hcss as [css Hcss].
    eapply logs_bind with (Q1 := fun _ => True).
    { unfold write_text. rewrite Hcss.
      exists (Done tt), [Write (lit "assets/style.css") css].
      split; [intros tr0; reflexivity|]. split; [repeat constructor|exact I]. }
    intros [] _. unfold build_profile_lookup.
    assert (Forall clean_record (sorted_thread_files entries)) as Hsorted.
    { apply Forall_forall. intros entry Hentry.
      apply (proj1 (sorted_thread_files_elem _ _)) in Hentry.
      rewrite Forall_forall in Hrecords. exact (Hrecords entry Hentry). }
    eapply logs_bind.
    { apply returns_export_threads; assumption. }
    intros threads ->. cbv zeta. fold (sections_of_records entries).
    pose proof (sections_of_records_clean Hunescape entries Hrecords) as Hsections.
    eapply logs_bind.
    { apply returns_write_folder_pages; assumption. }
    intros [] _.
    pose proof (encodable_render_index_html forum_title
                  (lit "Offline snapshot generated from Delphi Forums scrape.")
                  (sections_of_records entries) (clock O) Htitle
                  (encodable_lit _) Hsections) as Hindex.
    apply utf8_encode_encodable in Hindex as [bytes Hbytes].
    unfold write_text. rewrite Hbytes.
    exists (Done tt), [Write (lit "index.html") bytes].
    split; [intros tr0; reflexivity|]. split; [repeat constructor|exact I]. }
  destruct Hlogs as (r & ops & Hm & _ & Hr). rewrite (Hm tr). cbn [fst].
  destruct r as [[]|e]; [reflexivity|contradiction].
Qed.

(** ** Tags *)

Lemma tag_end_None (r : pystr) :
  tag_end r = None <-> str_find 62 r = None \/ str_find 62 r = Some O.
Proof.
  unfold tag_end. destruct (str_find 62 r) as [[|j]|]; split; intros H;
    try reflexivity; try discriminate; auto; destruct H; discriminate.
Qed.

Lemma str_find_None (c : Z) (s : pystr) : str_find c s = None <-> c ∉ s.
Proof.
  induction s as [|x s IH]; cbn [str_find].
  - split; [intros _ H; inversion H|reflexivity].
  - destruct (Z.eqb_spec x c) as [->|Hne].
    + split; [discriminate|]. intros H. exfalso. apply H. left.
    + destruct (str_find c s) as [i|] eqn:Hs; cbn [option_map].
      * split; [discriminate|]. intros H. exfalso.
        assert (c ∉ s) as Hn by (intros Hin; apply H; right; exact Hin).
        apply IH in Hn. discriminate.
      * split; [|reflexivity]. intros _ Hin.
        apply elem_of_cons in Hin as [E|Hin]; [congruence|].
        exact (proj1 IH eq_refl Hin).
Qed.

Lemma sub_tags_from_no_gt (fuel : nat) (s : pystr) :
  62 ∉ s -> 62 ∉ sub_tags_from fuel s.
Proof.
  revert s. induction fuel as [|fuel IH]; intros s Hs; [exact Hs|].
  cbn [sub_tags_from]. destruct s as [|c r]; [exact Hs|].
  assert (c <> 62 /\ 62 ∉ r) as [Hc Hr].
  { split; [intros ->; apply Hs; left|intros Hin; apply Hs; right; exact Hin]. }
  assert (62 ∉ c :: sub_tags_from fuel r) as Hkeep.
  { intros Hin. apply elem_of_cons in Hin as [E|Hin]; [congruence|].
    exact (IH r Hr Hin). }
  destruct (c =? 60); [|exact Hkeep].
  destruct (tag_end r) as [n|] eqn:Ht; [|exact Hkeep].
  exfalso. apply str_find_None in Hr. unfold tag_end in Ht. rewrite Hr in Ht.
  discriminate.
Qed.

(** Where the text after a ['<'] holds no tag end, so does what is left of
    it. *)
Lemma sub_tags_from_tag_end (fuel : nat) (r : pystr) :
  (length r <= fuel)%nat -> tag_end r = None ->
  tag_end (sub_tags_from fuel r) = None.
Proof.
  intros Hfuel Ht. apply tag_end_None in Ht as [Ht|Ht]; apply tag_end_None.
  - left. apply str_find_None. apply sub_tags_from_no_gt.
    apply str_find_None. exact Ht.
  - right. destruct r as [|c r]; [discriminate|]. cbn [str_find] in Ht.
    destruct (Z.eqb_spec c 62) as [->|Hne];
      [|destruct (str_find 62 r); discriminate].
    destruct fuel as [|fuel]; [cbn [length] in Hfuel; lia|].
    cbn [sub_tags_from]. change (62 =? 60) with false. cbv iota.
    cbn [str_find]. rewrite Z.eqb_refl. reflexivity.
Qed.

Lemma sub_tags_from_fixed (fuel fuel' : nat) (s : pystr) :
  (length s <= fuel)%nat -> (length (sub_tags_from fuel s) <= fuel')%nat ->
  sub_tags_from fuel' (sub_tags_from fuel s) = sub_tags_from fuel s.
Proof.
  revert fuel' s. induction fuel as [|fuel IH]; intros fuel' s Hs Hout.
  - destruct s; [|cbn [length] in Hs; lia]. destruct fuel'; reflexivity.
  - cbn [sub_tags_from] in *. destruct s as [|c r]; [destruct fuel'; reflexivity|].
    cbn [length] in Hs.
    destruct (Z.eqb_spec c 60) as [->|Hne].
    + destruct (tag_end r) as [n|] eqn:Ht.
      * cbn [length] in Hout. destruct fuel' as [|fuel']; [lia|].
        cbn [sub_tags_from]. change (32 =? 60) with false. cbv iota.
        rewrite IH; [reflexivity|rewrite length_drop; lia|lia].
      * cbn [length] in Hout. destruct fuel' as [|fuel']; [lia|].
        cbn [sub_tags_from]. rewrite Z.eqb_refl.
        rewrite (sub_tags_from_tag_end fuel r) by (lia || exact Ht).
        rewrite IH; [reflexivity|lia|lia].
    + cbn [length] in Hout. destruct fuel' as [|fuel']; [lia|].
      cbn [sub_tags_from]. apply Z.eqb_neq in Hne. rewrite Hne.
      rewrite IH; [reflexivity|lia|lia].
Qed.

Lemma sub_tags_from_no_tag (fuel : nat) (s a b : pystr) :
  (length s <= fuel)%nat -> sub_tags_from fuel s = a ++ 60 :: b ->
  tag_end b = None.
Proof.
  revert s a. induction fuel as [|fuel IH]; intros s a Hs H.
  - destruct s; [|cbn [length] in Hs; lia]. destruct a; discriminate.
  - cbn [sub_tags_from] in H. destruct s as [|c r]; [destruct a; discriminate|].
    cbn [length] in Hs.
    destruct (Z.eqb_spec c 60) as [->|Hne].
    + destruct (tag_end r) as [n|] eqn:Ht.
      * destruct a as [|x a]; [discriminate|]. injection H as _ H.
        apply (IH (drop n r) a); [rewrite length_drop; lia|exact H].
      * destruct a as [|x a].
        -- injection H as <-. apply sub_tags_from_tag_end; [lia|exact Ht].
        -- injection H as _ H. apply (IH r a); [lia|exact H].
    + destruct a as [|x a]; [injection H as E _; congruence|].
      injection H as _ H. apply (IH r a); [lia|exact H].
Qed.

(** X22. The tag pattern of [strip_html] leaves no tag behind: in the
    text it returns, no ['<'] is followed by a text that runs up to a ['>']
    (so the pattern matches nowhere), and applying it again changes
    nothing. *)
Theorem sub_tags_leaves_no_tag (s : pystr) :
  (forall a b, sub_tags s = a ++ 60 :: b -> tag_end b = None)
  /\ sub_tags (sub_tags s) = sub_tags s.
Proof.
  split.
  - intros a b H. exact (sub_tags_from_no_tag (length s) s a b (le_n _) H).
  - unfold sub_tags. apply sub_tags_from_fixed; [apply le_n|apply le_n].
Qed.

(** ** The binaries of the archive *)

Lemma ensure_local_asset_present (url h : pystr)
    (store_files : gmap pystr pybytes) (export_files : pystr)
    (tr tr' : tree) (r : outcome (option pystr)) :
  captured store_files url h ->
  ensure_local_asset (Some url) store_files export_files tr = (r, tr') ->
  is_Some (tr' !! (export_files ++ lit "/" ++ h)).
Proof.
  intros (Hne & Hh & [data Hs]) H.
  rewrite (ensure_local_asset_found url h data _ _ _ Hne Hh Hs) in H.
  apply (f_equal snd) in H. cbn [snd] in H. subst tr'.
  destruct (tr !! (export_files ++ lit "/" ++ h)) as [old|] eqn:E.
  - rewrite E. eauto.
  - rewrite lookup_insert_eq. eauto.
Qed.

Lemma escape_opt_tree (x : option pystr) (tr tr' : tree) (r : outcome pystr) :
  escape_opt x tr = (r, tr') -> tr' = tr.
Proof. destruct x; cbv [escape_opt mret io_ret raise]; congruence. Qed.

Lemma render_attachment_assets (store_files : gmap pystr pybytes)
    (export_files : pystr) (a : attachment) (url h : pystr)
    (tr tr' : tree) (r : outcome pystr) :
  att_href a = Some url -> captured store_files url h ->
  render_attachment store_files export_files a tr = (r, tr') ->
  is_Some (tr' !! (export_files ++ lit "/" ++ h)).
Proof.
  intros Hhref Hcap H. unfold render_attachment in H. cbv zeta in H.
  rewrite Hhref in H. unfold mbind, io_bind in H.
  destruct (ensure_local_asset (Some url) _ _ tr) as [[local|e] tr1] eqn:He;
    pose proof (ensure_local_asset_present _ _ _ _ _ _ _ Hcap He) as Hp.
  - assert (tr' = tr1) as ->; [|exact Hp].
    destruct (escape_opt _ tr1) as [[label|e] tr2] eqn:Hl;
      apply escape_opt_tree in Hl; subst tr2; [|congruence].
    destruct (truthy local); [cbv [mret io_ret] in H; congruence|].
    destruct (escape_opt _ tr1) as [[target|e] tr3] eqn:Ht;
      apply escape_opt_tree in Ht; subst tr3; [|congruence].
    cbv [mret io_ret] in H. congruence.
  - injection H as _ <-. exact Hp.
Qed.

Lemma mapM_render_attachment_keeps (store_files : gmap pystr pybytes)
    (export_files : pystr) (atts : list attachment) (tr : tree) (k : pystr) :
  is_Some (tr !! k) ->
  is_Some ((mapM (render_attachment store_files export_files) atts tr).2 !! k).
Proof.
  apply (logs_keeps (asset_copy store_files export_files) (fun _ => True)
           (fun _ => True)).
  eapply logs_weaken;
    [| | |apply (logs_mapM _ (fun _ => True) (fun _ _ => True)
                   (render_attachment store_files export_files) atts)].
  - intros o Ho. exact Ho.
  - intros e He. exact He.
  - intros a Ha. exact I.
  - intros a _. eapply logs_weaken; [| | |apply logs_render_attachment].
    + intros o Ho. exact Ho.
    + intros e He. exact I.
    + intros b Hb. exact I.
Qed.

Lemma mapM_render_attachment_assets (store_files : gmap pystr pybytes)
    (export_files : pystr) (atts : list attachment) (a : attachment)
    (url h : pystr) (tr tr' : tree) (items : list pystr) :
  a ∈ atts -> att_href a = Some url -> captured store_files url h ->
  mapM (render_attachment store_files export_files) atts tr = (Done items, tr') ->
  is_Some (tr' !! (export_files ++ lit "/" ++ h)).
Proof.
  intros Ha Hhref Hcap. revert tr tr' items. induction atts as [|b atts IH];
    intros tr tr' items H; [inversion Ha|].
  change (mapM ?f (b :: atts)) with (y ← f b; k ← mapM f atts; mret (y :: k)) in H.
  apply bind_Done in H as (item & tr1 & Hb & H).
  apply bind_Done in H as (rest & tr2 & Hrest & H).
  apply Done_eq in H as [_ <-].
  apply elem_of_cons in Ha as [->|Ha].
  - pose proof (render_attachment_assets _ _ _ _ _ _ _ _ Hhref Hcap Hb) as Hp.
    pose proof (mapM_render_attachment_keeps store_files export_files atts tr1 _ Hp)
      as Hk.
    rewrite Hrest in Hk. exact Hk.
  - exact (IH Ha _ _ _ Hrest).
Qed.

Lemma rewrite_images_assets (store_files : gmap pystr pybytes)
    (export_files : pystr) (images : list pystr) (content_html : pystr)
    (url h : pystr) (tr tr' : tree) (html : pystr) :
  url ∈ images -> captured store_files url h ->
  rewrite_images store_files export_files images content_html tr = (Done html, tr') ->
  is_Some (tr' !! (export_files ++ lit "/" ++ h)).
Proof.
  intros Hin Hcap. revert content_html tr.
  induction images as [|u images IH]; intros content_html tr H; [inversion Hin|].
  cbn [rewrite_images] in H.
  apply bind_Done in H as (local & tr1 & He & H).
  apply elem_of_cons in Hin as [->|Hin]; [|exact (IH Hin _ _ H)].
  pose proof (ensure_local_asset_present _ _ _ _ _ _ _ Hcap He) as Hp.
  pose proof (logs_keeps _ _ _ _ tr1 _
                (logs_rewrite_images store_files export_files images
                   (if truthy local
                    then str_replace u (lit "../" ++ default [] local) content_html
                    else content_html)) Hp) as Hk.
  rewrite H in Hk. exact Hk.
Qed.

Lemma render_message_assets (profile_lookup : gmap pystr (gmap pystr pystr))
    (store_files : gmap pystr pybytes) (export_files : pystr)
    (total index : nat) (msg : message) (url h : pystr)
    (tr tr' : tree) (article : pystr) :
  url ∈ message_urls msg -> captured store_files url h ->
  render_message profile_lookup store_files export_files total index msg tr
  = (Done article, tr') ->
  is_Some (tr' !! (export_files ++ lit "/" ++ h)).
Proof.
  intros Hin Hcap H. unfold render_message in H. cbv zeta in H.
  apply bind_Done in H as (items & tr1 & Hitems & H).
  apply bind_Done in H as (content & tr2 & Hcontent & H).
  apply Done_eq in H as [_ <-].
  unfold message_urls in Hin. apply elem_of_app in Hin as [Hin|Hin].
  - apply list_elem_of_omap in Hin as (a & Ha & Hhref).
    pose proof (mapM_render_attachment_assets _ _ _ _ _ _ _ _ _ Ha Hhref Hcap Hitems)
      as Hp.
    pose proof (logs_keeps _ _ _ _ tr1 _
                  (logs_rewrite_images store_files export_files (msg_images msg)
                     (or_default (msg_content msg) [])) Hp) as Hk.
    rewrite Hcontent in Hk. exact Hk.
  - exact (rewrite_images_assets _ _ _ _ _ _ _ _ _ Hin Hcap Hcontent).
Qed.

Lemma render_message_loop_assets (profile_lookup : gmap pystr (gmap pystr pystr))
    (store_files : gmap pystr pybytes) (export_files : pystr)
    (total index : nat) (messages : list message) (msg : message)
    (url h : pystr) (tr tr' : tree) (articles : list pystr) :
  msg ∈ messages -> url ∈ message_urls msg -> captured store_files url h ->
  render_message_loop profile_lookup store_files export_files total index messages tr
  = (Done articles, tr') ->
  is_Some (tr' !! (export_files ++ lit "/" ++ h)).
Proof.
  intros Hmsg Hin Hcap. revert index tr tr' articles.
  induction messages as [|m messages IH]; intros index tr tr' articles H;
    [inversion Hmsg|].
  cbn [render_message_loop] in H.
  apply bind_Done in H as (article & tr1 & Hm & H).
  apply bind_Done in H as (rest & tr2 & Hrest & H).
  apply Done_eq in H as [_ <-].
  apply elem_of_cons in Hmsg as [->|Hmsg]; [|exact (IH Hmsg _ _ _ _ Hrest)].
  pose proof (render_message_assets _ _ _ _ _ _ _ _ _ _ _ Hin Hcap Hm) as Hp.
  pose proof (logs_keeps _ _ _ _ tr1 _
                (logs_render_message_loop profile_lookup store_files export_files
                   total (S index) messages) Hp) as Hk.
  rewrite Hrest in Hk. exact Hk.
Qed.

Lemma render_messages_assets (messages : list message)
    (profile_lookup : gmap pystr (gmap pystr pystr))
    (store_files : gmap pystr pybytes) (export_files : pystr) (msg : message)
    (url h : pystr) (tr tr' : tree) (html : pystr) :
  msg ∈ messages -> url ∈ message_urls msg -> captured store_files url h ->
  render_messages messages profile_lookup store_files export_files tr
  = (Done html, tr') ->
  is_Some (tr' !! (export_files ++ lit "/" ++ h)).
Proof.
  intros Hmsg Hin Hcap H. unfold render_messages in H. cbv zeta in H.
  case_bool_decide as Hn; [destruct messages; [inversion Hmsg|discriminate]|].
  apply bind_Done in H as (rendered & tr1 & Hloop & H).
  apply Done_eq in H as [_ <-].
  exact (render_message_loop_assets _ _ _ _ _ _ _ _ _ _ _ _ Hmsg Hin Hcap Hloop).
Qed.

Lemma export_thread_assets (forum_title : pystr)
    (profile_lookup : gmap pystr (gmap pystr pystr))
    (files_dir : gmap pystr pybytes) (stem : pystr) (data : thread_record)
    (msg : message) (url h : pystr) (tr tr' : tree) (r : option thread) :
  msg ∈ processed_messages data -> url ∈ message_urls msg ->
  captured files_dir url h ->
  export_thread forum_title profile_lookup files_dir stem data tr = (Done r, tr') ->
  is_Some (tr' !! (lit "files" ++ lit "/" ++ h)).
Proof.
  intros Hmsg Hin Hcap H. unfold export_thread in H.
  destruct (thread_of_record stem data) as [t|] eqn:Ht.
  - apply bind_Done in H as (html & tr1 & Hm & H).
    apply bind_Done in H as ([] & tr2 & Hw & H).
    apply Done_eq in H as [_ <-].
    pose proof (render_messages_assets _ _ _ _ _ _ _ _ _ _ Hmsg Hin Hcap Hm) as Hp.
    apply write_text_done in Hw as (bytes & _ & ->).
    apply lookup_insert_is_Some'. right. exact Hp.
  - apply thread_of_record_None in Ht. rewrite Ht in Hmsg. inversion Hmsg.
Qed.

Lemma export_threads_assets (forum_title : pystr)
    (profile_lookup : gmap pystr (gmap pystr pystr))
    (files_dir : gmap pystr pybytes) (entries : list (pystr * thread_record))
    (stem : pystr) (data : thread_record) (msg : message) (url h : pystr)
    (tr tr' : tree) (threads : list thread) :
  (stem, data) ∈ entries -> msg ∈ processed_messages data ->
  url ∈ message_urls msg -> captured files_dir url h ->
  export_threads forum_title profile_lookup files_dir entries tr
  = (Done threads, tr') ->
  is_Some (tr' !! (lit "files" ++ lit "/" ++ h)).
Proof.
  intros Hentry Hmsg Hin Hcap. revert tr tr' threads.
  induction entries as [|[stem0 data0] entries IH]; intros tr tr' threads H;
    [inversion Hentry|].
  cbn [export_threads] in H.
  apply bind_Done in H as (r & tr1 & He & H).
  apply bind_Done in H as (ts & tr2 & Hts & H).
  apply Done_eq in H as [_ <-].
  apply elem_of_cons in Hentry as [Heq|Hentry]; [|exact (IH Hentry _ _ _ Hts)].
  injection Heq as <- <-.
  pose proof (export_thread_assets _ _ _ _ _ _ _ _ _ _ _ Hmsg Hin Hcap He) as Hp.
  pose proof (logs_keeps _ _ _ _ tr1 _
                (logs_export_threads forum_title profile_lookup files_dir entries)
                Hp) as Hk.
  rewrite Hts in Hk. exact Hk.
Qed.

(** ** The index page and the folder pages *)

Lemma omap_all_Some_Forall2 {A B : Type} (g : A -> option B) (l : list A) :
  Forall (fun a => is_Some (g a)) l ->
  Forall2 (fun a b => g a = Some b) l (omap g l).
Proof.
  induction 1 as [|a l [b Hb] _ IH]; [constructor|].
  cbn [omap list_omap]. rewrite Hb. constructor; [exact Hb|exact IH].
Qed.

(** X11. The index page leaves out no folder of a run. Every folder
    section has its block, and the main element of the page holds the blocks
    of the sections, in their order, and nothing else; when there is no
    block it holds the notice that no forums were captured instead, which
    happens exactly when no record of the store has a message. *)
Theorem index_sections_shown (forum_title description : pystr)
    (entries : list (pystr * thread_record)) (now : datetime) :
  let sections := sections_of_records entries in
  let page := render_index_html forum_title description sections now in
  exists blocks,
    Forall2 (fun f block => index_section f = Some block) sections blocks
    /\ (blocks = [] <-> Forall (fun e => processed_messages e.2 = []) entries)
    /\ occurs_in (lit "<main>
    "
                  ++ (if bool_decide (blocks = [])
                      then tpl "<p class=`notice`>No forums were captured in this archive.</p>"
                      else concat blocks)
                  ++ lit "
  </main>")
                 page.
Proof.
  cbv zeta. exists (omap index_section (sections_of_records entries)).
  assert (Forall2 (fun f block => index_section f = Some block)
            (sections_of_records entries)
            (omap index_section (sections_of_records entries))) as Hblocks.
  { apply omap_all_Some_Forall2.
    eapply Forall_impl; [apply sections_of_records_inhabited|].
    intros f Hf. apply index_section_inhabited. exact Hf. }
  split; [exact Hblocks|]. split.
  - apply Forall2_length in Hblocks.
    rewrite <- threads_of_records_nil. split.
    + intros H. rewrite H in Hblocks. cbn [length] in Hblocks.
      pose proof (sections_of_records_threads entries) as Hp.
      destruct (sections_of_records entries); [|discriminate].
      cbn [map concat] in Hp. apply Permutation_nil. exact Hp.
    + intros H. pose proof (sections_of_records_threads entries) as Hp.
      rewrite H in Hp. pose proof (sections_of_records_inhabited entries) as Hi.
      destruct (sections_of_records entries) as [|f l]; [reflexivity|].
      inversion Hi as [|? ? Hf _]; subst. cbn [map concat] in Hp.
      apply Permutation_sym, Permutation_nil in Hp.
      apply app_eq_nil in Hp as [Hp _]. contradiction.
  - unfold render_index_html. cbv zeta.
    change (lit "</p>
  </header>
  <main>
    ")
      with (lit "</p>
  </header>
  " ++ lit "<main>
    ").
    change (lit "
  </main>
  <footer>
")
      with (lit "
  </main>" ++ lit "
  <footer>
").
    rewrite <- ?app_assoc.
    occurs_search ltac:(apply occurs_prefix3).
Qed.

(** X19. No thread of a folder is left out of the folder page: when the
    folder has threads, the page holds the row of each of them, and the row
    holds the link to the page of the thread. The index page, for its part,
    holds the card of each of the first six threads that each of its folder
    sections lists, and the card holds the link to the page of the thread. *)
Theorem threads_are_listed :
  (forall forum_title f now t,
      t ∈ f_threads f ->
      occurs_in (folder_row t) (render_folder_html forum_title f now)
      /\ occurs_in (tpl "<a href=`" ++ lit "../threads/" ++ t_id t ++ lit ".html"
                    ++ tpl "`>")
                   (folder_row t))
  /\ (forall forum_title description sections now f t,
        f ∈ sections ->
        t ∈ take INDEX_THREADS_PER_FOLDER (f_threads f) ->
        occurs_in (render_thread_card t [])
                  (render_index_html forum_title description sections now)
        /\ occurs_in (tpl "<a class=`thread-card` href=`" ++ lit "threads/"
                      ++ t_id t ++ lit ".html" ++ tpl "`>")
                     (render_thread_card t [])).
Proof.
  split.
  - intros forum_title f now t Ht. split; [apply folder_row_in_page; exact Ht|].
    unfold folder_row. cbv zeta.
    do 4 apply occurs_app_r. rewrite <- !app_assoc.
    exists (lit "<td>"), (html_escape (if is_empty (t_title t)
                             then lit "Thread " ++ html_escape (t_id t)
                             else t_title t)
                ++ lit "</a></td>" ++ lit "<td>"
                ++ format_folder_date (t_first_date t) ++ lit "</td>"
                ++ lit "<td>"
                ++ html_escape (or_default (t_first_author t) (lit "Unknown"))
                ++ lit "</td>" ++ lit "<td>" ++ str_of_int (reply_count t)
                ++ lit "</td>" ++ lit "</tr>").
    rewrite <- !app_assoc. reflexivity.
  - intros forum_title description sections now f t Hf Ht. split.
    + assert (f_threads f <> []) as Hne
        by (intros E; rewrite E, take_nil in Ht; inversion Ht).
      destruct (index_section_block f Hne) as (section & Hs & Hblock).
      assert (occurs_in (render_thread_card t [])
                (concat (map (fun t => render_thread_card t [])
                             (take INDEX_THREADS_PER_FOLDER (f_threads f))))) as Hcard
        by (apply (occurs_in_concat_map (fun t => render_thread_card t [])); exact Ht).
      eapply occurs_in_trans; [exact Hcard|].
      eapply occurs_in_trans; [|eapply occurs_in_trans; [exact Hblock|]].
      * apply occurs_app_r, occurs_here.
      * exact (index_section_in_page _ _ _ _ _ _ Hf Hs).
    + unfold render_thread_card. cbv zeta. cbn [app].
      apply occurs_app_r. rewrite <- ?app_assoc.
      eexists [], _. cbn [app]. rewrite <- ?app_assoc. reflexivity.
Qed.

(** ** The files a run touches *)

Lemma thread_of_record_id (stem : pystr) (data : thread_record) (t : thread) :
  thread_of_record stem data = Some t -> t_id t = or_default (thead_id data) stem.
Proof.
  unfold thread_of_record. destruct (processed_messages data); [discriminate|].
  cbv zeta. intros H. apply Some_eq in H. subst t. reflexivity.
Qed.

Lemma logs_export_thread_flat (forum_title : pystr)
    (profile_lookup : gmap pystr (gmap pystr pystr))
    (files_dir : gmap pystr pybytes) (stem : pystr) (data : thread_record) :
  (forall t, thread_of_record stem data = Some t -> plain_name (t_id t)) ->
  logs (flat_export_op files_dir) (fun _ => True)
       (fun r => r = thread_of_record stem data)
       (export_thread forum_title profile_lookup files_dir stem data).
Proof.
  intros Hplain. unfold export_thread.
  destruct (thread_of_record stem data) as [t|] eqn:Ht.
  - eapply logs_bind.
    { eapply logs_weaken; [| | |apply logs_render_messages];
        [intros o Ho; left; exact Ho|intros e He; exact I|intros html H; exact H]. }
    intros html _. eapply logs_bind.
    { apply (logs_write_text _ (fun _ => True)).
      - intros bytes. right. eexists _, _. split; [reflexivity|].
        right. right. left. exists (t_id t). split; [|reflexivity].
        apply Hplain. reflexivity.
      - exact I. }
    intros [] _. apply logs_ret. reflexivity.
  - apply logs_ret. reflexivity.
Qed.

Lemma logs_export_threads_flat (forum_title : pystr)
    (profile_lookup : gmap pystr (gmap pystr pystr))
    (files_dir : gmap pystr pybytes) (entries : list (pystr * thread_record)) :
  (forall stem data t, (stem, data) ∈ entries ->
                       thread_of_record stem data = Some t -> plain_name (t_id t)) ->
  logs (flat_export_op files_dir) (fun _ => True)
       (fun threads => threads = threads_of_records entries)
       (export_threads forum_title profile_lookup files_dir entries).
Proof.
  induction entries as [|[stem data] entries IH]; intros Hplain.
  - apply logs_ret. reflexivity.
  - cbn [export_threads]. eapply logs_bind.
    { apply logs_export_thread_flat. intros t Ht.
      apply (Hplain stem data t); [left|exact Ht]. }
    intros r ->. eapply logs_bind.
    { apply IH. intros s d t Hin Ht. apply (Hplain s d t); [right; exact Hin|exact Ht]. }
    intros threads ->. apply logs_ret.
    rewrite threads_of_records_cons. reflexivity.
Qed.

Lemma logs_write_folder_pages_flat (store_files : gmap pystr pybytes)
    (forum_title : pystr) (clock : nat -> datetime) (k : nat)
    (sections : list folder) :
  Forall (fun f => url_safe_slug (f_slug f)) sections ->
  logs (flat_export_op store_files) (fun _ => True) (fun _ => True)
       (write_folder_pages forum_title clock k sections).
Proof.
  revert k. induction sections as [|f rest IH]; intros k H.
  - apply logs_ret. exact I.
  - inversion H as [|? ? Hf Hrest]; subst. cbn [write_folder_pages].
    eapply logs_bind.
    + apply (logs_write_text _ (fun _ => True)); [|exact I].
      intros bytes. right. eexists _, _. split; [reflexivity|].
      right. right. right. exists (f_slug f). split; [exact Hf|reflexivity].
    + intros [] _. apply IH. exact Hrest.
Qed.

(** The log of a run whose thread identifiers are plain names. *)
Lemma logs_main_flat (forum_title : pystr) (st : store) (clock : nat -> datetime) :
  plain_thread_ids st ->
  logs (flat_export_op (store_files st)) (fun _ => True) (fun _ => True)
       (main forum_title st clock).
Proof.
  intros Hplain. unfold main. destruct (store_threads st) as [entries|] eqn:Hst.
  - eapply logs_bind.
    { apply (logs_write_text _ (fun _ => True)); [|exact I].
      intros bytes. right. eexists _, _. split; [reflexivity|]. left. reflexivity. }
    intros [] _. unfold build_profile_lookup. eapply logs_bind.
    { apply logs_export_threads_flat. intros stem data t Hin Ht.
      apply (Hplain entries stem data t);
        [first [exact Hst|reflexivity]
        |apply sorted_thread_files_elem; exact Hin|exact Ht]. }
    intros threads ->. cbv zeta.
    fold (sections_of_records entries). eapply logs_bind.
    { apply (logs_write_folder_pages_flat (store_files st)).
      apply sections_of_records_slugs. }
    intros [] _. eapply logs_weaken; [| | |apply (logs_write_text _ (fun _ => True))].
    + intros o Ho. exact Ho.
    + intros e He. exact I.
    + intros [] _. exact I.
    + intros bytes. right. eexists _, _. split; [reflexivity|]. right. left. reflexivity.
    + exact I.
  - apply logs_raise. exact I.
Qed.

(** Outside the paths [pages] a run of page writes and asset copies only
    brings files of the store. *)
Lemma key_run_frame (pages : pystr -> Prop) (store_files : gmap pystr pybytes)
    (k : pystr) (ops : list tree_op) (x : option pybytes) :
  Forall (fun o => asset_copy store_files (lit "files") o
                   \/ exists path data, o = Write path data /\ pages path) ops ->
  foldl (key_step k) x ops = x
  \/ pages k
  \/ (x = None
      /\ exists h data, k = lit "files/" ++ h /\ store_files !! h = Some data
                        /\ foldl (key_step k) x ops = Some data).
Proof.
  intros Hops. revert x. induction Hops as [|o ops Ho _ IH]; intros x.
  - left. reflexivity.
  - cbn [foldl]. destruct Ho as [(h & data & -> & Hs)|(path & data & -> & Hp)].
    + cbn [key_step]. case_bool_decide as E; [|apply IH].
      destruct x as [z|].
      * destruct (IH (Some z)) as [H|[H|[H _]]];
          [left; exact H|right; left; exact H|discriminate].
      * destruct (IH (Some data)) as [H|[H|[H _]]];
          [|right; left; exact H|discriminate].
        right. right. split; [reflexivity|]. exists h, data.
        split; [symmetry; exact E|]. split; [exact Hs|exact H].
    + cbn [key_step]. case_bool_decide as E; [subst; right; left; exact Hp|apply IH].
Qed.

(** X14. A run over a store whose thread identifiers are plain file names
    (no ['/'], no NUL) touches nothing but its own files: a path of the
    export tree keeps its content unless it is the path of the stylesheet,
    of the index, of the page of a thread in the threads directory, or of a
    folder page named by a URL-safe slug in the folders directory; or unless
    it was missing, lies in the files directory under the name of a file of
    the store, and now holds the content of that file. *)
Theorem main_frame (forum_title : pystr) (st : store) (clock : nat -> datetime)
    (tr : tree) (path : pystr) :
  plain_thread_ids st ->
  let after := (main forum_title st clock tr).2 in
  after !! path = tr !! path
  \/ flat_page_path path
  \/ (exists h data,
        path = lit "files/" ++ h /\ store_files st !! h = Some data
        /\ tr !! path = None /\ after !! path = Some data).
Proof.
  intros Hplain.
  destruct (logs_run _ _ _ _ tr (logs_main_flat forum_title st clock Hplain))
    as (ops & Hafter & Hops & _).
  cbv zeta. rewrite Hafter, run_ops_lookup.
  destruct (key_run_frame flat_page_path _ path ops (tr !! path) Hops)
    as [H|[H|(Hx & h & data & Hk & Hs & H)]];
    [left; exact H|right; left; exact H|].
  right. right. exists h, data. rewrite Hx in H |- *. repeat split; assumption.
Qed.

Lemma files_not_flat_page_path (h : pystr) : ~ flat_page_path (lit "files/" ++ h).
Proof.
  intros [H|[H|[(id & _ & H)|(slug & _ & H)]]]; cbn in H; discriminate H.
Qed.

(** X23. After a run that returns, over a store whose thread identifiers
    are plain file names (no ['/'], no NUL), every binary the messages refer
    to and the store captured is in the archive: for an attachment [href] or
    an image URL of a message of a record, not empty, whose hashed name [h]
    names a file of the store, the export tree holds [files/h]; with the
    content it had before the run if it was there, and with the content of
    the file of the store otherwise. *)
Theorem captured_files_exported (forum_title : pystr) (st : store)
    (clock : nat -> datetime) (tr tr' : tree)
    (entries : list (pystr * thread_record)) (stem : pystr)
    (data : thread_record) (msg : message) (url h : pystr) :
  store_threads st = Some entries -> (stem, data) ∈ entries ->
  msg ∈ processed_messages data -> url ∈ message_urls msg ->
  captured (store_files st) url h ->
  plain_thread_ids st ->
  main forum_title st clock tr = (Done tt, tr') ->
  tr' !! (lit "files/" ++ h)
  = match tr !! (lit "files/" ++ h) with
    | Some old => Some old
    | None => store_files st !! h
    end.
Proof.
  intros Hst Hentry Hmsg Hin Hcap Hplain Hmain.
  assert (is_Some (tr' !! (lit "files/" ++ h))) as Hpresent.
  { unfold main in Hmain. rewrite Hst in Hmain.
    apply bind_Done in Hmain as ([] & tr1 & Hcss & Hmain).
    apply bind_Done in Hmain as (threads & tr2 & Hthreads & Hmain).
    apply bind_Done in Hmain as ([] & tr3 & Hfolders & Hmain).
    apply (proj2 (sorted_thread_files_elem _ _)) in Hentry.
    pose proof (export_threads_assets _ _ _ _ _ _ _ _ _ _ _ _
                  Hentry Hmsg Hin Hcap Hthreads) as Hp.
    destruct (write_folder_pages_written _ _ _ _ _ _ Hfolders) as [_ Hold].
    apply write_text_done in Hmain as (bytes & _ & ->).
    apply lookup_insert_is_Some'. right. apply Hold. exact Hp. }
  destruct (logs_run _ _ _ _ tr (logs_main_flat forum_title st clock Hplain))
    as (ops & Hafter & Hops & _).
  rewrite Hmain in Hafter. cbn [snd] in Hafter. subst tr'.
  rewrite run_ops_lookup in Hpresent |- *.
  destruct (key_run_frame flat_page_path _ (lit "files/" ++ h) ops
              (tr !! (lit "files/" ++ h)) Hops)
    as [H|[H|(Hx & h' & bytes & Hk & Hs & H)]].
  - rewrite H in Hpresent |- *. destruct Hpresent as [old ->]. reflexivity.
  - destruct (files_not_flat_page_path _ H).
  - rewrite H, Hx. apply app_inv_head in Hk. subst h'. symmetry. exact Hs.
Qed.

End Pipeline.

(** ** The statements on sample data *)

(** The hashed name of a text without surprises. *)
Example hash_for_url_sample :
  hash_for_url sample_url = Some sample_hashed_name
  /\ spec_hash_for_url sample_url = Some sample_hashed_name.
Proof. split; vm_compute; reflexivity. Qed.

(** [hashlib.sha1] on the vectors of FIPS 180. *)
Example sha1_vectors :
  sha1_hexdigest (lit "abc") = lit "a9993e364706816aba3e25717850c26c9cd0d89d"
  /\ sha1_hexdigest [] = lit "da39a3ee5e6b4b0d3255bfef95601890afd80709"
  /\ sha1_hexdigest (lit "abcdbcdecdefdefgefghfghighijhijkijkljklmklmnlmnomnopnopq")
     = lit "84983e441c3bd26ebaae4aa1f95129e5e54670f1".
Proof. repeat split; vm_compute; reflexivity. Qed.

(** C1, the claim as stated fails: the text ["x.abcde\n"] does not end with
    an extension of one to five characters, so the claim hashes all of it and
    appends nothing; [hash_for_url] hashes ["x"], appends [".abcde"] and drops
    the newline. *)
Lemma hash_for_url_newline_counterexample :
  spec_hash_for_url newline_url = Some (sha1_hexdigest newline_url)
  /\ hash_for_url newline_url = Some (sha1_hexdigest (lit "x") ++ lit ".abcde")
  /\ hash_for_url newline_url <> spec_hash_for_url newline_url.
Proof.
  split; [vm_compute; reflexivity|]. split; [vm_compute; reflexivity|].
  vm_compute. discriminate.
Qed.

Lemma hash_for_url_extension_rule_witness :
  (forall p e, sample_url = p ++ e ++ [10] -> is_extension e -> length e <> 6%nat)
  /\ hash_for_url sample_url = spec_hash_for_url sample_url
  /\ exists p e,
       ext_split sample_url p e
       /\ (forall p' e', ext_split sample_url p' e' -> p' = p /\ e' = e)
       /\ hash_for_url sample_url
          = (fun data => sha1_hexdigest data ++ e) <$> utf8_encode p.
Proof.
  assert (forall p e, sample_url = p ++ e ++ [10] -> is_extension e ->
                      length e <> 6%nat) as Hnl.
  { intros p e Hu _ _. rewrite app_assoc in Hu. apply (f_equal last) in Hu.
    rewrite last_snoc in Hu. vm_compute in Hu. discriminate Hu. }
  split; [exact Hnl|]. split.
  - exact (proj2 (hash_for_url_extension_rule sample_url) Hnl).
  - exact (proj1 (hash_for_url_extension_rule sample_url)).
Defined.

(** C2, the claim as stated fails: a URL that is a lone surrogate has no
    UTF-8 encoding, and the operation raises instead of returning [None]. *)
Lemma ensure_local_asset_surrogate_counterexample :
  ensure_local_asset (Some surrogate_url) ∅ (lit "files") ∅
  = (Raised UnicodeEncodeError, ∅).
Proof. vm_compute. reflexivity. Qed.

Lemma ensure_local_asset_resolves_witness :
  sample_url <> []
  /\ hash_for_url sample_url = Some sample_hashed_name
  /\ (forall data, sample_files !! sample_hashed_name = Some data ->
        exists tr',
          ensure_local_asset (Some sample_url) sample_files (lit "files") ∅
          = (Done (Some (lit "files/" ++ sample_hashed_name)), tr')
          /\ tr' !! (lit "files" ++ lit "/" ++ sample_hashed_name)
             = Some (default data
                       ((∅ : gmap (list Z) (list Z))
                          !! (lit "files" ++ lit "/" ++ sample_hashed_name)))
          /\ (forall path, path <> lit "files" ++ lit "/" ++ sample_hashed_name ->
                           tr' !! path = (∅ : gmap (list Z) (list Z)) !! path)
          /\ ensure_local_asset (Some sample_url) sample_files (lit "files") tr'
             = (Done (Some (lit "files/" ++ sample_hashed_name)), tr')).
Proof.
  assert (sample_url <> []) as Hne by discriminate.
  assert (hash_for_url sample_url = Some sample_hashed_name) as Hh
    by (vm_compute; reflexivity).
  split; [exact Hne|]. split; [exact Hh|].
  exact (proj1 (proj2 (ensure_local_asset_resolves sample_url sample_hashed_name
                         sample_files (lit "files") ∅ Hne Hh))).
Defined.

Lemma empty_threads_dropped_witness :
  main plain_case_table unescape_basic strptime_c [] (lit "Archive")
       sample_store sample_clock ∅
  = main plain_case_table unescape_basic strptime_c [] (lit "Archive")
         (drop_empty_records sample_store) sample_clock ∅
  /\ store_threads (drop_empty_records sample_store) = Some [(lit "3", sample_record)].
Proof.
  split.
  - exact (proj1 (empty_threads_dropped plain_case_table unescape_basic strptime_c []
                    (lit "Archive") sample_store sample_clock ∅)).
  - reflexivity.
Defined.

Lemma folder_orderings_witness :
  listing_order sample_threads = [dated_thread; undated_thread; extreme_thread]
  /\ preview_order sample_threads = [dated_thread; extreme_thread; undated_thread]
  /\ StronglySorted listing_le (listing_order sample_threads)
  /\ StronglySorted preview_ge (preview_order sample_threads)
  /\ datetime_max = datetime_max.
Proof.
  pose proof (folder_orderings plain_case_table unescape_basic strptime_c []
                sample_threads)
    as (_ & Hl & _ & Hp & _ & Hlast & _).
  assert (listing_order sample_threads = [dated_thread; undated_thread; extreme_thread])
    as El by (vm_compute; reflexivity).
  split; [exact El|]. split; [vm_compute; reflexivity|].
  split; [exact Hl|]. split; [exact Hp|].
  exact (Hlast [dated_thread] undated_thread [] extreme_thread [] datetime_max
               El eq_refl eq_refl eq_refl).
Defined.

Lemma build_snippet_rule_witness :
  (180 < length (strip_html unescape_basic (Some long_body)))%nat
  /\ build_snippet unescape_basic (Some long_body) 180
     = concat (repeat (lit "word ") 35) ++ lit "word" ++ lit "..."
  /\ exists cut body,
       cut_at (strip_html unescape_basic (Some long_body)) 180 cut
       /\ body = str_rstrip_chars (lit ".,;")
                   (take cut (strip_html unescape_basic (Some long_body)))
       /\ build_snippet unescape_basic (Some long_body) 180 = body ++ lit "..."
       /\ (length body <= 180)%nat
       /\ (forall c, last body = Some c -> c <> 46 /\ c <> 44 /\ c <> 59).
Proof.
  assert (180 < length (strip_html unescape_basic (Some long_body)))%nat as Hlen
    by (vm_compute; lia).
  split; [exact Hlen|]. split; [vm_compute; reflexivity|].
  exact (proj1 (proj2 (proj2 (proj2 (build_snippet_rule unescape_basic
                                      (Some long_body))))) Hlen).
Defined.

(** C6, the claim as stated fails: an absent name with a supplied status
    is rendered with a status decoration, and an absent recipient of a
    message is rendered as ["All"]. *)
Lemma format_name_counterexample :
  format_name_html plain_case_table None (lit "c") (Some (lit "unread"))
  = tpl "<span class=`c`>Unknown</span> <span class=`msg-status`>unread</span>"
  /\ format_name_html plain_case_table None (lit "c") (Some (lit "unread"))
     <> tpl "<span class=`c`>Unknown</span>"
  /\ message_recipient_html plain_case_table bare_message
     = tpl "<span class=`msg-recipient-name`>All</span>".
Proof.
  split; [vm_compute; reflexivity|]. split; [vm_compute; discriminate|].
  vm_compute. reflexivity.
Qed.

Lemma format_name_rules_witness :
  name_parts plain_case_table (Some (lit "  Alice (guest) unread ")) None
  = name_parts plain_case_table (Some (lit "Alice (guest)")) (Some (lit "unread"))
  /\ name_parts plain_case_table (Some (lit "Alice (guest)")) (Some (lit "unread"))
     = (lit "Alice", lit "(guest)", Some (lit "unread")).
Proof.
  pose proof (format_name_rules plain_case_table) as (Hunread & Hparen & _).
  split.
  - exact (Hunread (Some (lit "  Alice (guest) unread ")) None (lit "Alice (guest)")
                   eq_refl eq_refl).
  - refine (eq_trans
              (Hparen (Some (lit "Alice (guest)")) (Some (lit "unread"))
                      (lit "Alice ") (lit "guest") eq_refl _ (or_introl eq_refl)) _).
    + intros H. apply list_elem_of_In in H. cbn in H.
      repeat (destruct H as [H|H]; [discriminate H|]). exact H.
    + vm_compute. reflexivity.
Defined.

(** C7, the claim as stated fails: the folders ["A B"] and ["a-b"] have the
    slug ["a-b"]; the export raises nothing and keeps two sections of one
    thread each, and the file [folders/a-b.html] ends up as the page of the
    second section, ["a-b"], which lists thread 2 and not thread 1: nothing
    is merged into the page of the first folder, whose page is lost. *)
Lemma slug_collision_counterexample :
  let run := main plain_case_table unescape_basic strptime_c [] (lit "Archive")
                  colliding_store sample_clock ∅ in
  map (fun f => (f_name f, f_slug f, map t_id (f_threads f)))
      (sections_of_records plain_case_table unescape_basic strptime_c colliding_entries)
  = [(lit "A B", lit "a-b", [lit "1"]); (lit "a-b", lit "a-b", [lit "2"])]
  /\ run.1 = Done tt
  /\ exists page,
       run.2 !! lit "folders/a-b.html" = Some page
       /\ str_in (lit "<h2>a-b</h2>") page = true
       /\ str_in (lit "../threads/2.html") page = true
       /\ str_in (lit "<h2>A B</h2>") page = false
       /\ str_in (lit "../threads/1.html") page = false.
Proof.
  cbv zeta. split; [vm_compute; reflexivity|]. split; [vm_compute; reflexivity|].
  eexists. split; [vm_compute; reflexivity|]. repeat split; vm_compute; reflexivity.
Qed.

Lemma slug_collision_overwrites_witness :
  store_threads colliding_store = Some colliding_entries
  /\ main plain_case_table unescape_basic strptime_c [] (lit "Archive")
          colliding_store sample_clock ∅
     = (Done tt,
        (main plain_case_table unescape_basic strptime_c [] (lit "Archive")
              colliding_store sample_clock ∅).2)
  /\ NoDup (map f_name
              (sections_of_records plain_case_table unescape_basic strptime_c
                 colliding_entries)).
Proof.
  assert (main plain_case_table unescape_basic strptime_c [] (lit "Archive")
               colliding_store sample_clock ∅
          = (Done tt,
             (main plain_case_table unescape_basic strptime_c [] (lit "Archive")
                   colliding_store sample_clock ∅).2)) as Hrun
    by (vm_compute; reflexivity).
  split; [reflexivity|]. split; [exact Hrun|].
  exact (proj1 (slug_collision_overwrites plain_case_table unescape_basic strptime_c []
                  (lit "Archive") colliding_store sample_clock ∅ _ colliding_entries
                  eq_refl Hrun)).
Defined.

Lemma reply_count_rule_witness :
  exists t,
    thread_of_record plain_case_table unescape_basic strptime_c (lit "3") sample_record
    = Some t
    /\ t_message_count t = 2
    /\ reply_count t = 1.
Proof.
  destruct (thread_of_record plain_case_table unescape_basic strptime_c (lit "3")
              sample_record) as [t|] eqn:E; [|vm_compute in E; discriminate E].
  exists t. split; [reflexivity|].
  destruct (reply_count_rule plain_case_table unescape_basic strptime_c _ _ _ E)
    as (Hc & _ & _ & Hr & _).
  split; [rewrite Hc; reflexivity|rewrite Hr; reflexivity].
Defined.



Lemma message_anchor_rule_witness :
  msg_id bare_message = None
  /\ message_anchor bare_message = lit "msg-unknown"
  /\ message_anchor dated_message = lit "msg-1-1".
Proof.
  split; [reflexivity|]. split.
  - exact (proj1 (proj2 (message_anchor_rule plain_case_table strptime_c bare_message))
                 eq_refl).
  - exact (eq_trans (proj1 (message_anchor_rule plain_case_table strptime_c dated_message))
                    eq_refl).
Defined.

(** ** Further statements on sample data *)

Lemma slugify_idempotent_witness :
  slugify plain_case_table (lit "a-b") = lit "a-b"
  /\ slugify plain_case_table (slugify plain_case_table (lit "A  B!"))
     = slugify plain_case_table (lit "A  B!").
Proof.
  destruct (slugify_idempotent plain_case_table) as [Hidem Hfixed]. split.
  - apply Hfixed. exact (slugify_shaped plain_case_table (lit "a-b")).
  - apply Hidem.
Defined.

Lemma hash_for_url_name_shape_witness :
  hash_for_url sample_url = Some sample_hashed_name
  /\ exists digest ext,
       sample_hashed_name = digest ++ ext /\ length digest = 40%nat
       /\ Forall (fun c => is_hex_digit c = true) digest
       /\ (ext = [] \/ is_extension ext)
       /\ 47 ∉ sample_hashed_name.
Proof.
  assert (hash_for_url sample_url = Some sample_hashed_name) as H
    by (vm_compute; reflexivity).
  split; [exact H|]. exact (hash_for_url_name_shape sample_url sample_hashed_name H).
Defined.

Lemma format_folder_date_faithful_witness :
  valid_datetime sample_date = true /\ valid_datetime century_date = true
  /\ format_folder_date (Some sample_date) <> format_folder_date (Some century_date).
Proof.
  assert (valid_datetime sample_date = true) as H1 by reflexivity.
  assert (valid_datetime century_date = true) as H2 by reflexivity.
  split; [exact H1|]. split; [exact H2|].
  intros E.
  apply (proj1 (proj1 (format_folder_date_faithful sample_date century_date H1 H2))) in E.
  destruct E as [E _]. discriminate E.
Defined.

Lemma format_date_short_century_witness :
  valid_datetime sample_date = true /\ valid_datetime century_date = true
  /\ format_date_short (Some sample_date) = format_date_short (Some century_date).
Proof.
  assert (valid_datetime sample_date = true) as H1 by reflexivity.
  assert (valid_datetime century_date = true) as H2 by reflexivity.
  split; [exact H1|]. split; [exact H2|].
  apply (proj2 (format_date_short_century sample_date century_date H1 H2)).
  repeat split; reflexivity.
Defined.

Lemma format_time_component_faithful_witness :
  valid_datetime sample_date = true /\ valid_datetime century_date = true
  /\ format_time_component sample_date <> format_time_component century_date.
Proof.
  assert (valid_datetime sample_date = true) as H1 by reflexivity.
  assert (valid_datetime century_date = true) as H2 by reflexivity.
  split; [exact H1|]. split; [exact H2|].
  intros E.
  apply (proj1 (format_time_component_faithful sample_date century_date H1 H2)) in E.
  destruct E as [E _]. discriminate E.
Defined.

Lemma render_messages_needs_href_witness :
  lacks_href [href_less_message]
  /\ (render_messages plain_case_table strptime_c [href_less_message] ∅ ∅
        (lit "files") ∅).1
     = Raised AttributeError.
Proof.
  assert (lacks_href [href_less_message]) as H.
  { exists href_less_message, (mk_attachment None (Some (lit "a.zip")) None).
    split; [left|]. split; [left|reflexivity]. }
  split; [exact H|].
  destruct (proj1 (render_messages_needs_href plain_case_table strptime_c
                     [href_less_message] ∅ ∅ (lit "files") ∅) H) as [E|E];
    [exact E|].
  vm_compute in E. discriminate E.
Defined.

Lemma archive_pages_written_witness :
  store_threads sample_store
  = Some [(lit "7", mk_thread_record None None (Some [])); (lit "3", sample_record)]
  /\ (main plain_case_table unescape_basic strptime_c [] (lit "Archive")
           sample_store sample_clock ∅).1 = Done tt
  /\ is_Some ((main plain_case_table unescape_basic strptime_c [] (lit "Archive")
                    sample_store sample_clock ∅).2 !! lit "assets/style.css").
Proof.
  assert (main plain_case_table unescape_basic strptime_c [] (lit "Archive")
               sample_store sample_clock ∅
          = (Done tt,
             (main plain_case_table unescape_basic strptime_c [] (lit "Archive")
                   sample_store sample_clock ∅).2)) as Hrun
    by (vm_compute; reflexivity).
  split; [reflexivity|]. split; [rewrite Hrun; reflexivity|].
  exact (proj1 (archive_pages_written plain_case_table unescape_basic strptime_c []
                  (lit "Archive") sample_store sample_clock ∅ _ _ eq_refl Hrun)).
Defined.

Lemma rewrite_images_none_captured_witness :
  rewrite_images ∅ (lit "files") [sample_url; []] (lit "<img src=`http://x/a.jpg`>") ∅
  = (Done (lit "<img src=`http://x/a.jpg`>"), ∅).
Proof.
  apply rewrite_images_none_captured.
  constructor; [|constructor; [left; reflexivity|constructor]].
  right. exists sample_hashed_name. split; [vm_compute; reflexivity|].
  apply lookup_empty.
Defined.

Lemma reply_link_resolves_witness :
  exists article tr',
    render_message plain_case_table strptime_c ∅ ∅ (lit "files") 2 2 reply_message ∅
    = (Done article, tr')
    /\ occurs_in (tpl "in reply to <a href=`#" ++ message_anchor dated_message
                  ++ tpl "`>") article.
Proof.
  destruct (render_message plain_case_table strptime_c ∅ ∅ (lit "files") 2 2
              reply_message ∅) as [[article|e] tr'] eqn:H;
    [|vm_compute in H; discriminate H].
  exists article, tr'. split; [reflexivity|].
  apply (reply_link_resolves plain_case_table strptime_c ∅ ∅ (lit "files") 2 2
           reply_message dated_message (lit "1.1") ∅ tr' article H);
    [reflexivity|discriminate|reflexivity].
Defined.

Lemma render_messages_articles_witness :
  exists html tr' articles,
    render_messages plain_case_table strptime_c [dated_message; reply_message] ∅ ∅
      (lit "files") ∅
    = (Done html, tr')
    /\ html = str_join [10] articles /\ length articles = 2%nat.
Proof.
  destruct (render_messages plain_case_table strptime_c [dated_message; reply_message]
              ∅ ∅ (lit "files") ∅) as [[html|e] tr'] eqn:H;
    [|vm_compute in H; discriminate H].
  destruct (render_messages_articles plain_case_table strptime_c _ _ _ _ _ _ _ H)
    as (articles & Hjoin & Hlen & _).
  exists html, tr', articles. split; [reflexivity|]. split; [exact Hjoin|exact Hlen].
Defined.

Lemma describe_profile_labels_witness :
  describe_profile (Some unlabelled_profile) = []
  /\ describe_profile (Some located_profile)
     = describe_profile (Some {[ lit "Location" := lit "Oslo" ]}).
Proof.
  destruct describe_profile_labels as [Hempty Hsame]. split.
  - apply Hempty. repeat constructor.
  - apply Hsame. repeat constructor.
Defined.

(** The sample decoder keeps texts encodable. *)
Lemma unescape_basic_encodable (s : pystr) : encodable s -> encodable (unescape_basic s).
Proof.
  unfold unescape_basic. generalize (length s) as fuel. intros fuel. revert s.
  induction fuel as [|fuel IH]; intros s Hs; [exact Hs|].
  cbn [unescape_from]. destruct s as [|c r]; [constructor|].
  destruct (decode_entity basic_entities (c :: r)) as [[v n]|] eqn:Hd.
  - apply encodable_app; [|apply IH, encodable_drop, Hs].
    unfold basic_entities in Hd. cbn [decode_entity] in Hd.
    repeat match type of Hd with
           | (if ?b then _ else _) = _ => destruct b
           end;
      try discriminate Hd; injection Hd as <- _;
      apply utf8_encode_encodable; vm_compute; eauto.
  - inversion Hs as [|? ? Hc Hr]; subst. constructor; [exact Hc|apply IH, Hr].
Qed.

Lemma sample_store_clean : clean_store sample_store.
Proof.
  eexists. split; [reflexivity|]. split.
  - repeat first
      [ exact I
      | match goal with
        | |- encodable _ =>
            apply utf8_encode_encodable; vm_compute; eexists; reflexivity
        | |- encodable_opt (Some _) =>
            apply utf8_encode_encodable; vm_compute; eexists; reflexivity
        | |- Forall (fun c => is_Some (utf8_char c)) _ =>
            apply utf8_encode_encodable; vm_compute; eexists; reflexivity
        | |- is_Some (utf8_char _) => vm_compute; eexists; reflexivity
        end
      | apply Forall_nil_2
      | apply Forall_cons_2
      | split ].
  - intros key profile label value H. exfalso. revert H.
    unfold sample_store. cbn [store_profiles]. rewrite lookup_empty. discriminate.
Qed.

(** The names of the sample stores are plain and short. *)
Lemma sample_store_plain :
  plain_thread_ids plain_case_table unescape_basic strptime_c sample_store.
Proof.
  intros entries stem data t Hst Hin Ht.
  apply thread_of_record_id in Ht. rewrite Ht.
  apply Some_eq in Hst. subst entries.
  apply elem_of_cons in Hin as [E|Hin];
    [|apply list_elem_of_singleton in Hin; rename Hin into E];
    injection E as -> ->; split; intros H; apply list_elem_of_In in H;
    vm_compute in H; destruct H as [H|H]; first [discriminate H|exact H].
Qed.

Lemma sample_store_fits :
  page_names_fit plain_case_table unescape_basic strptime_c sample_store.
Proof.
  intros entries stem data t Hst Hin Ht.
  apply Some_eq in Hst. subst entries.
  apply elem_of_cons in Hin as [E|Hin];
    [|apply list_elem_of_singleton in Hin; rename Hin into E];
    injection E as -> ->; vm_compute in Ht; [discriminate Ht|].
  apply Some_eq in Ht. subst t. cbn [t_id t_folder_slug].
  split; eexists; (split; [vm_compute; reflexivity|cbn [length]; lia]).
Qed.

Lemma main_returns_witness :
  clean_store sample_store
  /\ plain_thread_ids plain_case_table unescape_basic strptime_c sample_store
  /\ page_names_fit plain_case_table unescape_basic strptime_c sample_store
  /\ (main plain_case_table unescape_basic strptime_c [] (lit "Archive")
           sample_store sample_clock ∅).1 = Done tt.
Proof.
  split; [exact sample_store_clean|]. split; [exact sample_store_plain|].
  split; [exact sample_store_fits|].
  apply main_returns;
    [exact unescape_basic_encodable|constructor|apply encodable_lit
    |exact sample_store_clean|exact sample_store_plain|exact sample_store_fits].
Defined.

Lemma main_frame_witness :
  plain_thread_ids plain_case_table unescape_basic strptime_c sample_store
  /\ (main plain_case_table unescape_basic strptime_c [] (lit "Archive")
           sample_store sample_clock {[ lit "notes.txt" := [104; 105] ]}).2
     !! lit "notes.txt"
     = Some [104; 105].
Proof.
  split; [exact sample_store_plain|].
  pose proof (main_frame plain_case_table unescape_basic strptime_c []
                (lit "Archive") sample_store sample_clock
                {[ lit "notes.txt" := [104; 105] ]} (lit "notes.txt")
                sample_store_plain) as H.
  cbv zeta in H. destruct H as [H|[H|H]].
  - rewrite H. apply lookup_singleton_eq.
  - exfalso. destruct H as [H|[H|[(id & _ & H)|(slug & _ & H)]]];
      cbn in H; discriminate H.
  - exfalso. destruct H as (h & data & H & _). cbn in H. discriminate H.
Defined.

Lemma pictured_store_plain :
  plain_thread_ids plain_case_table unescape_basic strptime_c pictured_store.
Proof.
  intros entries stem data t Hst Hin Ht.
  apply thread_of_record_id in Ht. rewrite Ht.
  apply Some_eq in Hst. subst entries.
  apply list_elem_of_singleton in Hin. injection Hin as -> ->.
  split; intros H; apply list_elem_of_In in H; vm_compute in H; destruct H as [H|H]; first [discriminate H|exact H].
Qed.

Lemma captured_files_exported_witness :
  captured sample_files sample_url sample_hashed_name
  /\ plain_thread_ids plain_case_table unescape_basic strptime_c pictured_store
  /\ (main plain_case_table unescape_basic strptime_c [] (lit "Archive")
           pictured_store sample_clock ∅).1 = Done tt
  /\ (main plain_case_table unescape_basic strptime_c [] (lit "Archive")
           pictured_store sample_clock ∅).2 !! (lit "files/" ++ sample_hashed_name)
     = Some [255; 216; 255].
Proof.
  assert (captured sample_files sample_url sample_hashed_name) as Hcap.
  { split; [discriminate|]. split; [vm_compute; reflexivity|].
    exists [255; 216; 255]. apply lookup_singleton_eq. }
  assert (main plain_case_table unescape_basic strptime_c [] (lit "Archive")
               pictured_store sample_clock ∅
          = (Done tt,
             (main plain_case_table unescape_basic strptime_c [] (lit "Archive")
                   pictured_store sample_clock ∅).2)) as Hrun
    by (vm_compute; reflexivity).
  split; [exact Hcap|]. split; [exact pictured_store_plain|].
  split; [rewrite Hrun; reflexivity|].
  rewrite (captured_files_exported plain_case_table unescape_basic strptime_c []
             (lit "Archive") pictured_store sample_clock ∅ _
             [(lit "5", pictured_record)] (lit "5") pictured_record
             pictured_message sample_url sample_hashed_name
             eq_refl (list_elem_of_here _ _) (list_elem_of_here _ _)
             (list_elem_of_here _ _) Hcap pictured_store_plain Hrun).
  rewrite lookup_empty. apply lookup_singleton_eq.
Defined.
